(** * Virtual collections over the vat store: key codec and collection engine

    A shallow embedding of the SwingSet collection manager
    (collectionManager.js): the sortable key codec, the per-collection
    ordinal allocator, the collection engine (has/get/init/set/delete,
    clear, iteration) and collection creation and reanimation.

    Conventions of the embedding.
    - A JavaScript string is a [string]; [<] on strings is the
      lexicographic order on character codes ([String.ltb]).
    - A double is represented by the 64 bits that [asBits[0]] shows after
      [asNumber[0] = n], as a [Z] in [0, 2^64).
    - A bigint is a [Z].
    - Integer-valued JavaScript numbers (lengths, counters, ordinals) are
      [Z]; they are exact below 2^53.
    - The vat store is a [gmap string string].
    - A thrown exception leaves every earlier side effect in place: an
      operation maps a state to a state and an outcome.
    - The pattern kit, the marshaller and the reference manager are
      interfaces ([PatternKit], [Marshal], [RefManager]); [Demo] gives
      instances to run the code on.

    The definitions come first; the properties follow from
    [Properties] on: the order of strings, the loops of the iterator and
    of [clear], the failures of [init] and [delete], the generation
    guard, the keys of numbers and bigints, the size invariant, the
    allocator of ordinals, and the code at concrete inputs; then, from
    [Laws] on, the laws of the codec, of the operations of the engine
    taken together, of iteration, and of the kinds and collections of
    the manager. *)

From Stdlib Require Import ZArith String Ascii List Lia.
From Stdlib Require Import DecimalString HexadecimalString DecimalPos.
From Stdlib Require Import HexadecimalPos HexadecimalN DecimalN.
From Stdlib Require Import OrderedTypeEx.
From stdpp Require Import gmap strings list.

Open Scope Z_scope.

(** ** Strings as JavaScript uses them *)

Module JsString.

(** [s.substring(start)]: a negative start counts as 0, a start beyond
    the end gives the empty string. *)
Fixpoint drop (n : nat) (s : string) : string :=
  match n, s with
  | O, _ => s
  | S n', String _ s' => drop n' s'
  | S _, EmptyString => EmptyString
  end.

Definition substring (start : Z) (s : string) : string :=
  drop (Z.to_nat start) s.

Definition len (s : string) : Z := Z.of_nat (String.length s).

(** [`${n}`] and [n.toString()] for an integer. *)
Definition ofZ (n : Z) : string :=
  DecimalString.NilZero.string_of_int (Z.to_int n).

(** [bits.toString(16)] for a non-negative bigint. *)
Definition hexOfZ (n : Z) : string :=
  HexadecimalString.NilZero.string_of_uint (N.to_hex_uint (Z.to_N n)).

Definition decDigit (c : ascii) : option Z :=
  let n := Z.of_N (N_of_ascii c) in
  if (48 <=? n) && (n <=? 57) then Some (n - 48) else None.

Definition hexDigit (c : ascii) : option Z :=
  let n := Z.of_N (N_of_ascii c) in
  if (48 <=? n) && (n <=? 57) then Some (n - 48)
  else if (97 <=? n) && (n <=? 102) then Some (n - 87)
  else if (65 <=? n) && (n <=? 70) then Some (n - 55)
  else None.

(** Digits of [s] in the given base, most significant first, added to
    the accumulator; [None] when a character is no digit. *)
Fixpoint digits (base : Z) (digit : ascii -> option Z) (acc : Z) (s : string)
  : option Z :=
  match s with
  | EmptyString => Some acc
  | String c s' =>
      match digit c with
      | Some d => digits base digit (base * acc + d) s'
      | None => None
      end
  end.

(** [BigInt(s)] on a string of decimal digits; the empty string is [0n].
    [None] is the [SyntaxError]. *)
Definition bigIntOfDec (s : string) : option Z := digits 10 decDigit 0 s.

(** [BigInt(`0x${s}`)]: at least one hexadecimal digit is required. *)
Definition bigIntOfHex (s : string) : option Z :=
  match s with
  | EmptyString => None
  | _ => digits 16 hexDigit 0 s
  end.

(** The longest prefix of decimal digits, as [Number.parseInt(s, 10)]
    reads it on an unsigned string; [None] without a digit. *)
Fixpoint digitPrefix (s : string) : string :=
  match s with
  | EmptyString => EmptyString
  | String c s' =>
      match decDigit c with
      | Some _ => String c (digitPrefix s')
      | None => EmptyString
      end
  end.

End JsString.

(** ** The key codec *)

Definition zeroPad (n : string) (size : Z) : string :=
  let str := "000000000000000000" +:+ n in
  JsString.substring (JsString.len str - size) str.

(** *** Numbers *)

Module Float64.

Definition signBit (bits : Z) : bool := Z.testbit bits 63.
Definition magnitude (bits : Z) : Z := Z.land bits 0x7fffffffffffffff.
Definition isNaN (bits : Z) : bool := 0x7ff0000000000000 <? magnitude bits.

(** [n < 0] on the double with these bits: false on both zeros and on
    every NaN. *)
Definition ltZero (bits : Z) : bool :=
  signBit bits && negb (isNaN bits) && negb (magnitude bits =? 0).

(** Position in the IEEE 754 total order: sign and magnitude read as one
    signed integer, with [-0] just below [+0]. *)
Definition rank (bits : Z) : Z :=
  if signBit bits then - magnitude bits - 1 else magnitude bits.

Definition totalOrderLt (a b : Z) : Prop := rank a < rank b.

Definition wf (bits : Z) : Prop := 0 <= bits < 2 ^ 64.

Definition negInfinity : Z := 0xfff0000000000000.
Definition posInfinity : Z := 0x7ff0000000000000.
Definition negOne : Z := 0xbff0000000000000.
Definition posOne : Z := 0x3ff0000000000000.
Definition posZero : Z := 0.
Definition negZero : Z := 0x8000000000000000.
Definition NaN : Z := 0x7ff8000000000000.

End Float64.

Definition numberToDBEntryKey (n : Z) : string :=
  let bits := n in
  let bits :=
    if Float64.ltZero n then Z.lxor bits 0xffffffffffffffff
    else Z.lxor bits 0x8000000000000000 in
  "f" +:+ zeroPad (JsString.hexOfZ bits) 16.

(** [k[0] < '8']: a missing character compares false. *)
Definition firstCharBelow8 (k : string) : bool :=
  match k with
  | String c _ => (N_of_ascii c <? N_of_ascii "8")%N
  | EmptyString => false
  end.

Definition dbEntryKeyToNumber (k : string) : option Z :=
  match JsString.bigIntOfHex (JsString.substring 1 k) with
  | None => None
  | Some bits =>
      let bits :=
        if firstCharBelow8 k then Z.lxor bits 0xffffffffffffffff
        else Z.lxor bits 0x8000000000000000 in
      Some (bits mod 2 ^ 64)
  end.

(** *** Bigints *)

Definition BIGINT_TAG_LEN : Z := 10.
Definition BIGINT_LEN_MODULUS : Z := 10 ^ BIGINT_TAG_LEN.

Definition bigintToDBEntryKey (n : Z) : string :=
  if n <? 0 then
    let raw := JsString.ofZ (- n) in
    let modulus := 10 ^ JsString.len raw in
    let numstr := JsString.ofZ (modulus + n) in
    let lenTag :=
      zeroPad (JsString.ofZ (BIGINT_LEN_MODULUS - JsString.len raw))
              BIGINT_TAG_LEN in
    "n" +:+ lenTag +:+ ":" +:+ zeroPad numstr (JsString.len raw)
  else
    let numstr := JsString.ofZ n in
    "p" +:+ zeroPad (JsString.ofZ (JsString.len numstr)) BIGINT_TAG_LEN
        +:+ ":" +:+ numstr.

Definition dbEntryKeyToBigint (k : string) : option Z :=
  let numstr := JsString.substring (BIGINT_TAG_LEN + 2) k in
  match JsString.bigIntOfDec numstr with
  | None => None
  | Some n =>
      match k with
      | String "n" _ =>
          let modulus := 10 ^ JsString.len numstr in
          Some (- (modulus - n))
      | _ => Some n
      end
  end.

(** ** Keys, values and outcomes *)

(** A passable offered as a key.  A remotable is identified by the slot
    the environment gives it ([getSlotForVal], [getValForSlot]); a symbol
    by its name ([nameForPassableSymbol], [passableSymbolForName]).
    [KOther] is a passable of any other pass style (copyArray, promise,
    error, ...). *)
Inductive key : Type :=
| KNull
| KUndefined
| KNumber (bits : Z)
| KString (s : string)
| KBoolean (b : bool)
| KBigint (n : Z)
| KRemotable (slot : string)
| KSymbol (name : string)
| KOther (passStyle : string).

(** The marshalled form of a value, [{ body, slots }]. *)
Record capdata : Type := CapData { body : string; slots : list string }.

(** One constructor per failing [assert] (or throwing builtin) of the
    source.  [FuelExhausted] is not a JavaScript error: it marks a loop of
    the model that ran out of its iteration bound. *)
Inductive error : Type :=
| SchemaViolation          (* invalid key type for collection *)
| AlreadyPresent           (* key already registered in collection *)
| NotFound                 (* key not found in collection *)
| UnsupportedKeyPassStyle  (* cannot be used as a collection key *)
| UnsupportedValuePattern  (* not a supported pattern for collection values *)
| KeyPatternRejected       (* assertKeyPattern *)
| DecodeCorruption         (* invalid database key *)
| OrdinalMissing           (* no ordinal for key *)
| ConcurrentModification   (* generationAtStart === currentGenerationNumber *)
| SyntaxError              (* JSON.parse, BigInt *)
| TypeError                (* property of undefined *)
| FuelExhausted.

Inductive outcome (A : Type) : Type :=
| Ok (a : A)
| Throw (e : error).
Arguments Ok {A} a.
Arguments Throw {A} e.

Definition isThrow {A} (o : outcome A) : bool :=
  match o with Throw _ => true | Ok _ => false end.

(** ** The collaborators of the collection manager *)

(** [@agoric/store]'s pattern kit, as far as the manager uses it. *)
Class PatternKit (value pattern : Type) : Type := {
  matches : key -> pattern -> bool;
  matchesValue : value -> pattern -> bool;
  M_any : pattern;
  M_scalar : pattern;
  compareRank : pattern -> pattern -> Z;
  isKeyPattern : pattern -> bool;
  getRankCover : pattern -> (key -> outcome string) -> outcome (string * string)
}.

(** [serialize], [unserialize] and [JSON]. *)
Class Marshal (value pattern : Type) : Type := {
  serialize : value -> capdata;
  unserialize : capdata -> value;
  serializePattern : pattern -> capdata;
  unserializePattern : capdata -> pattern;
  JSON_stringify : capdata -> string;
  JSON_parse : string -> option capdata
}.

(** The virtual reference manager, as transitions of its own state. *)
Class RefManager (V : Type) : Type := {
  addReachableVref : string -> V -> V;
  removeReachableVref : string -> V -> V;
  updateReferenceCounts : list string -> list string -> V -> V;
  addRecognizableValue : key -> V -> V;
  removeRecognizableValue : key -> V -> V;
  registerReanimator : Z -> V -> V;
  registerDroppedCollection : string -> V -> V
}.

(** ** The vat store *)

Module VatStore.

Definition inRange (priorKey lowerBound upperBound k : string) : bool :=
  String.ltb priorKey k && String.leb lowerBound k && String.ltb k upperBound.

Definition pick (priorKey lowerBound upperBound : string)
    (kv : string * string) (acc : option (string * string))
  : option (string * string) :=
  if inRange priorKey lowerBound upperBound kv.1 then
    match acc with
    | Some kv' => if String.ltb kv.1 kv'.1 then Some kv else acc
    | None => Some kv
    end
  else acc.

(** Modelled from the spec: the syscall [vatstoreGetAfter], which is not
    part of the manager.  It returns the entry with the smallest key
    strictly greater than [priorKey] within [lowerBound, upperBound). *)
Definition getAfter (priorKey lowerBound upperBound : string)
    (m : gmap string string) : option (string * string) :=
  foldr (pick priorKey lowerBound upperBound) None (map_to_list m).

End VatStore.

(** ** One collection *)

(** What [summonCollection] closes over. *)
Record collection (pattern : Type) : Type := Collection {
  label : string;
  collectionID : string;
  hasWeakKeys : bool;
  keySchema : pattern
}.
Arguments Collection {pattern}.
Arguments label {pattern}.
Arguments collectionID {pattern}.
Arguments hasWeakKeys {pattern}.
Arguments keySchema {pattern}.

(** The vat store and the reference manager are shared; the generation
    number and the size are the [let] variables of one handle. *)
Record state (V : Type) : Type := State {
  vatstore : gmap string string;
  vrm : V;
  currentGenerationNumber : Z;
  size : Z
}.
Arguments State {V}.
Arguments vatstore {V}.
Arguments vrm {V}.
Arguments currentGenerationNumber {V}.
Arguments size {V}.

Declare Scope js_scope.
Delimit Scope js_scope with js.

Section Engine.

Context {V value pattern : Type}.
Context `{PK : PatternKit value pattern}.
Context `{MA : Marshal value pattern}.
Context `{RM : RefManager V}.

(** A computation on the state of one handle that may throw. *)
Definition M (A : Type) : Type := state V -> state V * outcome A.

Definition ret {A} (a : A) : M A := fun st => (st, Ok a).
Definition throw {A} (e : error) : M A := fun st => (st, Throw e).
Definition bind {A B} (m : M A) (k : A -> M B) : M B :=
  fun st =>
    match m st with
    | (st', Ok a) => k a st'
    | (st', Throw e) => (st', Throw e)
    end.

Notation "'let!' x ':=' m 'in' k" := (bind m (fun x => k))
  (at level 10, x name, m at level 100, k at level 200) : js_scope.
Notation "'run!' m 'in' k" := (bind m (fun _ => k))
  (at level 10, m at level 100, k at level 200) : js_scope.
Local Open Scope js_scope.

Definition assert (b : bool) (e : error) : M unit :=
  if b then ret tt else throw e.

Definition vatstoreGet (k : string) : M (option string) :=
  fun st => (st, Ok (vatstore st !! k)).
Definition vatstoreSet (k v : string) : M unit :=
  fun st => (State (<[k := v]> (vatstore st)) (vrm st)
               (currentGenerationNumber st) (size st), Ok tt).
Definition vatstoreDelete (k : string) : M unit :=
  fun st => (State (delete k (vatstore st)) (vrm st)
               (currentGenerationNumber st) (size st), Ok tt).
Definition onVrm (f : V -> V) : M unit :=
  fun st => (State (vatstore st) (f (vrm st))
               (currentGenerationNumber st) (size st), Ok tt).
Definition bumpGeneration : M unit :=
  fun st => (State (vatstore st) (vrm st)
               (currentGenerationNumber st + 1) (size st), Ok tt).
Definition addSize (d : Z) : M unit :=
  fun st => (State (vatstore st) (vrm st)
               (currentGenerationNumber st) (size st + d), Ok tt).

(** A string in a condition: [undefined] and the empty string are falsy. *)
Definition truthy (o : option string) : bool :=
  match o with
  | Some s => negb (String.eqb s "")
  | None => false
  end.

(** [`${x}`] for a string that may be [undefined]. *)
Definition template (o : option string) : string :=
  match o with Some s => s | None => "undefined" end.

Definition parseJSON (raw : option string) : M capdata :=
  match raw with
  | Some s =>
      match JSON_parse s with
      | Some c => ret c
      | None => throw SyntaxError
      end
  | None => throw SyntaxError
  end.

Definition pattEq (p1 p2 : pattern) : bool := compareRank p1 p2 =? 0.

Variable c : collection pattern.

Definition dbKeyPrefix : string := "vc." +:+ collectionID c +:+ ".".

Definition prefix (dbEntryKey : string) : string :=
  dbKeyPrefix +:+ dbEntryKey.

Definition getOrdinal (slot : string) : M (option string) :=
  vatstoreGet (prefix ("|" +:+ slot)).

Definition encodeKey (k : key) : M string :=
  match k with
  | KNull => ret "z"
  | KUndefined => ret "u"
  | KNumber n => ret (numberToDBEntryKey n)
  | KString s => ret ("s" +:+ s)
  | KBoolean b => ret ("b" +:+ (if b then "true" else "false"))
  | KBigint n => ret (bigintToDBEntryKey n)
  | KRemotable slot =>
      let! ordinal := getOrdinal slot in
      match ordinal with
      | None => throw OrdinalMissing
      | Some o =>
          let ordinalTag := zeroPad o BIGINT_TAG_LEN in
          ret ("r" +:+ ordinalTag +:+ ":" +:+ slot)
      end
  | KSymbol name => ret ("y" +:+ name)
  | KOther _ => throw UnsupportedKeyPassStyle
  end.

(** [Number.parseInt(s, 10)] on a stored row: [None] is [NaN].  Leading
    white space is not modelled; the row is only written by
    [makeCollection] and [generateOrdinal]. *)
Definition parseInt (o : option string) : option Z :=
  let s := template o in
  let '(neg, s) :=
    match s with
    | String "-" s' => (true, s')
    | String "+" s' => (false, s')
    | _ => (false, s)
    end in
  match JsString.digitPrefix s with
  | EmptyString => None
  | ds =>
      match JsString.bigIntOfDec ds with
      | Some n => Some (if neg : bool then - n else n)
      | None => None
      end
  end.

Definition numberToString (n : option Z) : string :=
  match n with Some z => JsString.ofZ z | None => "NaN" end.

Definition generateOrdinal (slot : string) : M unit :=
  let! raw := vatstoreGet (prefix "|nextOrdinal") in
  let nextOrdinal := parseInt raw in
  run! vatstoreSet (prefix ("|" +:+ slot)) (numberToString nextOrdinal) in
  vatstoreSet (prefix "|nextOrdinal")
    (numberToString (option_map (Z.add 1) nextOrdinal)).

Definition deleteOrdinal (slot : string) : M unit :=
  vatstoreDelete (prefix ("|" +:+ slot)).

Definition keyToDBKey (k : key) : M string :=
  let! e := encodeKey k in ret (prefix e).

Definition dbKeyToKey (dbKey : string) : outcome key :=
  let dbEntryKey :=
    JsString.substring (JsString.len dbKeyPrefix) dbKey in
  match dbEntryKey with
  | String "z" _ => Ok KNull
  | String "u" _ => Ok KUndefined
  | String "f" _ =>
      match dbEntryKeyToNumber dbEntryKey with
      | Some n => Ok (KNumber n)
      | None => Throw SyntaxError
      end
  | String "s" rest => Ok (KString rest)
  | String "b" rest => Ok (KBoolean (negb (String.eqb rest "false")))
  | String "n" _ | String "p" _ =>
      match dbEntryKeyToBigint dbEntryKey with
      | Some n => Ok (KBigint n)
      | None => Throw SyntaxError
      end
  | String "r" _ =>
      Ok (KRemotable (JsString.substring (BIGINT_TAG_LEN + 2) dbEntryKey))
  | String "y" rest => Ok (KSymbol rest)
  | _ => Throw DecodeCorruption
  end.

Definition has (k : key) : M bool :=
  if negb (matches k (keySchema c)) then ret false
  else
    match k with
    | KRemotable slot =>
        let! ordinal := getOrdinal slot in ret (bool_decide (is_Some ordinal))
    | _ =>
        let! dbKey := keyToDBKey k in
        let! raw := vatstoreGet dbKey in
        ret (bool_decide (is_Some raw))
    end.

Definition get (k : key) : M value :=
  run! assert (matches k (keySchema c)) SchemaViolation in
  let! dbKey := keyToDBKey k in
  let! result := vatstoreGet dbKey in
  if truthy result then
    let! parsed := parseJSON result in ret (unserialize parsed)
  else throw NotFound.

Definition entryDeleter (vobjID : string) : M unit :=
  let ordinalKey := prefix ("|" +:+ vobjID) in
  let! ordinalString := vatstoreGet ordinalKey in
  run! vatstoreDelete ordinalKey in
  let ordinalTag := zeroPad (template ordinalString) BIGINT_TAG_LEN in
  vatstoreDelete (prefix ("r" +:+ ordinalTag +:+ ":" +:+ vobjID)).

Definition init (k : key) (v : value) : M unit :=
  run! assert (matches k (keySchema c)) SchemaViolation in
  let! present := has k in
  run! assert (negb present) AlreadyPresent in
  run! bumpGeneration in
  run! match k with
       | KRemotable slot =>
           run! generateOrdinal slot in
           if hasWeakKeys c then onVrm (addRecognizableValue k)
           else onVrm (addReachableVref slot)
       | _ => ret tt
       end in
  let serializedValue := serialize v in
  run! onVrm (fun m => fold_left (fun m s => addReachableVref s m)
                         (slots serializedValue) m) in
  let! dbKey := keyToDBKey k in
  run! vatstoreSet dbKey (JSON_stringify serializedValue) in
  addSize 1.

Definition set (k : key) (v : value) : M unit :=
  run! assert (matches k (keySchema c)) SchemaViolation in
  let! dbKey := keyToDBKey k in
  let! rawBefore := vatstoreGet dbKey in
  run! assert (truthy rawBefore) NotFound in
  let! before := parseJSON rawBefore in
  let after := serialize v in
  run! onVrm (updateReferenceCounts (slots before) (slots after)) in
  vatstoreSet dbKey (JSON_stringify after).

Definition deleteInternal (k : key) : M unit :=
  run! assert (matches k (keySchema c)) SchemaViolation in
  let! dbKey := keyToDBKey k in
  let! rawValue := vatstoreGet dbKey in
  run! assert (truthy rawValue) NotFound in
  let! val := parseJSON rawValue in
  run! onVrm (fun m => fold_left (fun m s => removeReachableVref s m)
                         (slots val) m) in
  run! vatstoreDelete dbKey in
  run! match k with
       | KRemotable slot =>
           run! (if hasWeakKeys c then onVrm (removeRecognizableValue k)
                 else onVrm (removeReachableVref slot)) in
           deleteOrdinal slot
       | _ => ret tt
       end in
  addSize (-1).

Definition del (k : key) : M unit :=
  run! bumpGeneration in
  deleteInternal k.

(** *** Iteration *)

(** What [entriesInternal] computes before it makes its generator. *)
Record scan : Type := Scan {
  keyPatt : pattern;
  valuePatt : pattern;
  scanStart : string;
  scanEnd : string;
  ignoreValues : bool
}.

(** A generator of [entriesInternal], seen through the wrapping
    generator of [keys], [values] or [entries]: not yet started (the
    arguments of the call are all it holds), suspended at its [yield],
    or completed (returned or thrown). *)
Inductive iterator : Type :=
| NotStarted (needValue : bool) (keyPatt valuePatt : option pattern)
| Suspended (sc : scan) (generationAtStart : Z) (priorDBKey : string)
| Completed.

Definition isOpen (it : iterator) : bool :=
  match it with Suspended _ _ _ => true | _ => false end.

Definition assertValuePattern (patt : pattern) : outcome unit :=
  if pattEq patt M_any then Ok tt else Throw UnsupportedValuePattern.

Definition entriesInternal (needValue : bool)
    (keyPatt valuePatt : option pattern) (st : state V) : outcome scan :=
  let keyPatt := default M_any keyPatt in
  let valuePatt := default M_any valuePatt in
  if negb (isKeyPattern keyPatt) then Throw KeyPatternRejected
  else
    match assertValuePattern valuePatt with
    | Throw e => Throw e
    | Ok _ =>
        match getRankCover keyPatt (fun k => (encodeKey k st).2) with
        | Throw e => Throw e
        | Ok (coverStart, coverEnd) =>
            Ok (Scan keyPatt valuePatt (prefix coverStart) (prefix coverEnd)
                  (negb needValue && pattEq valuePatt M_any))
        end
    end.

(** The body of [iter] from the head of its [while] loop to the next
    [yield], [break] or throw.  [None] is the end of the iteration. *)
Fixpoint iterLoop (fuel : nat) (sc : scan) (generationAtStart : Z)
    (priorDBKey : string) (st : state V)
  : iterator * outcome (option (key * option value)) :=
  match fuel with
  | O => (Completed, Throw FuelExhausted)
  | S fuel' =>
      if negb (generationAtStart =? currentGenerationNumber st) then
        (Completed, Throw ConcurrentModification)
      else
        match VatStore.getAfter priorDBKey (scanStart sc) (scanEnd sc)
                (vatstore st) with
        | None => (Completed, Ok None)
        | Some (dbKey, dbValue) =>
            if String.ltb dbKey (scanEnd sc) then
              let priorDBKey := dbKey in
              match dbKeyToKey dbKey with
              | Throw e => (Completed, Throw e)
              | Ok k =>
                  if matches k (keyPatt sc) then
                    if ignoreValues sc then
                      (Suspended sc generationAtStart priorDBKey,
                       Ok (Some (k, None)))
                    else
                      match JSON_parse dbValue with
                      | None => (Completed, Throw SyntaxError)
                      | Some parsed =>
                          let v := unserialize parsed in
                          if negb (matchesValue v (valuePatt sc)) then
                            iterLoop fuel' sc generationAtStart priorDBKey st
                          else
                            (Suspended sc generationAtStart priorDBKey,
                             Ok (Some (k, Some v)))
                      end
                  else iterLoop fuel' sc generationAtStart priorDBKey st
              end
            else iterLoop fuel' sc generationAtStart priorDBKey st
        end
  end.

(** Every pass of the loop that does not leave it moves [priorDBKey] to
    a greater key of the store. *)
Definition iterFuel (st : state V) : nat :=
  S (base.size (vatstore st)).

(** One [next()] on the generator of [entriesInternal]. *)
Definition next (it : iterator) (st : state V)
  : iterator * outcome (option (key * option value)) :=
  match it with
  | NotStarted needValue keyPatt valuePatt =>
      match entriesInternal needValue keyPatt valuePatt st with
      | Throw e => (Completed, Throw e)
      | Ok sc =>
          iterLoop (iterFuel st) sc (currentGenerationNumber st) "" st
      end
  | Suspended sc generationAtStart priorDBKey =>
      iterLoop (iterFuel st) sc generationAtStart priorDBKey st
  | Completed => (Completed, Ok None)
  end.

Definition project {A} (f : key * option value -> A)
    (r : iterator * outcome (option (key * option value)))
  : iterator * outcome (option A) :=
  match r with
  | (it, Ok (Some entry)) => (it, Ok (Some (f entry)))
  | (it, Ok None) => (it, Ok None)
  | (it, Throw e) => (it, Throw e)
  end.

Definition keys (keyPatt valuePatt : option pattern) : iterator :=
  NotStarted false keyPatt valuePatt.
Definition values (keyPatt valuePatt : option pattern) : iterator :=
  NotStarted true keyPatt valuePatt.
Definition entries (keyPatt valuePatt : option pattern) : iterator :=
  NotStarted true keyPatt valuePatt.

(** One [next()] on the generator that [keys], [values] or [entries]
    returned. *)
Definition keysNext (it : iterator) (st : state V)
  : iterator * outcome (option key) :=
  project fst (next it st).
Definition valuesNext (it : iterator) (st : state V)
  : iterator * outcome (option (option value)) :=
  project snd (next it st).
Definition entriesNext (it : iterator) (st : state V)
  : iterator * outcome (option (key * option value)) :=
  project id (next it st).

Fixpoint clearLoop (fuel : nat) (it : iterator) (st : state V)
  : state V * outcome unit :=
  match fuel with
  | O => (st, Throw FuelExhausted)
  | S fuel' =>
      match keysNext it st with
      | (_, Throw e) => (st, Throw e)
      | (_, Ok None) => (st, Ok tt)
      | (it', Ok (Some k)) =>
          match deleteInternal k st with
          | (st', Throw e) => (st', Throw e)
          | (st', Ok _) => clearLoop fuel' it' st'
          end
      end
  end.

Definition clear (keyPatt valuePatt : option pattern) : M unit :=
  fun st =>
    match clearLoop (iterFuel st) (keys keyPatt valuePatt) st with
    | (st', Ok _) => bumpGeneration st'
    | (st', Throw e) => (st', Throw e)
    end.

End Engine.

Arguments scan : clear implicits.
Arguments iterator : clear implicits.

(** ** The collection manager: kinds, creation and reanimation *)

Inductive kindName : Type :=
| scalarMapStore
| scalarWeakMapStore
| scalarSetStore
| scalarWeakSetStore.

#[global] Instance kindName_eq_dec : EqDecision kindName.
Proof. solve_decision. Defined.

(** [storeKindInfo[kind].hasWeakKeys]. *)
Definition kindHasWeakKeys (kind : kindName) : bool :=
  match kind with
  | scalarMapStore => false
  | scalarWeakMapStore => true
  | scalarSetStore => false
  | scalarWeakSetStore => true
  end.

(** [Object.getOwnPropertyNames(storeKindInfo)], in definition order. *)
Definition storeKindNames : list kindName :=
  [scalarMapStore; scalarWeakMapStore; scalarSetStore; scalarWeakSetStore].

(** The JSON text of the [storeKindIDTable] row. *)
Class KindTableCodec : Type := {
  JSON_stringifyTable : (kindName -> option Z) -> string;
  JSON_parseTable : string -> option (kindName -> option Z)
}.

(** The state of one [makeCollectionManager] closure, together with the
    module's [nextCollectionID], the vat store, the reference manager and
    the counter behind [allocateExportID], which the environment passes
    in to hand out the next export ID. *)
Record manager (V : Type) : Type := Manager {
  mVatstore : gmap string string;
  mVrm : V;
  nextCollectionID : Z;
  nextExportID : Z;
  storeKindInfoNeedsInitialization : bool;
  storeKindID : kindName -> Z;
  storeKindIDToName : list (Z * kindName)
}.
Arguments Manager {V}.
Arguments mVatstore {V}.
Arguments mVrm {V}.
Arguments nextCollectionID {V}.
Arguments nextExportID {V}.
Arguments storeKindInfoNeedsInitialization {V}.
Arguments storeKindID {V}.
Arguments storeKindIDToName {V}.

(** The external identifier of a collection, [o+<kindID>/<collectionID>]. *)
Module VatSlot.

(** The text before the first slash and the text after it. *)
Fixpoint splitAtSlash (s : string) : option (string * string) :=
  match s with
  | EmptyString => None
  | String "/" rest => Some (EmptyString, rest)
  | String ch rest =>
      match splitAtSlash rest with
      | Some (a, b) => Some (String ch a, b)
      | None => None
      end
  end.

(** A number in decimal digits, at least one. *)
Definition number (s : string) : option Z :=
  match s with
  | EmptyString => None
  | _ => JsString.bigIntOfDec s
  end.

(** Modelled from the spec: [parseVatSlot] (parseVatSlots.js is not among
    the sources) on an external identifier [o+<kindID>/<collectionID>];
    it gives [id] and [subid], [None] on any other text. *)
Definition parseVatSlot (vobjID : string) : option (Z * Z) :=
  match vobjID with
  | String "o" (String "+" rest) =>
      match splitAtSlash rest with
      | Some (a, b) =>
          match number a, number b with
          | Some id, Some subid => Some (id, subid)
          | _, _ => None
          end
      | None => None
      end
  | _ => None
  end.

End VatSlot.

Section Manager.

Context {V value pattern : Type}.
Context `{PK : PatternKit value pattern}.
Context `{MA : Marshal value pattern}.
Context `{RM : RefManager V}.
Context `{KT : KindTableCodec}.

Definition W (A : Type) : Type := manager V -> manager V * outcome A.

(** A handle: what [summonCollection] returns, with its own generation
    number and size. *)
Record handle : Type := Handle {
  hCollection : collection pattern;
  hGeneration : Z;
  hSize : Z
}.

(** The state an operation on a handle runs on, and its write-back. *)
Definition enter (h : handle) (m : manager V) : state V :=
  State (mVatstore m) (mVrm m) (hGeneration h) (hSize h).

Definition leave (h : handle) (m : manager V) (st : state V)
  : handle * manager V :=
  (Handle (hCollection h) (currentGenerationNumber st) (size st),
   Manager (vatstore st) (vrm st) (nextCollectionID m) (nextExportID m)
     (storeKindInfoNeedsInitialization m) (storeKindID m)
     (storeKindIDToName m)).

(** [allocateCollectionID]. *)
Definition allocateCollectionID (m : manager V) : manager V * Z :=
  (Manager (mVatstore m) (mVrm m) (nextCollectionID m + 1) (nextExportID m)
     (storeKindInfoNeedsInitialization m) (storeKindID m)
     (storeKindIDToName m),
   nextCollectionID m).

(** One turn of the loop of [obtainStoreKindID], for one kind. *)
Definition registerKind (kind : kindName)
    (acc : manager V * (kindName -> option Z))
  : manager V * (kindName -> option Z) :=
  let '(m, storeKindIDs) := acc in
  let '(kindID, nextExport, storeKindIDs) :=
    match storeKindIDs kind with
    | Some kindID =>
        if kindID =? 0
        then (nextExportID m, nextExportID m + 1,
              fun k => if decide (k = kind) then Some (nextExportID m)
                       else storeKindIDs k)
        else (kindID, nextExportID m, storeKindIDs)
    | None =>
        (nextExportID m, nextExportID m + 1,
         fun k => if decide (k = kind) then Some (nextExportID m)
                  else storeKindIDs k)
    end in
  (Manager (mVatstore m) (registerReanimator kindID (mVrm m))
     (nextCollectionID m) nextExport
     (storeKindInfoNeedsInitialization m)
     (fun k => if decide (k = kind) then kindID else storeKindID m k)
     ((kindID, kind) :: storeKindIDToName m),
   storeKindIDs).

Definition obtainStoreKindID (kind : kindName) : W Z :=
  fun m =>
    if storeKindInfoNeedsInitialization m then
      let m := Manager (mVatstore m) (mVrm m) (nextCollectionID m)
                 (nextExportID m) false (storeKindID m)
                 (storeKindIDToName m) in
      let parsed :=
        match mVatstore m !! "storeKindIDTable" with
        | Some rawTable =>
            if String.eqb rawTable "" then Some (fun _ => None)
            else JSON_parseTable rawTable
        | None => Some (fun _ => None)
        end in
      match parsed with
      | None => (m, Throw SyntaxError)
      | Some storeKindIDs =>
          let '(m, storeKindIDs) :=
            fold_left (fun acc kind => registerKind kind acc)
              storeKindNames (m, storeKindIDs) in
          let m := Manager
                     (<["storeKindIDTable" :=
                          JSON_stringifyTable storeKindIDs]> (mVatstore m))
                     (mVrm m) (nextCollectionID m) (nextExportID m)
                     (storeKindInfoNeedsInitialization m) (storeKindID m)
                     (storeKindIDToName m) in
          (m, Ok (storeKindID m kind))
      end
    else (m, Ok (storeKindID m kind)).

(** [summonCollection(label, collectionID, kindName, keySchema)].  Both
    [label] and [collectionID] are only ever spliced into strings. *)
Definition summonCollection (label collectionID : string)
    (kind : kindName) (keySchema : pattern) : W handle :=
  fun m =>
    let c := Collection label collectionID (kindHasWeakKeys kind) keySchema in
    (Manager (mVatstore m)
       (registerDroppedCollection (prefix c "|") (mVrm m))
       (nextCollectionID m) (nextExportID m)
       (storeKindInfoNeedsInitialization m) (storeKindID m)
       (storeKindIDToName m),
     Ok (Handle c 0 0)).

Definition prefixc (collectionID dbEntryKey : string) : string :=
  "vc." +:+ collectionID +:+ "." +:+ dbEntryKey.

Definition mSet (k v : string) (m : manager V) : manager V :=
  Manager (<[k := v]> (mVatstore m)) (mVrm m) (nextCollectionID m)
    (nextExportID m) (storeKindInfoNeedsInitialization m) (storeKindID m)
    (storeKindIDToName m).

Definition makeCollection (label : string) (kind : kindName)
    (keySchema : option pattern) : W (string * handle) :=
  fun m =>
    let keySchema := default M_scalar keySchema in
    if negb (isKeyPattern keySchema) then (m, Throw KeyPatternRejected)
    else
      let '(m, collectionID) := allocateCollectionID m in
      match obtainStoreKindID kind m with
      | (m, Throw e) => (m, Throw e)
      | (m, Ok kindID) =>
          let vobjID :=
            "o+" +:+ JsString.ofZ kindID +:+ "/" +:+ JsString.ofZ collectionID in
          let cid := JsString.ofZ collectionID in
          let m := mSet (prefixc cid "|nextOrdinal") "1" m in
          let m := mSet (prefixc cid "|keySchema")
                     (JSON_stringify (serializePattern keySchema)) m in
          let m := mSet (prefixc cid "|label") label m in
          match summonCollection label cid kind keySchema m with
          | (m, Ok h) => (m, Ok (vobjID, h))
          | (m, Throw e) => (m, Throw e)
          end
      end.

(** [storeKindIDToName.get(id)]: the latest [set] for the key wins. *)
Fixpoint kindNameOf (id : Z) (table : list (Z * kindName)) : option kindName :=
  match table with
  | [] => None
  | (id', kind) :: rest => if id =? id' then Some kind else kindNameOf id rest
  end.

(** [reanimateCollection(vobjID, proForma)]; [None] is its [null]. *)
Definition reanimateCollection (vobjID : string) (proForma : bool)
  : W (option handle) :=
  fun m =>
    if proForma then (m, Ok None)
    else
      match VatSlot.parseVatSlot vobjID with
      | None => (m, Throw TypeError)
      | Some (id, subid) =>
          let kind := kindNameOf id (storeKindIDToName m) in
          let subid := JsString.ofZ subid in
          match mVatstore m !! prefixc subid "|keySchema" with
          | None => (m, Throw SyntaxError)
          | Some raw =>
              match JSON_parse raw with
              | None => (m, Throw SyntaxError)
              | Some parsed =>
                  let keySchema := unserializePattern parsed in
                  let label := mVatstore m !! prefixc subid "|label" in
                  match kind with
                  | None => (m, Throw TypeError)
                  | Some kind =>
                      match summonCollection subid (template label) kind
                              keySchema m with
                      | (m, Ok h) => (m, Ok (Some h))
                      | (m, Throw e) => (m, Throw e)
                      end
                  end
              end
          end
      end.

End Manager.

Arguments handle : clear implicits.

(** ** Notions for the properties of the codec *)

(** The sixteen digits in the key of a number, as a number: the bits
    after the exclusive or. *)
Definition keyBits (n : Z) : Z :=
  if Float64.ltZero n then Z.lxor n 0xffffffffffffffff
  else Z.lxor n 0x8000000000000000.

(** Every double but [-0] and the NaNs with the sign bit set is less than
    zero exactly when its sign bit is set. *)
Definition ordinary (n : Z) : Prop := Float64.ltZero n = Float64.signBit n.

(** The number a string of hexadecimal digits denotes (0 when it is not
    one). *)
Definition hexValue (s : string) : Z :=
  default 0 (JsString.digits 16 JsString.hexDigit 0 s).

(** [k] zeros in front of the digits. *)
Fixpoint leadingZeros (k : nat) (d : Hexadecimal.uint) : Hexadecimal.uint :=
  match k with
  | O => d
  | S k' => Hexadecimal.D0 (leadingZeros k' d)
  end.

(** The number a string of decimal digits denotes (0 when it is not
    one). *)
Definition decValue (s : string) : Z :=
  default 0 (JsString.digits 10 JsString.decDigit 0 s).

(** [k] zeros in front of the decimal digits. *)
Fixpoint leadingZerosDec (k : nat) (d : Decimal.uint) : Decimal.uint :=
  match k with
  | O => d
  | S k' => Decimal.D0 (leadingZerosDec k' d)
  end.

(** A bigint whose key [zeroPad] can build: fewer than 10^10 digits, and
    for a negative one a digit field that is at most eighteen zeros
    short. *)
Definition representable (n : Z) : Prop :=
  let L := JsString.len (JsString.ofZ (Z.abs n)) in
  L < 10 ^ 10 /\
  (n < 0 -> L <= JsString.len (JsString.ofZ (10 ^ L + n)) + 18).

(** The keys that come back from their encoding: all but the numbers
    less than zero, the bigints [zeroPad] cannot pad, and the pass styles
    without an encoding. *)
Definition restorable (k : key) : Prop :=
  match k with
  | KNumber n => Float64.wf n /\ Float64.ltZero n = false
  | KBigint n => representable n
  | KOther _ => False
  | _ => True
  end.

(** ** The size invariant *)

Section SizeInvariant.

Context {V pattern : Type}.

(** A row of the collection that is not a metadata row: its key starts
    with the collection's prefix and goes on with something other
    than ["|"]. *)
Definition isEntryRow (c : collection pattern) (dbKey : string) : bool :=
  String.prefix (dbKeyPrefix c) dbKey
  && negb (String.prefix "|"
             (JsString.substring (JsString.len (dbKeyPrefix c)) dbKey)).

Definition entryRows (c : collection pattern) (m : gmap string string)
  : gmap string string :=
  filter (fun kv => isEntryRow c kv.1 = true) m.

Definition entryCount (c : collection pattern) (st : state V) : Z :=
  Z.of_nat (base.size (entryRows c (vatstore st))).

Definition sizeInvariant (c : collection pattern) (st : state V) : Prop :=
  size st = entryCount c st.

(** The ordinal rows agree with the entry rows of remotables: an entry
    row [r<tag>:<slot>] has an ordinal row [|<slot>] whose padded text is
    the tag, and no remotable is stored under the slot name
    [nextOrdinal]. *)
Definition rowsHaveOrdinals (c : collection pattern)
    (m : gmap string string) : Prop :=
  forall tag slot,
    String.length tag = 10%nat ->
    is_Some (m !! prefix c ("r" +:+ tag +:+ ":" +:+ slot)) ->
    slot <> "nextOrdinal" /\
    exists o, m !! prefix c ("|" +:+ slot) = Some o /\
              tag = zeroPad o BIGINT_TAG_LEN.

(** A store with [n] entry rows of the collection, its [|nextOrdinal]
    row, and ordinal rows that agree with the entry rows. *)
Definition storeOk (c : collection pattern) (m : gmap string string)
    (n : Z) : Prop :=
  n = Z.of_nat (base.size (entryRows c m)) /\
  is_Some (m !! prefix c ("|" +:+ "nextOrdinal")) /\
  rowsHaveOrdinals c m.

(** The size invariant together with what it takes to keep it. *)
Definition wellFormed (c : collection pattern) (st : state V) : Prop :=
  storeOk c (vatstore st) (size st).

End SizeInvariant.

(** ** A concrete environment to run the code in *)

Module Demo.

(** Splits at every comma. *)
Fixpoint split (s : string) : list string :=
  match s with
  | EmptyString => [EmptyString]
  | String "," rest => EmptyString :: split rest
  | String ch rest =>
      match split rest with
      | x :: xs => String ch x :: xs
      | [] => [String ch EmptyString]
      end
  end.

Definition isScalar (k : key) : bool :=
  match k with KOther _ => false | _ => true end.

Definition isString (k : key) : bool :=
  match k with KString _ => true | _ => false end.

(** Patterns by name: ["any"], ["scalar"], ["string"]. *)
#[export] Instance patternKit : PatternKit capdata string := {|
  matches k p :=
    if String.eqb p "any" then true
    else if String.eqb p "scalar" then isScalar k
    else if String.eqb p "string" then isString k
    else false;
  matchesValue _ _ := true;
  M_any := "any";
  M_scalar := "scalar";
  compareRank p1 p2 := if String.eqb p1 p2 then 0 else 1;
  isKeyPattern _ := true;
  getRankCover _ _ := Ok ("", "{")
|}.

(** Values are their own marshalled form; the stored text is the body
    followed by the slots, separated by commas. *)
#[export] Instance marshal : Marshal capdata string := {|
  serialize v := v;
  unserialize c := c;
  serializePattern p := CapData p [];
  unserializePattern c := body c;
  JSON_stringify c := String.concat "," (body c :: slots c);
  JSON_parse s :=
    match split s with
    | b :: sl => Some (CapData b sl)
    | [] => None
    end
|}.

(** A reference manager that records the calls it receives, latest
    first. *)
#[export] Instance refManager : RefManager (list string) := {|
  addReachableVref s log := ("addReachableVref " +:+ s) :: log;
  removeReachableVref s log := ("removeReachableVref " +:+ s) :: log;
  updateReferenceCounts before after log :=
    map (fun s => "removeReachableVref " +:+ s) before
    ++ map (fun s => "addReachableVref " +:+ s) after ++ log;
  addRecognizableValue k log :=
    match k with
    | KRemotable s => ("addRecognizableValue " +:+ s) :: log
    | _ => log
    end;
  removeRecognizableValue k log :=
    match k with
    | KRemotable s => ("removeRecognizableValue " +:+ s) :: log
    | _ => log
    end;
  registerReanimator _ log := log;
  registerDroppedCollection _ log := log
|}.

#[export] Instance kindTableCodec : KindTableCodec := {|
  JSON_stringifyTable t :=
    String.concat ","
      (map (fun k => match t k with Some z => JsString.ofZ z | None => "" end)
         storeKindNames);
  JSON_parseTable s :=
    let parts := split s in
    Some (fun k =>
            let i := match k with
                     | scalarMapStore => 0
                     | scalarWeakMapStore => 1
                     | scalarSetStore => 2
                     | scalarWeakSetStore => 3
                     end%nat in
            match parts !! i with
            | Some p => VatSlot.number p
            | None => None
            end)
|}.

Definition emptyState : state (list string) := State ∅ [] 0 0.

Definition emptyManager : manager (list string) :=
  Manager ∅ [] 1 1 true (fun _ => 0) [].

Definition strongMap : collection string :=
  Collection "demo" "1" false "scalar".

Definition weakMap : collection string :=
  Collection "demo" "1" true "scalar".

Definition stringMap : collection string :=
  Collection "names" "2" false "string".

(** The state after [makeCollection] wrote the metadata rows of
    collection 1. *)
Definition freshState : state (list string) :=
  State (<["vc.1.|label" := "demo"]>
           (<["vc.1.|keySchema" := "scalar"]>
              (<["vc.1.|nextOrdinal" := "1"]> ∅))) [] 0 0.

Definition someValue : capdata := CapData "v" ["o-7"].

(** Collection 1 holding the string keys ["a"] and ["b"]. *)
Definition twoKeys : state (list string) :=
  (init strongMap (KString "b") someValue
     (init strongMap (KString "a") someValue freshState).1).1.

(** A weak collection after [init] of the remotable with slot ["o-5"]. *)
Definition oneRemotable : state (list string) :=
  (init weakMap (KRemotable "o-5") someValue freshState).1.

(** A collection whose next ordinal is the last one of ten digits. *)
Definition lastOrdinal : state (list string) :=
  State (<["vc.1.|nextOrdinal" := "9999999999"]> ∅) [] 0 0.

(** [makeCollection("demo", "scalarMapStore")] in a new vat: the external
    identifier, the handle and the manager afterwards. *)
Definition created
  : option (string * handle string * manager (list string)) :=
  match makeCollection "demo" scalarMapStore None emptyManager with
  | (m, Ok (vobjID, h)) => Some (vobjID, h, m)
  | (_, Throw _) => None
  end.

(** The handle the reanimator makes for that identifier. *)
Definition reanimated : option (handle string) :=
  match created with
  | Some (vobjID, _, m) =>
      match reanimateCollection vobjID false m with
      | (_, Ok h') => h'
      | (_, Throw _) => None
      end
  | None => None
  end.

End Demo.

(** ** Notions the properties are stated with *)

(** The rows of the store above a key: what an iteration has left. *)
Definition above (priorKey : string) (m : gmap string string)
  : gmap string string :=
  filter (fun kv => String.ltb priorKey kv.1 = true) m.

Section Observations.

Context {V value pattern : Type}.
Context `{PK : PatternKit value pattern}.
Context `{MA : Marshal value pattern}.

Variable c : collection pattern.

(** The state with its generation number moved on by one. *)
Definition bumped (st : state V) : state V :=
  State (vatstore st) (vrm st) (currentGenerationNumber st + 1) (size st).

(** The next step of the iterator, whichever of [keys], [values] and
    [entries] made it, fails on the generation guard. *)
Definition guardTrips (it : iterator pattern) (st : state V) : Prop :=
  (keysNext c it st).2 = Throw ConcurrentModification /\
  (valuesNext c it st).2 = Throw ConcurrentModification /\
  (entriesNext c it st).2 = Throw ConcurrentModification.

Definition guardHolds (it : iterator pattern) (st : state V) : Prop :=
  (keysNext c it st).2 <> Throw ConcurrentModification /\
  (valuesNext c it st).2 <> Throw ConcurrentModification /\
  (entriesNext c it st).2 <> Throw ConcurrentModification.

(** Where the iterator stands in the store. *)
Definition priorOf (it : iterator pattern) : string :=
  match it with
  | Suspended _ _ priorDBKey => priorDBKey
  | _ => ""
  end.

End Observations.

(** ** Notions for the laws of the engine *)

(** What an operation throws on a key the schema accepts but the
    collection does not hold: a remotable has no ordinal, any other key
    has no row. *)
Definition absentError (k : key) : error :=
  match k with
  | KRemotable _ => OrdinalMissing
  | _ => NotFound
  end.

Section References.

Context {V pattern : Type}.
Context `{RM : RefManager V}.

(** The reference [init] takes on the key, and the one [delete] gives
    back. *)
Definition retainKey (c : collection pattern) (k : key) (m : V) : V :=
  match k with
  | KRemotable slot =>
      if hasWeakKeys c then addRecognizableValue k m
      else addReachableVref slot m
  | _ => m
  end.

Definition releaseKey (c : collection pattern) (k : key) (m : V) : V :=
  match k with
  | KRemotable slot =>
      if hasWeakKeys c then removeRecognizableValue k m
      else removeReachableVref slot m
  | _ => m
  end.

(** [slots.map(vrm.addReachableVref)] and [slots.map(vrm.removeReachableVref)]. *)
Definition retainSlots (slots : list string) (m : V) : V :=
  fold_left (fun m s => addReachableVref s m) slots m.

Definition releaseSlots (slots : list string) (m : V) : V :=
  fold_left (fun m s => removeReachableVref s m) slots m.

End References.

(** Two stores that hold the same rows outside the prefix of a
    collection. *)
Definition agreeOutside {pattern : Type} (c : collection pattern)
    (m m' : gmap string string) : Prop :=
  forall K, String.prefix (dbKeyPrefix c) K = false -> m' !! K = m !! K.

Section Scanning.

Context {V value pattern : Type}.
Context `{PK : PatternKit value pattern}.
Context `{MA : Marshal value pattern}.

Variable c : collection pattern.

(** Whether the loop of the iterator yields a row: its key decodes and
    matches the key pattern, and its value, when the loop looks at it,
    parses and matches the value pattern. *)
Definition rowMatches (sc : scan pattern) (dbKey dbValue : string) : bool :=
  match dbKeyToKey c dbKey with
  | Ok k =>
      matches k (keyPatt sc)
      && (ignoreValues sc
          || match JSON_parse dbValue with
             | Some parsed => matchesValue (unserialize parsed) (valuePatt sc)
             | None => false
             end)
  | Throw _ => false
  end.

(** The scan of an iterator and the key it has reached; a generator
    that has not started computes its scan at the first [next()]. *)
Definition scanOf (it : iterator pattern) (st : state V)
  : option (scan pattern * string) :=
  match it with
  | NotStarted needValue keyPatt valuePatt =>
      match entriesInternal c needValue keyPatt valuePatt st with
      | Ok sc => Some (sc, "")
      | Throw _ => None
      end
  | Suspended sc _ priorDBKey => Some (sc, priorDBKey)
  | Completed => None
  end.

(** The rows an iteration step has passed: all of them when it ended,
    those below the key it stopped at otherwise. *)
Definition passed (it : iterator pattern) (dbKey : string) : bool :=
  match it with
  | Suspended _ _ priorDBKey => String.ltb dbKey priorDBKey
  | _ => true
  end.

End Scanning.

Section KeyRows.

Context {V value pattern : Type}.
Context `{PK : PatternKit value pattern}.
Context `{MA : Marshal value pattern}.

(** The rows an operation on a key may write or delete: the entry row
    of the key (for a remotable, under any ordinal tag) and, for a
    remotable, its ordinal row and the row of the next ordinal. *)
Definition rowOfKey (c : collection pattern) (st : state V) (k : key)
    (dbKey : string) : Prop :=
  match k with
  | KRemotable slot =>
      (exists tag, String.length tag = 10%nat /\
                   dbKey = prefix c ("r" +:+ tag +:+ ":" +:+ slot)) \/
      dbKey = prefix c ("|" +:+ slot) \/
      dbKey = prefix c "|nextOrdinal"
  | _ => exists e, (encodeKey c k st).2 = Ok e /\ dbKey = prefix c e
  end.

End KeyRows.

(** ** More states to run the code in *)

Module Samples.

Import Demo.

(** A weak collection after [init] of the remotables with the slots
    ["o-5"] and ["o-6"], in this order. *)
Definition twoRemotables : state (list string) :=
  (init weakMap (KRemotable "o-6") someValue oneRemotable).1.

(** Collection 1 holding the boolean key [true] and the string keys
    ["a"] and ["b"]. *)
Definition mixedKeys : state (list string) :=
  (init strongMap (KBoolean true) someValue twoKeys).1.

(** A vat that starts on a store with a table of kinds. *)
Definition restartedManager : manager (list string) :=
  Manager (<["storeKindIDTable" := "5,6,7,8"]> ∅) [] 1 9 true (fun _ => 0) [].

(** Collection 1 holding the boolean key [true] and the number key -1. *)
Definition trueAndMinusOne : state (list string) :=
  (init strongMap (KNumber Float64.negOne) someValue
     (init strongMap (KBoolean true) someValue freshState).1).1.

(** The table a text of the store parses to. *)
Definition tableOf (raw : string) : kindName -> option Z :=
  default (fun _ => None) (JSON_parseTable raw).

End Samples.

(** * Properties *)

Arguments numberToDBEntryKey : simpl never.
Arguments bigintToDBEntryKey : simpl never.
Arguments zeroPad : simpl never.
Arguments prefix : simpl never.
Arguments dbKeyPrefix : simpl never.
Arguments JsString.ofZ : simpl never.

(** Unfolds the operations of the engine down to the state. *)
Ltac unfold_engine :=
  unfold init, set, get, del, deleteInternal, has, entryDeleter,
    generateOrdinal, deleteOrdinal, keyToDBKey, encodeKey, getOrdinal,
    parseJSON, assert, bind, ret, throw, vatstoreGet, vatstoreSet,
    vatstoreDelete, onVrm, bumpGeneration, addSize in *.

Module StringOrder.

Lemma ltb_lt (a b : string) : String.ltb a b = true <-> String_as_OT.lt a b.
Proof.
  unfold String.ltb. rewrite <- String_as_OT.cmp_lt. unfold String_as_OT.cmp.
  destruct (String.compare a b); split; congruence.
Qed.

Lemma ltb_trans (a b d : string) :
  String.ltb a b = true -> String.ltb b d = true -> String.ltb a d = true.
Proof. rewrite !ltb_lt. apply String_as_OT.lt_trans. Qed.

Lemma ltb_irrefl (a : string) : String.ltb a a = false.
Proof.
  destruct (String.ltb a a) eqn:H; [|reflexivity].
  apply ltb_lt, String_as_OT.lt_not_eq in H. exfalso. apply H. reflexivity.
Qed.

End StringOrder.


Module ParseIntFacts.

Import Decimal.

Ltac eval_digit :=
  match goal with
  | |- context [JsString.decDigit ?ch] =>
      let v := eval vm_compute in (JsString.decDigit ch) in
      change (JsString.decDigit ch) with v; cbn iota
  end.

Lemma digits_acc (d : Decimal.uint) (p : positive) :
  JsString.digits 10 JsString.decDigit (Zpos p) (DecimalString.NilEmpty.string_of_uint d)
  = Some (Zpos (Pos.of_uint_acc d p)).
Proof.
  revert p. induction d; intros p; cbn [DecimalString.NilEmpty.string_of_uint JsString.digits];
    [reflexivity|..];
    eval_digit; cbn [Pos.of_uint_acc];
    match goal with
    | |- JsString.digits _ _ ?a _ = Some (Zpos (Pos.of_uint_acc _ ?q)) =>
        replace a with (Zpos q) by (cbn; lia)
    end; apply IHd.
Qed.

Lemma digits_zero (d : Decimal.uint) :
  JsString.digits 10 JsString.decDigit 0 (DecimalString.NilEmpty.string_of_uint d)
  = Some (Z.of_N (Pos.of_uint d)).
Proof.
  induction d; cbn [DecimalString.NilEmpty.string_of_uint JsString.digits Pos.of_uint];
    [reflexivity|..];
    eval_digit;
    match goal with
    | |- JsString.digits _ _ ?a _ = _ =>
        let v := eval vm_compute in a in change a with v
    end;
    try exact IHd; apply digits_acc.
Qed.

Lemma digitPrefix_all (d : Decimal.uint) :
  JsString.digitPrefix (DecimalString.NilEmpty.string_of_uint d) = DecimalString.NilEmpty.string_of_uint d.
Proof.
  induction d; cbn [DecimalString.NilEmpty.string_of_uint JsString.digitPrefix];
    [reflexivity|..];
    eval_digit; rewrite IHd; reflexivity.
Qed.

Ltac fold_digit :=
  match goal with
  | |- context [String ?ch (DecimalString.NilEmpty.string_of_uint ?d)] =>
      let u := match ch with
               | "0"%char => constr:(D0 d) | "1"%char => constr:(D1 d)
               | "2"%char => constr:(D2 d) | "3"%char => constr:(D3 d)
               | "4"%char => constr:(D4 d) | "5"%char => constr:(D5 d)
               | "6"%char => constr:(D6 d) | "7"%char => constr:(D7 d)
               | "8"%char => constr:(D8 d) | "9"%char => constr:(D9 d)
               end in
      change (String ch (DecimalString.NilEmpty.string_of_uint d))
        with (DecimalString.NilEmpty.string_of_uint u)
  end.

Lemma parseInt_uint (d : Decimal.uint) :
  parseInt (Some (DecimalString.NilZero.string_of_uint d)) = Some (Z.of_N (Pos.of_uint d)).
Proof.
  destruct d; [reflexivity|..];
    unfold parseInt, template, DecimalString.NilZero.string_of_uint;
    cbn [DecimalString.NilEmpty.string_of_uint]; cbv beta iota; fold_digit;
    rewrite digitPrefix_all; cbn [DecimalString.NilEmpty.string_of_uint]; cbv beta iota;
    fold_digit; unfold JsString.bigIntOfDec; rewrite digits_zero; reflexivity.
Qed.

Lemma parseInt_ofZ (n : Z) :
  0 <= n -> parseInt (Some (JsString.ofZ n)) = Some n.
Proof.
  intros Hn. unfold JsString.ofZ, DecimalString.NilZero.string_of_int.
  destruct n as [|p|p]; [reflexivity| |lia].
  cbn [Z.to_int]. rewrite parseInt_uint, DecimalPos.Unsigned.of_to. reflexivity.
Qed.

End ParseIntFacts.

Module VatStoreFacts.

Import VatStore.

Lemma pick_fold (priorKey lo hi : string) (l : list (string * string))
    (kv : string * string) :
  foldr (pick priorKey lo hi) None l = Some kv ->
  kv ∈ l /\ inRange priorKey lo hi kv.1 = true.
Proof.
  induction l as [|x l IH]; simpl; [congruence|].
  unfold pick at 1.
  destruct (inRange priorKey lo hi x.1) eqn:Hx.
  - destruct (foldr (pick priorKey lo hi) None l) as [kv'|] eqn:Hf.
    + destruct (String.ltb x.1 kv'.1).
      * intros E; inversion E; subst. split; [left|assumption].
      * intros E; inversion E; subst. destruct (IH eq_refl). split; [right|]; auto.
    + intros E; inversion E; subst. split; [left|assumption].
  - intros E. destruct (IH E). split; [right|]; auto.
Qed.

Lemma getAfter_Some (priorKey lo hi : string) (m : gmap string string)
    (k v : string) :
  getAfter priorKey lo hi m = Some (k, v) ->
  m !! k = Some v /\ inRange priorKey lo hi k = true.
Proof.
  unfold getAfter. intros H. apply pick_fold in H. destruct H as [H1 H2].
  split; [|exact H2]. apply elem_of_map_to_list in H1. exact H1.
Qed.

Lemma above_size (priorKey : string) (m : gmap string string) :
  (base.size (above priorKey m) <= base.size m)%nat.
Proof. apply map_subseteq_size, map_filter_subseteq. Qed.

Lemma above_mono (priorKey : string) (m1 m2 : gmap string string) :
  m1 ⊆ m2 -> (base.size (above priorKey m1) <= base.size (above priorKey m2))%nat.
Proof. intros H. apply map_subseteq_size, map_filter_subseteq_mono, H. Qed.

Lemma above_decreases (priorKey k v : string) (m : gmap string string) :
  String.ltb priorKey k = true -> m !! k = Some v ->
  (base.size (above k m) < base.size (above priorKey m))%nat.
Proof.
  intros Hlt Hk. apply map_subset_size. split.
  - apply map_subseteq_spec. intros i x. unfold above.
    rewrite !map_lookup_filter_Some. simpl. intros [Hi Hki]. split; [exact Hi|].
    eapply StringOrder.ltb_trans; eauto.
  - intros Hsub. rewrite map_subseteq_spec in Hsub.
    specialize (Hsub k v). unfold above in Hsub.
    rewrite !map_lookup_filter_Some in Hsub. simpl in Hsub.
    destruct (Hsub (conj Hk Hlt)) as [_ Hkk].
    rewrite StringOrder.ltb_irrefl in Hkk. discriminate.
Qed.

End VatStoreFacts.

Section EngineFacts.

Context {V value pattern : Type}.
Context `{PK : PatternKit value pattern}.
Context `{MA : Marshal value pattern}.
Context `{RM : RefManager V}.

Variable c : collection pattern.

Lemma encodeKey_reads (k : key) (st : state V) :
  (encodeKey c k st).1 = st.
Proof.
  destruct k; unfold_engine; simpl; try reflexivity.
  destruct (vatstore st !! _); reflexivity.
Qed.

Lemma keyToDBKey_reads (k : key) (st : state V) :
  (keyToDBKey c k st).1 = st.
Proof.
  unfold keyToDBKey, bind.
  pose proof (encodeKey_reads k st) as H.
  destruct (encodeKey c k st) as [st' [e|e]]; simpl in *; subst; reflexivity.
Qed.

Lemma has_reads (k : key) (st : state V) :
  (has c k st).1 = st.
Proof.
  unfold has. destruct (negb _); [reflexivity|].
  pose proof (keyToDBKey_reads k st) as H.
  destruct k; unfold bind in *;
    try (destruct (keyToDBKey c _ st) as [st' [e|e]]; simpl in *; subst;
         reflexivity).
Qed.

(** The ordinal row of a remotable is there once [generateOrdinal] ran. *)
Lemma generateOrdinal_ordinal (slot : string) (st : state V) :
  exists o,
    vatstore (generateOrdinal c slot st).1 !! prefix c ("|" +:+ slot) = Some o.
Proof.
  unfold_engine; simpl.
  rewrite lookup_insert. destruct (decide _); eauto.
  rewrite lookup_insert_eq. eauto.
Qed.

Lemma generateOrdinal_ok (slot : string) (st : state V) :
  (generateOrdinal c slot st).2 = Ok tt.
Proof. reflexivity. Qed.

End EngineFacts.

Section EngineProperties.

Context {V value pattern : Type}.
Context `{PK : PatternKit value pattern}.
Context `{MA : Marshal value pattern}.
Context `{RM : RefManager V}.

Variable c : collection pattern.

(** C7: on a key that fails the collection's key schema, [has] returns
    [false] without an error, while [get], [init], [set] and [delete]
    each fail with a schema violation ([delete] after it has advanced the
    generation number). *)
Theorem schema_violation_policy (k : key) (v : value) (st : state V) :
  matches k (keySchema c) = false ->
  has c k st = (st, Ok false) /\
  get c k st = (st, Throw SchemaViolation) /\
  init c k v st = (st, Throw SchemaViolation) /\
  set c k v st = (st, Throw SchemaViolation) /\
  del c k st = (bumped st, Throw SchemaViolation).
Proof.
  intros H. unfold_engine. rewrite H. simpl. repeat split.
Qed.

Lemma init_failure_state (k : key) (v : value) (st st' : state V) (e : error) :
  init c k v st = (st', Throw e) -> st' = st.
Proof.
  unfold init, bind at 1, assert.
  destruct (matches k (keySchema c)) eqn:Hm; simpl; [|unfold throw; congruence].
  unfold bind at 1.
  pose proof (has_reads c k st) as Hr.
  destruct (has c k st) as [st1 [present|e1]] eqn:Hhas; simpl in Hr; subst st1;
    [|congruence].
  destruct present; simpl; [unfold bind, throw; simpl; congruence|].
  destruct k;
    try (unfold_engine; simpl; congruence).
  - (* remotable *)
    intros H. exfalso. revert H.
    unfold bind at 1. unfold ret at 1. unfold bind at 1. unfold bumpGeneration at 1.
    unfold bind at 1. unfold bind at 1.
    set (st1 := State _ _ _ _).
    destruct (generateOrdinal_ordinal c slot st1) as [o Ho].
    pose proof (generateOrdinal_ok c slot st1) as Hok.
    destruct (generateOrdinal c slot st1) as [st2 r]. simpl in *. subst r.
    unfold_engine. destruct (hasWeakKeys c); simpl. all: rewrite Ho; simpl; intros HH; inversion HH.
  - (* other pass style *)
    exfalso. revert Hhas. unfold_engine. rewrite Hm. simpl. congruence.
Qed.


(** C9: [init] is atomic on failure.  When the key violates the schema
    or is already present, [init] fails and the state it leaves (vat
    store, reference manager, generation number and size) is the state it
    started from. *)
Theorem init_atomic_on_failure (k : key) (v : value) (st : state V) :
  matches k (keySchema c) = false \/ (has c k st).2 = Ok true ->
  exists e, (e = SchemaViolation \/ e = AlreadyPresent) /\
            init c k v st = (st, Throw e).
Proof.
  intros [Hm | Hp].
  - exists SchemaViolation. split; [auto|].
    unfold init, bind, assert. rewrite Hm. reflexivity.
  - destruct (matches k (keySchema c)) eqn:Hm.
    + exists AlreadyPresent. split; [auto|].
      unfold init, bind at 1, assert. rewrite Hm. simpl.
      unfold bind at 1.
      pose proof (has_reads c k st) as Hr.
      destruct (has c k st) as [st1 r]. simpl in *. subst. reflexivity.
    + exists SchemaViolation. split; [auto|].
      unfold init, bind, assert. rewrite Hm. reflexivity.
Qed.





Lemma project_throw {A} (f : key * option value -> A)
    (r : iterator pattern * outcome (option (key * option value)))
    (e : error) :
  (project f r).2 = Throw e <-> r.2 = Throw e.
Proof.
  destruct r as [it [[entry|]|e']]; simpl; split; congruence.
Qed.

Lemma guardTrips_next (it : iterator pattern) (st : state V) :
  (next c it st).2 = Throw ConcurrentModification -> guardTrips c it st.
Proof.
  intros H. unfold guardTrips, keysNext, valuesNext, entriesNext.
  rewrite !project_throw. auto.
Qed.

Lemma guardHolds_next (it : iterator pattern) (st : state V) :
  (next c it st).2 <> Throw ConcurrentModification -> guardHolds c it st.
Proof.
  intros H. unfold guardHolds, keysNext, valuesNext, entriesNext.
  rewrite !project_throw. auto.
Qed.

Lemma dbKeyToKey_error (dbKey : string) (e : error) :
  dbKeyToKey c dbKey = Throw e -> e = SyntaxError \/ e = DecodeCorruption.
Proof.
  unfold dbKeyToKey.
  repeat match goal with
         | |- context [match ?x with _ => _ end] => destruct x
         end; intros H; inversion H; auto.
Qed.

Lemma iterLoop_stale (fuel : nat) (sc : scan pattern) (g : Z) (prior : string)
    (st : state V) :
  g <> currentGenerationNumber st ->
  iterLoop c (S fuel) sc g prior st = (Completed, Throw ConcurrentModification).
Proof.
  intros H. simpl. destruct (Z.eqb_spec g (currentGenerationNumber st)); 
    [contradiction|reflexivity].
Qed.

Lemma iterLoop_in_step (fuel : nat) (sc : scan pattern) (prior : string)
    (st : state V) :
  (iterLoop c fuel sc (currentGenerationNumber st) prior st).2
  <> Throw ConcurrentModification.
Proof.
  revert prior. induction fuel as [|fuel IH]; intros prior; simpl; [congruence|].
  rewrite Z.eqb_refl. simpl.
  destruct (VatStore.getAfter _ _ _ _) as [[dbKey dbValue]|]; simpl; [|congruence].
  destruct (String.ltb dbKey (scanEnd sc)); [|apply IH].
  destruct (dbKeyToKey c dbKey) as [k|e] eqn:Hk; simpl.
  - destruct (matches k (keyPatt sc)); [|apply IH].
    destruct (ignoreValues sc); simpl; [congruence|].
    destruct (JSON_parse dbValue); simpl; [|congruence].
    destruct (negb _); simpl; [apply IH|congruence].
  - apply dbKeyToKey_error in Hk. destruct Hk; subst; congruence.
Qed.

Lemma iterLoop_yield (fuel : nat) (sc : scan pattern) (g : Z) (prior : string)
    (st : state V) (it : iterator pattern) entry :
  iterLoop c fuel sc g prior st = (it, Ok (Some entry)) ->
  g = currentGenerationNumber st /\ exists prior', it = Suspended sc g prior'.
Proof.
  revert prior. induction fuel as [|fuel IH]; intros prior; simpl; [congruence|].
  destruct (Z.eqb_spec g (currentGenerationNumber st)) as [Hg|Hg]; simpl;
    [|congruence].
  destruct (VatStore.getAfter _ _ _ _) as [[dbKey dbValue]|]; simpl; [|congruence].
  destruct (String.ltb dbKey (scanEnd sc)); [|apply IH].
  destruct (dbKeyToKey c dbKey) as [k|e] eqn:Hk; simpl; [|congruence].
  destruct (matches k (keyPatt sc)); [|apply IH].
  destruct (ignoreValues sc); simpl.
  - intros H; inversion H; subst. eauto.
  - destruct (JSON_parse dbValue); simpl; [|congruence].
    destruct (negb _); simpl; [apply IH|].
    intros H; inversion H; subst. eauto.
Qed.

(** An iterator that has just yielded is suspended, and the generation
    it started with is the current one. *)
Lemma next_yield (it0 it : iterator pattern) (st : state V) entry :
  next c it0 st = (it, Ok (Some entry)) ->
  exists sc prior, it = Suspended sc (currentGenerationNumber st) prior.
Proof.
  destruct it0 as [nv kp vp|sc g prior|]; unfold next.
  - destruct (entriesInternal c nv kp vp st) as [sc|e]; [|congruence].
    intros H. apply iterLoop_yield in H. destruct H as [_ [p ->]]. eauto.
  - intros H. apply iterLoop_yield in H. destruct H as [-> [p ->]]. eauto.
  - congruence.
Qed.

Lemma next_stale (sc : scan pattern) (g : Z) (prior : string) (st : state V) :
  g <> currentGenerationNumber st ->
  (next c (Suspended sc g prior) st).2 = Throw ConcurrentModification.
Proof. intros H. unfold next, iterFuel. rewrite iterLoop_stale; auto. Qed.

Lemma next_in_step (sc : scan pattern) (prior : string) (st : state V) :
  (next c (Suspended sc (currentGenerationNumber st) prior) st).2
  <> Throw ConcurrentModification.
Proof. unfold next. apply iterLoop_in_step. Qed.

Lemma set_generation (k : key) (v : value) (st : state V) :
  currentGenerationNumber (set c k v st).1 = currentGenerationNumber st.
Proof.
  unfold set, bind at 1, assert.
  destruct (matches k (keySchema c)); simpl; [|reflexivity].
  unfold bind at 1.
  pose proof (keyToDBKey_reads c k st) as Hr.
  destruct (keyToDBKey c k st) as [st1 [dbKey|e1]]; simpl in Hr; subst st1;
    [|reflexivity].
  unfold_engine. simpl.
  destruct (truthy (vatstore st !! dbKey)); simpl; [|reflexivity].
  destruct (vatstore st !! dbKey) as [raw|]; simpl; [|reflexivity].
  destruct (JSON_parse raw); reflexivity.
Qed.

Lemma deleteInternal_generation (k : key) (st : state V) :
  currentGenerationNumber (deleteInternal c k st).1 = currentGenerationNumber st.
Proof.
  unfold deleteInternal, bind at 1, assert.
  destruct (matches k (keySchema c)); simpl; [|reflexivity].
  unfold bind at 1.
  pose proof (keyToDBKey_reads c k st) as Hr.
  destruct (keyToDBKey c k st) as [st1 [dbKey|e1]]; simpl in Hr; subst st1;
    [|reflexivity].
  unfold_engine. simpl.
  destruct (truthy (vatstore st !! dbKey)); simpl; [|reflexivity].
  destruct (vatstore st !! dbKey) as [raw|]; simpl; [|reflexivity].
  destruct (JSON_parse raw); simpl; [|reflexivity].
  destruct k; simpl; try reflexivity.
  destruct (hasWeakKeys c); reflexivity.
Qed.

Lemma del_generation (k : key) (st : state V) :
  currentGenerationNumber (del c k st).1 = currentGenerationNumber st + 1.
Proof.
  unfold del, bind, bumpGeneration. fold (bumped st).
  pose proof (deleteInternal_generation k (bumped st)) as H.
  destruct (deleteInternal c k (bumped st)) as [st1 [u|e1]]; simpl in *; lia.
Qed.

Lemma init_generation (k : key) (v : value) (st st' : state V) :
  init c k v st = (st', Ok tt) ->
  currentGenerationNumber st' = currentGenerationNumber st + 1.
Proof.
  unfold init, bind at 1, assert.
  destruct (matches k (keySchema c)); simpl; [|unfold throw; congruence].
  unfold bind at 1.
  pose proof (has_reads c k st) as Hr.
  destruct (has c k st) as [st1 [present|e1]]; simpl in Hr; subst st1;
    [|congruence].
  destruct present; simpl; [unfold bind, throw; simpl; congruence|].
  destruct k;
    try (unfold_engine; simpl; intros H; inversion H; reflexivity).
  unfold_engine; simpl.
  destruct (hasWeakKeys c); simpl;
    match goal with
    | |- context [match ?x !! ?y with _ => _ end] => destruct (x !! y); simpl
    end; intros H; inversion H; reflexivity.
Qed.

Lemma clearLoop_generation (fuel : nat) (it : iterator pattern) (st : state V) :
  currentGenerationNumber (clearLoop c fuel it st).1 = currentGenerationNumber st.
Proof.
  revert it st. induction fuel as [|fuel IH]; intros it st; simpl; [reflexivity|].
  destruct (keysNext c it st) as [it' [[k|]|e]]; simpl; try reflexivity.
  pose proof (deleteInternal_generation k st) as H.
  destruct (deleteInternal c k st) as [st1 [u|e1]]; simpl in *; [|assumption].
  rewrite IH. assumption.
Qed.

Lemma clear_generation (kp vp : option pattern) (st st' : state V) :
  clear c kp vp st = (st', Ok tt) ->
  currentGenerationNumber st' = currentGenerationNumber st + 1.
Proof.
  unfold clear.
  pose proof (clearLoop_generation (iterFuel st) (keys kp vp) st) as H.
  destruct (clearLoop c (iterFuel st) (keys kp vp) st) as [st1 [u|e1]];
    simpl in *; [|congruence].
  unfold bumpGeneration. intros E; inversion E; subst; simpl. lia.
Qed.

(** The generation guard where it holds.  For an iterator of [keys],
    [values] or [entries] that has just yielded, an [init] or a [clear]
    that returned, or a [delete] (returning or not), makes the next step
    of the iterator fail with a concurrent modification; a [set] leaves
    the generation number as it was and the next step does not fail that
    way.  A [clear] that throws part-way is not covered: it has not
    reached its increment of the generation number. *)
Theorem generation_guard (it0 it : iterator pattern)
    (entry : key * option value) (st : state V) (k : key) (v : value) :
  next c it0 st = (it, Ok (Some entry)) ->
  (forall st', init c k v st = (st', Ok tt) -> guardTrips c it st') /\
  (forall st' o, del c k st = (st', o) -> guardTrips c it st') /\
  (forall kp vp st', clear c kp vp st = (st', Ok tt) -> guardTrips c it st') /\
  (forall st' o, set c k v st = (st', o) ->
     currentGenerationNumber st' = currentGenerationNumber st /\
     guardHolds c it st').
Proof.
  intros Hy. apply next_yield in Hy. destruct Hy as [sc [prior ->]].
  split; [|split; [|split]].
  - intros st' H. apply guardTrips_next, next_stale.
    apply init_generation in H. lia.
  - intros st' o H. apply guardTrips_next, next_stale.
    pose proof (del_generation k st) as G. rewrite H in G. simpl in G. lia.
  - intros kp vp st' H. apply guardTrips_next, next_stale.
    apply clear_generation in H. lia.
  - intros st' o H.
    pose proof (set_generation k v st) as G. rewrite H in G. simpl in G.
    split; [exact G|].
    apply guardHolds_next. rewrite <- G. apply next_in_step.
Qed.

(** What a pass of [iterLoop] ends in when it does not run out of fuel:
    the iterator it leaves is completed, or suspended at a row of the
    store above the prior key. *)
Lemma iterLoop_terminates (fuel : nat) (sc : scan pattern) (g : Z)
    (prior : string) (st : state V) :
  (base.size (above prior (vatstore st)) < fuel)%nat ->
  (iterLoop c fuel sc g prior st).2 <> Throw FuelExhausted.
Proof.
  revert prior. induction fuel as [|fuel IH]; intros prior Hm; [lia|].
  simpl. destruct (negb _); simpl; [congruence|].
  destruct (VatStore.getAfter _ _ _ _) as [[dbKey dbValue]|] eqn:Hg; simpl;
    [|congruence].
  apply VatStoreFacts.getAfter_Some in Hg. destruct Hg as [Hk Hr].
  unfold VatStore.inRange in Hr. apply andb_prop in Hr. destruct Hr as [Hr Hend].
  apply andb_prop in Hr. destruct Hr as [Hprior _].
  rewrite Hend.
  assert (Hdec : (base.size (above dbKey (vatstore st)) < fuel)%nat).
  { pose proof (VatStoreFacts.above_decreases prior dbKey dbValue (vatstore st)
                  Hprior Hk). lia. }
  destruct (dbKeyToKey c dbKey) as [k|e] eqn:Hd; simpl.
  - destruct (matches k (keyPatt sc)); [|apply IH, Hdec].
    destruct (ignoreValues sc); simpl; [congruence|].
    destruct (JSON_parse dbValue); simpl; [|congruence].
    destruct (negb _); simpl; [apply IH, Hdec|congruence].
  - apply dbKeyToKey_error in Hd. destruct Hd; subst; congruence.
Qed.

Lemma iterLoop_suspended (fuel : nat) (sc sc' : scan pattern) (g g' : Z)
    (prior prior' : string) (st : state V) o :
  iterLoop c fuel sc g prior st = (Suspended sc' g' prior', o) ->
  String.ltb prior prior' = true /\ is_Some (vatstore st !! prior').
Proof.
  revert prior. induction fuel as [|fuel IH]; intros prior; simpl; [congruence|].
  destruct (negb _); simpl; [congruence|].
  destruct (VatStore.getAfter _ _ _ _) as [[dbKey dbValue]|] eqn:Hg; simpl;
    [|congruence].
  apply VatStoreFacts.getAfter_Some in Hg. destruct Hg as [Hk Hr].
  unfold VatStore.inRange in Hr. apply andb_prop in Hr. destruct Hr as [Hr Hend].
  apply andb_prop in Hr. destruct Hr as [Hprior _].
  rewrite Hend.
  assert (Hrec : iterLoop c fuel sc g dbKey st = (Suspended sc' g' prior', o) ->
                 String.ltb prior prior' = true /\ is_Some (vatstore st !! prior')).
  { intros H. apply IH in H. destruct H as [H1 H2]. split; [|exact H2].
    eapply StringOrder.ltb_trans; eauto. }
  destruct (dbKeyToKey c dbKey) as [k|e] eqn:Hd; simpl; [|congruence].
  destruct (matches k (keyPatt sc)); [|exact Hrec].
  destruct (ignoreValues sc); simpl.
  - intros E; inversion E; subst. eauto.
  - destruct (JSON_parse dbValue); simpl; [|congruence].
    destruct (negb _); simpl; [exact Hrec|].
    intros E; inversion E; subst. eauto.
Qed.

(** Every step of a started iterator returns. *)
Lemma next_terminates (sc : scan pattern) (g : Z) (prior : string)
    (st : state V) :
  (next c (Suspended sc g prior) st).2 <> Throw FuelExhausted.
Proof.
  unfold next, iterFuel. apply iterLoop_terminates.
  pose proof (VatStoreFacts.above_size prior (vatstore st)). lia.
Qed.


(** *** [clear] returns *)

Lemma deleteInternal_store (k : key) (st : state V) :
  vatstore (deleteInternal c k st).1 ⊆ vatstore st.
Proof.
  unfold deleteInternal, bind at 1, assert.
  destruct (matches k (keySchema c)); simpl; [|reflexivity].
  unfold bind at 1.
  pose proof (keyToDBKey_reads c k st) as Hr.
  destruct (keyToDBKey c k st) as [st1 [dbKey|e1]]; simpl in Hr; subst st1;
    [|reflexivity].
  unfold_engine. simpl.
  destruct (truthy (vatstore st !! dbKey)); simpl; [|reflexivity].
  destruct (vatstore st !! dbKey) as [raw|]; simpl; [|reflexivity].
  destruct (JSON_parse raw); simpl; [|reflexivity].
  destruct k; simpl; try apply delete_subseteq.
  destruct (hasWeakKeys c); simpl;
    (etrans; [apply delete_subseteq|apply delete_subseteq]).
Qed.

Lemma deleteInternal_error (k : key) (st : state V) :
  (deleteInternal c k st).2 <> Throw FuelExhausted.
Proof.
  unfold deleteInternal, bind at 1, assert.
  destruct (matches k (keySchema c)); simpl; [|unfold throw; simpl; congruence].
  destruct k; unfold_engine; simpl;
    repeat match goal with
           | |- context [if truthy ?x then _ else _] => destruct (truthy x); simpl
           | |- context [match ?x !! ?y with _ => _ end] =>
               destruct (x !! y); simpl
           | |- context [match JSON_parse ?x with _ => _ end] =>
               destruct (JSON_parse x); simpl
           | |- context [if hasWeakKeys c then _ else _] =>
               destruct (hasWeakKeys c); simpl
           end; congruence.
Qed.

Section ClearReturns.

(** The pattern kit reports errors of its own, not the model's. *)
Hypothesis getRankCover_error :
  forall keyPatt enc, getRankCover keyPatt enc <> Throw FuelExhausted.

Lemma entriesInternal_error (needValue : bool) (kp vp : option pattern)
    (st : state V) :
  entriesInternal c needValue kp vp st <> Throw FuelExhausted.
Proof.
  unfold entriesInternal, assertValuePattern.
  destruct (negb _); [congruence|].
  destruct (pattEq _ _); [|congruence].
  pose proof (getRankCover_error (default M_any kp)
                (fun k => (encodeKey c k st).2)) as H.
  destruct (getRankCover _ _) as [[a b]|e]; congruence.
Qed.

Lemma next_returns (it : iterator pattern) (st : state V) :
  (next c it st).2 <> Throw FuelExhausted.
Proof.
  destruct it as [nv kp vp|sc g prior|]; [| apply next_terminates
                                          | simpl; congruence].
  unfold next.
  pose proof (entriesInternal_error nv kp vp st) as H.
  destruct (entriesInternal c nv kp vp st) as [sc|e]; [|simpl; congruence].
  apply iterLoop_terminates. unfold iterFuel.
  pose proof (VatStoreFacts.above_size "" (vatstore st)). lia.
Qed.

(** A step that yields leaves the iterator at a row further on. *)
Lemma next_progress (it it' : iterator pattern) (st : state V) entry :
  next c it st = (it', Ok (Some entry)) ->
  (base.size (above (priorOf it') (vatstore st))
   < base.size (above (priorOf it) (vatstore st)))%nat.
Proof.
  intros H.
  assert (Hl : exists fuel sc g,
             iterLoop c fuel sc g (priorOf it) st = (it', Ok (Some entry))).
  { destruct it as [nv kp vp|sc g prior|]; unfold next in H; simpl.
    - destruct (entriesInternal c nv kp vp st) as [sc|e]; [eauto|congruence].
    - eauto.
    - congruence. }
  destruct Hl as [fuel [sc [g Hl]]].
  destruct (iterLoop_yield _ _ _ _ _ _ _ Hl) as [_ [prior' ->]].
  apply iterLoop_suspended in Hl. destruct Hl as [Hlt [v Hv]].
  simpl. eapply VatStoreFacts.above_decreases; eauto.
Qed.

Lemma clearLoop_returns (fuel : nat) (it : iterator pattern) (st : state V) :
  (base.size (above (priorOf it) (vatstore st)) < fuel)%nat ->
  (clearLoop c fuel it st).2 <> Throw FuelExhausted.
Proof.
  revert it st. induction fuel as [|fuel IH]; intros it st Hm; [lia|].
  simpl. unfold keysNext.
  pose proof (next_returns it st) as Hn.
  destruct (next c it st) as [it' [[entry|]|e]] eqn:Hnext; simpl in *;
    try congruence.
  apply next_progress in Hnext.
  pose proof (deleteInternal_store entry.1 st) as Hs.
  pose proof (deleteInternal_error entry.1 st) as He.
  destruct (deleteInternal c entry.1 st) as [st' [u|e]]; simpl in *;
    [|congruence].
  apply IH.
  pose proof (VatStoreFacts.above_mono (priorOf it') _ _ Hs). lia.
Qed.

(** [clear] returns: its loop ends within the bound the model gives it. *)
Lemma clear_returns (kp vp : option pattern) (st : state V) :
  (clear c kp vp st).2 <> Throw FuelExhausted.
Proof.
  unfold clear.
  pose proof (clearLoop_returns (iterFuel st) (keys kp vp) st) as H.
  destruct (clearLoop c (iterFuel st) (keys kp vp) st) as [st' [u|e]];
    simpl in *; [congruence|].
  apply H. unfold iterFuel.
  pose proof (VatStoreFacts.above_size "" (vatstore st)). lia.
Qed.

End ClearReturns.

End EngineProperties.

(** ** The keys of numbers *)

Module HexFacts.

Import Hexadecimal.

Ltac eval_hex_digit :=
  match goal with
  | |- context [JsString.hexDigit ?ch] =>
      let v := eval vm_compute in (JsString.hexDigit ch) in
      change (JsString.hexDigit ch) with v; cbn iota
  end.

(** Reading the digits with an accumulator. *)
Lemma hex_digits_acc (d : uint) (acc : Z) :
  0 <= acc ->
  exists v, 0 <= v < 16 ^ JsString.len (HexadecimalString.NilEmpty.string_of_uint d) /\
    forall acc', JsString.digits 16 JsString.hexDigit acc' (HexadecimalString.NilEmpty.string_of_uint d)
                 = Some (acc' * 16 ^ JsString.len (HexadecimalString.NilEmpty.string_of_uint d) + v).
Proof.
  intros _. induction d; cbn [HexadecimalString.NilEmpty.string_of_uint JsString.digits].
  1: { exists 0. change (JsString.len (HexadecimalString.NilEmpty.string_of_uint Nil)) with 0. rewrite Z.pow_0_r.
       split; [lia|]. intros acc'. f_equal. lia. }
  all: destruct IHd as [v [Hv Hd]];
    eval_hex_digit;
    match goal with
    | |- context [JsString.digits _ _ (16 * _ + ?k) _] =>
        exists (k * 16 ^ JsString.len (HexadecimalString.NilEmpty.string_of_uint d) + v)
    end;
    (split;
     [ unfold JsString.len in *; cbn [String.length];
       rewrite Nat2Z.inj_succ, Z.pow_succ_r by lia; lia
     | intros acc'; rewrite Hd; f_equal;
       unfold JsString.len; cbn [String.length];
       rewrite Nat2Z.inj_succ, Z.pow_succ_r by lia; lia ]).
Qed.


Lemma hex_digits_value (d : uint) (acc : Z) :
  JsString.digits 16 JsString.hexDigit acc (HexadecimalString.NilEmpty.string_of_uint d)
  = Some (acc * 16 ^ JsString.len (HexadecimalString.NilEmpty.string_of_uint d) + hexValue (HexadecimalString.NilEmpty.string_of_uint d)).
Proof.
  destruct (hex_digits_acc d 0 ltac:(lia)) as [v [_ Hd]].
  unfold hexValue. rewrite (Hd 0), Hd. simpl. reflexivity.
Qed.

Lemma hexValue_bound (d : uint) :
  0 <= hexValue (HexadecimalString.NilEmpty.string_of_uint d) < 16 ^ JsString.len (HexadecimalString.NilEmpty.string_of_uint d).
Proof.
  destruct (hex_digits_acc d 0 ltac:(lia)) as [v [Hv Hd]].
  unfold hexValue. rewrite (Hd 0). simpl. lia.
Qed.

Lemma hexValue_cons (ch : ascii) (k : Z) (d : uint) :
  JsString.hexDigit ch = Some k ->
  hexValue (String ch (HexadecimalString.NilEmpty.string_of_uint d)) = k * 16 ^ JsString.len (HexadecimalString.NilEmpty.string_of_uint d) + hexValue (HexadecimalString.NilEmpty.string_of_uint d).
Proof.
  intros Hk. unfold hexValue at 1. cbn [JsString.digits]. rewrite Hk.
  rewrite hex_digits_value. reflexivity.
Qed.

Lemma hex_digits_pos (d : uint) (p : positive) :
  JsString.digits 16 JsString.hexDigit (Zpos p) (HexadecimalString.NilEmpty.string_of_uint d)
  = Some (Zpos (Pos.of_hex_uint_acc d p)).
Proof.
  revert p. induction d; intros p; cbn [HexadecimalString.NilEmpty.string_of_uint JsString.digits];
    [reflexivity|..];
    eval_hex_digit; cbn [Pos.of_hex_uint_acc];
    match goal with
    | |- JsString.digits _ _ ?a _ = Some (Zpos (Pos.of_hex_uint_acc _ ?q)) =>
        replace a with (Zpos q) by (cbn; lia)
    end; apply IHd.
Qed.

Lemma hexValue_of_uint (d : uint) :
  hexValue (HexadecimalString.NilEmpty.string_of_uint d) = Z.of_N (Pos.of_hex_uint d).
Proof.
  unfold hexValue.
  induction d; cbn [HexadecimalString.NilEmpty.string_of_uint JsString.digits Pos.of_hex_uint];
    [reflexivity|..];
    eval_hex_digit;
    match goal with
    | |- context [JsString.digits _ _ ?a _] =>
        let v := eval vm_compute in a in change a with v
    end;
    try exact IHd; rewrite hex_digits_pos; reflexivity.
Qed.

(** Strings of equal length compare as the numbers they denote. *)
Lemma compare_value (d1 d2 : uint) :
  String.length (HexadecimalString.NilEmpty.string_of_uint d1) = String.length (HexadecimalString.NilEmpty.string_of_uint d2) ->
  String.compare (HexadecimalString.NilEmpty.string_of_uint d1) (HexadecimalString.NilEmpty.string_of_uint d2)
  = Z.compare (hexValue (HexadecimalString.NilEmpty.string_of_uint d1)) (hexValue (HexadecimalString.NilEmpty.string_of_uint d2)).
Proof.
  revert d2. induction d1; intros d2; destruct d2; cbn [HexadecimalString.NilEmpty.string_of_uint String.length];
    try discriminate; intros Hl; [reflexivity|..];
    injection Hl as Hl;
    pose proof (hexValue_bound d1) as B1;
    pose proof (hexValue_bound d2) as B2;
    specialize (IHd1 d2 Hl);
    assert (HL : JsString.len (HexadecimalString.NilEmpty.string_of_uint d1) = JsString.len (HexadecimalString.NilEmpty.string_of_uint d2))
      by (unfold JsString.len; congruence);
    rewrite HL in B1;
    (erewrite !hexValue_cons by (vm_compute; reflexivity));
    rewrite HL;
    cbn [String.compare];
    match goal with
    | |- context [Ascii.compare ?a ?b] =>
        let v := eval vm_compute in (Ascii.compare a b) in
        change (Ascii.compare a b) with v; cbn iota
    end;
    try (rewrite IHd1; symmetry;
         destruct (Z.compare_spec (hexValue (HexadecimalString.NilEmpty.string_of_uint d1)) (hexValue (HexadecimalString.NilEmpty.string_of_uint d2)));
         [apply Z.compare_eq_iff|apply Z.compare_lt_iff|apply Z.compare_gt_iff];
         lia);
    symmetry;
    first [apply Z.compare_lt_iff; nia | apply Z.compare_gt_iff; nia].
Qed.


(** *** Padding with zeros *)

Lemma drop_zeros (j k : nat) (d : uint) :
  JsString.drop j (HexadecimalString.NilEmpty.string_of_uint (leadingZeros (j + k) d)) = HexadecimalString.NilEmpty.string_of_uint (leadingZeros k d).
Proof. induction j as [|j IH]; [reflexivity|exact IH]. Qed.

Lemma length_zeros (k : nat) (d : uint) :
  String.length (HexadecimalString.NilEmpty.string_of_uint (leadingZeros k d)) = (k + String.length (HexadecimalString.NilEmpty.string_of_uint d))%nat.
Proof.
  induction k as [|k IH]; [reflexivity|].
  cbn [leadingZeros HexadecimalString.NilEmpty.string_of_uint String.length]. rewrite IH. reflexivity.
Qed.

Lemma hexValue_zeros (k : nat) (d : uint) :
  hexValue (HexadecimalString.NilEmpty.string_of_uint (leadingZeros k d)) = hexValue (HexadecimalString.NilEmpty.string_of_uint d).
Proof.
  induction k as [|k IH]; [reflexivity|].
  cbn [leadingZeros HexadecimalString.NilEmpty.string_of_uint]. erewrite hexValue_cons by (vm_compute; reflexivity).
  rewrite IH. lia.
Qed.

Lemma zeroPad_uint (d : uint) :
  (String.length (HexadecimalString.NilEmpty.string_of_uint d) <= 16)%nat ->
  zeroPad (HexadecimalString.NilEmpty.string_of_uint d) 16 = HexadecimalString.NilEmpty.string_of_uint (leadingZeros (16 - String.length (HexadecimalString.NilEmpty.string_of_uint d)) d).
Proof.
  intros Hl. unfold zeroPad, JsString.substring, JsString.len.
  change ("000000000000000000" +:+ HexadecimalString.NilEmpty.string_of_uint d) with (HexadecimalString.NilEmpty.string_of_uint (leadingZeros 18 d)).
  rewrite length_zeros.
  replace (Z.to_nat (Z.of_nat (18 + String.length (HexadecimalString.NilEmpty.string_of_uint d)) - 16))
    with (String.length (HexadecimalString.NilEmpty.string_of_uint d) + 2)%nat by lia.
  replace 18%nat
    with (String.length (HexadecimalString.NilEmpty.string_of_uint d) + 2 + (16 - String.length (HexadecimalString.NilEmpty.string_of_uint d)))%nat
    at 1 by lia.
  apply drop_zeros.
Qed.

(** *** The digits of a number *)

Lemma nzhead_value (d : uint) :
  nzhead d = Nil \/
  16 ^ (JsString.len (HexadecimalString.NilEmpty.string_of_uint (nzhead d)) - 1) <= hexValue (HexadecimalString.NilEmpty.string_of_uint (nzhead d)).
Proof.
  induction d; cbn [nzhead]; [left; reflexivity|exact IHd|..];
    right; cbn [HexadecimalString.NilEmpty.string_of_uint];
    (erewrite hexValue_cons by (vm_compute; reflexivity));
    pose proof (hexValue_bound d);
    unfold JsString.len in *; cbn [String.length];
    rewrite Nat2Z.inj_succ;
    replace (Z.succ (Z.of_nat (String.length (HexadecimalString.NilEmpty.string_of_uint d))) - 1)
      with (Z.of_nat (String.length (HexadecimalString.NilEmpty.string_of_uint d))) by lia;
    nia.
Qed.

Lemma hexOfZ_uint (b : Z) :
  JsString.hexOfZ b = HexadecimalString.NilEmpty.string_of_uint (N.to_hex_uint (Z.to_N b)).
Proof.
  unfold JsString.hexOfZ, HexadecimalString.NilZero.string_of_uint.
  destruct (N.to_hex_uint (Z.to_N b)) eqn:E; try reflexivity.
  exfalso. destruct (Z.to_N b); [discriminate|].
  eapply HexadecimalPos.Unsigned.to_uint_nonnil. exact E.
Qed.

Lemma hexValue_hexOfZ (b : Z) : 0 <= b -> hexValue (JsString.hexOfZ b) = b.
Proof.
  intros Hb. rewrite hexOfZ_uint, hexValue_of_uint.
  change (Pos.of_hex_uint ?d) with (N.of_hex_uint d).
  rewrite HexadecimalN.Unsigned.of_to. lia.
Qed.

Lemma length_hexOfZ (b : Z) :
  0 <= b < 2 ^ 64 -> (String.length (JsString.hexOfZ b) <= 16)%nat.
Proof.
  intros Hb. pose proof (hexValue_hexOfZ b ltac:(lia)) as Hv.
  rewrite hexOfZ_uint in *.
  set (d := N.to_hex_uint (Z.to_N b)) in *.
  assert (Hn : d = unorm d).
  { unfold d. rewrite <- (HexadecimalN.Unsigned.of_to (Z.to_N b)) at 1.
    apply HexadecimalN.Unsigned.to_of. }
  unfold unorm in Hn.
  assert (Hcases : d = zero \/ nzhead d = d).
  { destruct (nzhead d); [left; exact Hn|right; congruence..]. }
  destruct Hcases as [E|E]; [rewrite E; cbn; lia|].
  destruct (nzhead_value d) as [E'|Hlow].
  - rewrite E' in E. rewrite <- E. cbn. lia.
  - rewrite E in Hlow. unfold JsString.len in Hlow.
    destruct (le_lt_dec (String.length (HexadecimalString.NilEmpty.string_of_uint d)) 16) as [|Hbig]; [assumption|].
    exfalso.
    assert (16 ^ 16 <= 16 ^ (Z.of_nat (String.length (HexadecimalString.NilEmpty.string_of_uint d)) - 1))
      by (apply Z.pow_le_mono_r; lia).
    change (16 ^ 16) with (2 ^ 64) in *. lia.
Qed.

(** The sixteen digits of a key: they denote the number, and two keys
    compare as their numbers. *)
Lemma hex16 (b : Z) :
  0 <= b < 2 ^ 64 ->
  exists d, zeroPad (JsString.hexOfZ b) 16 = HexadecimalString.NilEmpty.string_of_uint d /\
            String.length (HexadecimalString.NilEmpty.string_of_uint d) = 16%nat /\ hexValue (HexadecimalString.NilEmpty.string_of_uint d) = b.
Proof.
  intros Hb. pose proof (length_hexOfZ b Hb) as Hl.
  pose proof (hexValue_hexOfZ b ltac:(lia)) as Hv.
  rewrite hexOfZ_uint in *.
  eexists. split; [apply zeroPad_uint; exact Hl|].
  rewrite length_zeros, hexValue_zeros. split; [lia|exact Hv].
Qed.

Lemma hex16_parse (b : Z) :
  0 <= b < 2 ^ 64 ->
  JsString.bigIntOfHex (zeroPad (JsString.hexOfZ b) 16) = Some b.
Proof.
  intros Hb. destruct (hex16 b Hb) as (d & -> & Hl & Hv).
  assert (H : forall s, s <> EmptyString ->
            JsString.bigIntOfHex s = JsString.digits 16 JsString.hexDigit 0 s)
    by (intros [|ch s] Hs; [congruence|reflexivity]).
  rewrite H by (intros E; rewrite E in Hl; discriminate).
  rewrite hex_digits_value. f_equal. lia.
Qed.

Lemma hex16_compare (a b : Z) :
  0 <= a < 2 ^ 64 -> 0 <= b < 2 ^ 64 ->
  String.compare (zeroPad (JsString.hexOfZ a) 16)
                 (zeroPad (JsString.hexOfZ b) 16)
  = Z.compare a b.
Proof.
  intros Ha Hb.
  destruct (hex16 a Ha) as (da & -> & Hla & Hva).
  destruct (hex16 b Hb) as (db & -> & Hlb & Hvb).
  rewrite compare_value by congruence. rewrite Hva, Hvb. reflexivity.
Qed.

End HexFacts.


Module BitFacts.

Lemma two63 : 0x8000000000000000 = 2 ^ 63.
Proof. reflexivity. Qed.

Lemma ones64 : 0xffffffffffffffff = Z.ones 64.
Proof. reflexivity. Qed.

Lemma ones63 : 0x7fffffffffffffff = Z.ones 63.
Proof. reflexivity. Qed.

Lemma testbit63_small (x : Z) : 0 <= x < 2 ^ 63 -> Z.testbit x 63 = false.
Proof.
  intros Hx. destruct (Z.eq_dec x 0) as [->|Hne]; [reflexivity|].
  apply Z.bits_above_log2; [lia|]. apply Z.log2_lt_pow2; lia.
Qed.

Lemma land_two63_small (x : Z) : 0 <= x < 2 ^ 63 -> Z.land x (2 ^ 63) = 0.
Proof.
  intros Hx. apply Z.bits_inj'. intros n Hn.
  rewrite Z.land_spec, Z.bits_0, Z.pow2_bits_eqb by lia.
  destruct (Z.eqb_spec 63 n) as [<-|_];
    [rewrite testbit63_small by lia; reflexivity|apply andb_false_r].
Qed.

Lemma lxor_two63_small (x : Z) :
  0 <= x < 2 ^ 63 -> Z.lxor x (2 ^ 63) = x + 2 ^ 63.
Proof.
  intros Hx. symmetry. apply Z.add_nocarry_lxor. apply land_two63_small, Hx.
Qed.

Lemma lxor_two63_large (x : Z) :
  2 ^ 63 <= x < 2 ^ 64 -> Z.lxor x (2 ^ 63) = x - 2 ^ 63.
Proof.
  intros Hx.
  replace x with (Z.lxor (x - 2 ^ 63) (2 ^ 63)) at 1
    by (rewrite lxor_two63_small; lia).
  rewrite Z.lxor_assoc, Z.lxor_nilpotent, Z.lxor_0_r. reflexivity.
Qed.

Lemma testbit63_large (x : Z) : 2 ^ 63 <= x < 2 ^ 64 -> Z.testbit x 63 = true.
Proof.
  intros Hx.
  replace x with (Z.lxor (x - 2 ^ 63) (2 ^ 63))
    by (rewrite lxor_two63_small; lia).
  rewrite Z.lxor_spec, testbit63_small by lia.
  rewrite Z.pow2_bits_eqb by lia. reflexivity.
Qed.

Lemma land_lxor_distr (a b m : Z) :
  Z.land (Z.lxor a b) m = Z.lxor (Z.land a m) (Z.land b m).
Proof.
  apply Z.bits_inj'. intros n Hn.
  rewrite Z.land_spec, !Z.lxor_spec, !Z.land_spec.
  destruct (Z.testbit a n), (Z.testbit b n), (Z.testbit m n); reflexivity.
Qed.

Lemma lxor_ones64 (x : Z) :
  0 <= x < 2 ^ 64 -> Z.lxor x (Z.ones 64) = 2 ^ 64 - 1 - x.
Proof.
  intros Hx.
  assert (Hx' : x = Z.land x (Z.ones 64))
    by (rewrite Z.land_ones, Z.mod_small; lia).
  assert (Ho : Z.ones 64 = Z.land (-1) (Z.ones 64)) by reflexivity.
  rewrite Hx' at 1. rewrite Ho at 2.
  rewrite <- land_lxor_distr, Z.lxor_m1_r, Z.land_ones by lia.
  unfold Z.lnot.
  replace (Z.pred (- x)) with (2 ^ 64 - 1 - x + (-1) * 2 ^ 64) by lia.
  rewrite Z.mod_add, Z.mod_small; lia.
Qed.

Lemma lxor_range (a b : Z) :
  0 <= a < 2 ^ 64 -> 0 <= b < 2 ^ 64 -> 0 <= Z.lxor a b < 2 ^ 64.
Proof.
  intros Ha Hb.
  assert (H : Z.lxor a b = Z.lxor a b mod 2 ^ 64).
  { rewrite <- Z.land_ones, land_lxor_distr, !Z.land_ones by lia.
    rewrite !Z.mod_small; lia. }
  rewrite H. apply Z.mod_pos_bound. lia.
Qed.

End BitFacts.


Module NumberKeys.

Import Float64.

Lemma keyBits_range (n : Z) : wf n -> 0 <= keyBits n < 2 ^ 64.
Proof.
  intros Hn. unfold keyBits. destruct (ltZero n);
    apply BitFacts.lxor_range; try exact Hn; vm_compute; split; congruence.
Qed.

Lemma key_shape (n : Z) :
  numberToDBEntryKey n = String "f" (zeroPad (JsString.hexOfZ (keyBits n)) 16).
Proof. unfold numberToDBEntryKey, keyBits. destruct (ltZero n); reflexivity. Qed.

Lemma decode_key (n : Z) :
  wf n ->
  dbEntryKeyToNumber (numberToDBEntryKey n)
  = Some (Z.lxor (keyBits n) 0x8000000000000000).
Proof.
  intros Hn. rewrite key_shape. unfold dbEntryKeyToNumber.
  change (JsString.substring 1 (String "f" ?s)) with s.
  rewrite HexFacts.hex16_parse by (apply keyBits_range, Hn).
  change (firstCharBelow8 (String "f" _)) with false. cbn iota.
  f_equal. apply Z.mod_small. apply BitFacts.lxor_range.
  - apply keyBits_range, Hn.
  - vm_compute; split; congruence.
Qed.

(** A number that is not less than zero comes back from its key. *)
Lemma number_key_round_trip (n : Z) :
  wf n -> ltZero n = false ->
  dbEntryKeyToNumber (numberToDBEntryKey n) = Some n.
Proof.
  intros Hn Hlt. rewrite decode_key by exact Hn. unfold keyBits. rewrite Hlt.
  rewrite Z.lxor_assoc, Z.lxor_nilpotent, Z.lxor_0_r. reflexivity.
Qed.

(** No number less than zero comes back from its key: what comes back
    has every bit of the magnitude flipped. *)
Lemma negative_number_key_decoding (n : Z) :
  wf n -> ltZero n = true ->
  dbEntryKeyToNumber (numberToDBEntryKey n)
  = Some (Z.lxor n 0x7fffffffffffffff) /\
  dbEntryKeyToNumber (numberToDBEntryKey n) <> Some n.
Proof.
  intros Hn Hlt. rewrite decode_key by exact Hn. unfold keyBits. rewrite Hlt.
  rewrite Z.lxor_assoc.
  change (Z.lxor 0xffffffffffffffff 0x8000000000000000)
    with 0x7fffffffffffffff.
  split; [reflexivity|].
  intros E. inversion E as [E'].
  assert (H0 : Z.lxor n (Z.lxor n 0x7fffffffffffffff) = Z.lxor n n)
    by (rewrite E'; reflexivity).
  rewrite <- Z.lxor_assoc, Z.lxor_nilpotent, Z.lxor_0_l in H0. discriminate.
Qed.

Lemma signBit_spec (n : Z) : wf n -> signBit n = (2 ^ 63 <=? n).
Proof.
  intros Hn. unfold signBit. destruct (Z.leb_spec (2 ^ 63) n).
  - apply BitFacts.testbit63_large. unfold wf in Hn. lia.
  - apply BitFacts.testbit63_small. unfold wf in Hn. lia.
Qed.

Lemma magnitude_spec (n : Z) : wf n -> magnitude n = n mod 2 ^ 63.
Proof.
  intros Hn. unfold magnitude. rewrite BitFacts.ones63. apply Z.land_ones. lia.
Qed.

(** The key bits of an ordinary double are its rank in the total order,
    moved up by 2^63. *)
Lemma keyBits_rank (n : Z) :
  wf n -> ordinary n -> keyBits n = rank n + 2 ^ 63.
Proof.
  intros Hn Ho. unfold keyBits, rank. rewrite Ho.
  rewrite magnitude_spec, signBit_spec by exact Hn. unfold wf in Hn.
  destruct (Z.leb_spec (2 ^ 63) n).
  - rewrite BitFacts.ones64, BitFacts.lxor_ones64 by lia.
    replace n with (n - 2 ^ 63 + 1 * 2 ^ 63) at 2 by lia.
    rewrite Z.mod_add, Z.mod_small by lia. lia.
  - rewrite BitFacts.two63, BitFacts.lxor_two63_small by lia.
    rewrite Z.mod_small by lia. lia.
Qed.

(** The keys of ordinary doubles are in the IEEE total order. *)
Lemma number_key_order (a b : Z) :
  wf a -> wf b -> ordinary a -> ordinary b ->
  String.ltb (numberToDBEntryKey a) (numberToDBEntryKey b) = true
  <-> totalOrderLt a b.
Proof.
  intros Ha Hb Hoa Hob. rewrite !key_shape. unfold String.ltb.
  cbn [String.compare].
  change (Ascii.compare "f" "f") with Eq. cbn iota.
  rewrite HexFacts.hex16_compare by (apply keyBits_range; assumption).
  rewrite !keyBits_rank by assumption. unfold totalOrderLt.
  destruct (Z.compare_spec (rank a + 2 ^ 63) (rank b + 2 ^ 63));
    split; intros; try discriminate; try reflexivity; lia.
Qed.

End NumberKeys.

(** ** The keys of bigints *)

Module DecFacts.

Import Decimal.

Ltac eval_dec_digit :=
  match goal with
  | |- context [JsString.decDigit ?ch] =>
      let v := eval vm_compute in (JsString.decDigit ch) in
      change (JsString.decDigit ch) with v; cbn iota
  end.

Lemma dec_digits_acc (d : uint) :
  exists v, 0 <= v < 10 ^ JsString.len (DecimalString.NilEmpty.string_of_uint d) /\
    forall acc', JsString.digits 10 JsString.decDigit acc' (DecimalString.NilEmpty.string_of_uint d)
                 = Some (acc' * 10 ^ JsString.len (DecimalString.NilEmpty.string_of_uint d) + v).
Proof.
  induction d; cbn [DecimalString.NilEmpty.string_of_uint JsString.digits].
  1: { exists 0. change (JsString.len (DecimalString.NilEmpty.string_of_uint Nil)) with 0.
       rewrite Z.pow_0_r. split; [lia|]. intros acc'. f_equal. lia. }
  all: destruct IHd as [v [Hv Hd]];
    eval_dec_digit;
    match goal with
    | |- context [JsString.digits _ _ (10 * _ + ?k) _] =>
        exists (k * 10 ^ JsString.len (DecimalString.NilEmpty.string_of_uint d) + v)
    end;
    (split;
     [ unfold JsString.len in *; cbn [String.length];
       rewrite Nat2Z.inj_succ, Z.pow_succ_r by lia; lia
     | intros acc'; rewrite Hd; f_equal;
       unfold JsString.len; cbn [String.length];
       rewrite Nat2Z.inj_succ, Z.pow_succ_r by lia; lia ]).
Qed.

Lemma dec_digits_value (d : uint) (acc : Z) :
  JsString.digits 10 JsString.decDigit acc (DecimalString.NilEmpty.string_of_uint d)
  = Some (acc * 10 ^ JsString.len (DecimalString.NilEmpty.string_of_uint d)
          + decValue (DecimalString.NilEmpty.string_of_uint d)).
Proof.
  destruct (dec_digits_acc d) as [v [_ Hd]].
  unfold decValue. rewrite (Hd 0), Hd. simpl. reflexivity.
Qed.

Lemma decValue_bound (d : uint) :
  0 <= decValue (DecimalString.NilEmpty.string_of_uint d)
  < 10 ^ JsString.len (DecimalString.NilEmpty.string_of_uint d).
Proof.
  destruct (dec_digits_acc d) as [v [Hv Hd]].
  unfold decValue. rewrite (Hd 0). simpl. lia.
Qed.

Lemma decValue_cons (ch : ascii) (k : Z) (d : uint) :
  JsString.decDigit ch = Some k ->
  decValue (String ch (DecimalString.NilEmpty.string_of_uint d))
  = k * 10 ^ JsString.len (DecimalString.NilEmpty.string_of_uint d)
    + decValue (DecimalString.NilEmpty.string_of_uint d).
Proof.
  intros Hk. unfold decValue at 1. cbn [JsString.digits]. rewrite Hk.
  rewrite dec_digits_value. reflexivity.
Qed.

Lemma decValue_of_uint (d : uint) :
  decValue (DecimalString.NilEmpty.string_of_uint d) = Z.of_N (Pos.of_uint d).
Proof. unfold decValue. rewrite ParseIntFacts.digits_zero. reflexivity. Qed.

(** Strings of equal length compare as the numbers they denote. *)
Lemma dec_compare_value (d1 d2 : uint) :
  String.length (DecimalString.NilEmpty.string_of_uint d1)
  = String.length (DecimalString.NilEmpty.string_of_uint d2) ->
  String.compare (DecimalString.NilEmpty.string_of_uint d1)
                 (DecimalString.NilEmpty.string_of_uint d2)
  = Z.compare (decValue (DecimalString.NilEmpty.string_of_uint d1))
              (decValue (DecimalString.NilEmpty.string_of_uint d2)).
Proof.
  revert d2. induction d1; intros d2; destruct d2;
    cbn [DecimalString.NilEmpty.string_of_uint String.length];
    try discriminate; intros Hl; [reflexivity|..];
    injection Hl as Hl;
    pose proof (decValue_bound d1) as B1;
    pose proof (decValue_bound d2) as B2;
    specialize (IHd1 d2 Hl);
    assert (HL : JsString.len (DecimalString.NilEmpty.string_of_uint d1)
                 = JsString.len (DecimalString.NilEmpty.string_of_uint d2))
      by (unfold JsString.len; congruence);
    rewrite HL in B1;
    (erewrite !decValue_cons by (vm_compute; reflexivity));
    rewrite HL;
    cbn [String.compare];
    match goal with
    | |- context [Ascii.compare ?a ?b] =>
        let v := eval vm_compute in (Ascii.compare a b) in
        change (Ascii.compare a b) with v; cbn iota
    end;
    try (rewrite IHd1; symmetry;
         destruct (Z.compare_spec
                     (decValue (DecimalString.NilEmpty.string_of_uint d1))
                     (decValue (DecimalString.NilEmpty.string_of_uint d2)));
         [apply Z.compare_eq_iff|apply Z.compare_lt_iff|apply Z.compare_gt_iff];
         lia);
    symmetry;
    first [apply Z.compare_lt_iff; nia | apply Z.compare_gt_iff; nia].
Qed.

(** *** Padding with zeros *)

Lemma dec_drop_zeros (j k : nat) (d : uint) :
  JsString.drop j (DecimalString.NilEmpty.string_of_uint (leadingZerosDec (j + k) d))
  = DecimalString.NilEmpty.string_of_uint (leadingZerosDec k d).
Proof. induction j as [|j IH]; [reflexivity|exact IH]. Qed.

Lemma dec_length_zeros (k : nat) (d : uint) :
  String.length (DecimalString.NilEmpty.string_of_uint (leadingZerosDec k d))
  = (k + String.length (DecimalString.NilEmpty.string_of_uint d))%nat.
Proof.
  induction k as [|k IH]; [reflexivity|].
  cbn [leadingZerosDec DecimalString.NilEmpty.string_of_uint String.length].
  rewrite IH. reflexivity.
Qed.

Lemma decValue_zeros (k : nat) (d : uint) :
  decValue (DecimalString.NilEmpty.string_of_uint (leadingZerosDec k d))
  = decValue (DecimalString.NilEmpty.string_of_uint d).
Proof.
  induction k as [|k IH]; [reflexivity|].
  cbn [leadingZerosDec DecimalString.NilEmpty.string_of_uint].
  erewrite decValue_cons by (vm_compute; reflexivity).
  rewrite IH. lia.
Qed.

(** [zeroPad] does pad when at most eighteen zeros are missing. *)
Lemma zeroPad_dec (d : uint) (w : nat) :
  (String.length (DecimalString.NilEmpty.string_of_uint d) <= w
   <= String.length (DecimalString.NilEmpty.string_of_uint d) + 18)%nat ->
  zeroPad (DecimalString.NilEmpty.string_of_uint d) (Z.of_nat w)
  = DecimalString.NilEmpty.string_of_uint
      (leadingZerosDec
         (w - String.length (DecimalString.NilEmpty.string_of_uint d)) d).
Proof.
  intros Hl. unfold zeroPad, JsString.substring, JsString.len.
  change ("000000000000000000" +:+ DecimalString.NilEmpty.string_of_uint d)
    with (DecimalString.NilEmpty.string_of_uint (leadingZerosDec 18 d)).
  rewrite dec_length_zeros.
  set (L := String.length (DecimalString.NilEmpty.string_of_uint d)) in *.
  replace (Z.to_nat (Z.of_nat (18 + L) - Z.of_nat w))
    with (18 + L - w)%nat by lia.
  rewrite <- (dec_drop_zeros (18 + L - w) (w - L) d).
  repeat f_equal. lia.
Qed.

(** *** The digits of a number *)

Lemma dec_nzhead_value (d : uint) :
  nzhead d = Nil \/
  10 ^ (JsString.len (DecimalString.NilEmpty.string_of_uint (nzhead d)) - 1)
  <= decValue (DecimalString.NilEmpty.string_of_uint (nzhead d)).
Proof.
  induction d; cbn [nzhead]; [left; reflexivity|exact IHd|..];
    right; cbn [DecimalString.NilEmpty.string_of_uint];
    (erewrite decValue_cons by (vm_compute; reflexivity));
    pose proof (decValue_bound d);
    unfold JsString.len in *; cbn [String.length];
    rewrite Nat2Z.inj_succ;
    replace (Z.succ (Z.of_nat (String.length
                                 (DecimalString.NilEmpty.string_of_uint d))) - 1)
      with (Z.of_nat (String.length (DecimalString.NilEmpty.string_of_uint d)))
      by lia;
    nia.
Qed.

Lemma ofZ_uint (n : Z) :
  0 <= n ->
  JsString.ofZ n = DecimalString.NilEmpty.string_of_uint (N.to_uint (Z.to_N n)).
Proof.
  intros Hn. unfold JsString.ofZ, DecimalString.NilZero.string_of_int.
  destruct n as [|p|p]; [reflexivity| |lia].
  cbn [Z.to_int Z.to_N N.to_uint].
  unfold DecimalString.NilZero.string_of_uint.
  destruct (Pos.to_uint p) eqn:E; try reflexivity.
  exfalso. eapply DecimalPos.Unsigned.to_uint_nonnil. exact E.
Qed.

Lemma decValue_ofZ (n : Z) : 0 <= n -> decValue (JsString.ofZ n) = n.
Proof.
  intros Hn. rewrite ofZ_uint, decValue_of_uint by exact Hn.
  change (Pos.of_uint ?d) with (N.of_uint d).
  rewrite DecimalN.Unsigned.of_to. lia.
Qed.

(** The number of digits of a positive number. *)
Lemma length_ofZ (n : Z) :
  0 < n ->
  10 ^ (JsString.len (JsString.ofZ n) - 1) <= n
  < 10 ^ JsString.len (JsString.ofZ n).
Proof.
  intros Hn. pose proof (decValue_ofZ n ltac:(lia)) as Hv.
  rewrite ofZ_uint in * by lia.
  set (d := N.to_uint (Z.to_N n)) in *.
  pose proof (decValue_bound d) as Hb.
  split; [|lia].
  assert (Hnorm : d = unorm d).
  { unfold d. rewrite <- (DecimalN.Unsigned.of_to (Z.to_N n)) at 1.
    apply DecimalN.Unsigned.to_of. }
  unfold unorm in Hnorm.
  assert (Hcases : d = zero \/ nzhead d = d).
  { destruct (nzhead d); [left; exact Hnorm|right; congruence..]. }
  destruct Hcases as [E|E].
  - rewrite E in Hv. change (decValue _) with 0 in Hv. lia.
  - destruct (dec_nzhead_value d) as [E'|Hlow].
    + rewrite E' in E. rewrite <- E in Hv. change (decValue _) with 0 in Hv.
      lia.
    + rewrite E in Hlow. lia.
Qed.

Lemma length_ofZ_zero : JsString.len (JsString.ofZ 0) = 1.
Proof. reflexivity. Qed.

Lemma length_ofZ_pos (n : Z) : 0 <= n -> 1 <= JsString.len (JsString.ofZ n).
Proof.
  intros Hn. destruct (Z.eq_dec n 0) as [->|]; [rewrite length_ofZ_zero; lia|].
  pose proof (length_ofZ n ltac:(lia)) as [H1 H2].
  destruct (Z_le_gt_dec 1 (JsString.len (JsString.ofZ n))); [assumption|].
  assert (JsString.len (JsString.ofZ n) = 0)
    by (unfold JsString.len in *; lia).
  rewrite H in H2. simpl in H2. lia.
Qed.

(** More digits, greater number. *)
Lemma length_ofZ_mono (a b : Z) :
  0 <= a <= b -> JsString.len (JsString.ofZ a) <= JsString.len (JsString.ofZ b).
Proof.
  intros Hab.
  destruct (Z.eq_dec a 0) as [->|Ha].
  { rewrite length_ofZ_zero. apply length_ofZ_pos. lia. }
  pose proof (length_ofZ a ltac:(lia)) as [Ha1 Ha2].
  pose proof (length_ofZ b ltac:(lia)) as [Hb1 Hb2].
  destruct (Z_le_gt_dec (JsString.len (JsString.ofZ a))
              (JsString.len (JsString.ofZ b))) as [|Hgt]; [assumption|].
  exfalso.
  assert (10 ^ JsString.len (JsString.ofZ b)
          <= 10 ^ (JsString.len (JsString.ofZ a) - 1))
    by (apply Z.pow_le_mono_r; unfold JsString.len in *; lia).
  lia.
Qed.

End DecFacts.

Module BigintKeys.

Import Decimal.

Lemma compare_cons (ch : ascii) (x y : string) :
  String.compare (String ch x) (String ch y) = String.compare x y.
Proof.
  cbn [String.compare].
  replace (Ascii.compare ch ch) with Eq; [reflexivity|].
  symmetry. unfold Ascii.compare. apply N.compare_refl.
Qed.

Lemma compare_refl (x : string) : String.compare x x = Eq.
Proof. induction x as [|ch x IH]; [reflexivity|]. rewrite compare_cons. exact IH. Qed.

(** Two strings that start with parts of one length compare by these
    parts first. *)
Lemma compare_app (x1 x2 r1 r2 : string) :
  String.length x1 = String.length x2 ->
  String.compare (x1 +:+ r1) (x2 +:+ r2)
  = match String.compare x1 x2 with
    | Eq => String.compare r1 r2
    | other => other
    end.
Proof.
  revert x2. induction x1 as [|c1 x1 IH]; intros [|c2 x2]; try discriminate.
  - reflexivity.
  - intros Hl. injection Hl as Hl.
    change (String c1 x1 +:+ r1) with (String c1 (x1 +:+ r1)).
    change (String c2 x2 +:+ r2) with (String c2 (x2 +:+ r2)).
    cbn [String.compare].
    destruct (Ascii.compare c1 c2); [apply IH, Hl|reflexivity..].
Qed.

Lemma drop_field (t f : string) :
  JsString.drop (String.length t + 1) (t +:+ String ":" f) = f.
Proof.
  induction t as [|a t IH]; [reflexivity|].
  change (String a t +:+ String ":" f) with (String a (t +:+ String ":" f)).
  exact IH.
Qed.

(** A number written at a fixed width. *)
Lemma fixed_width (v : Z) (w : nat) :
  0 <= v < 10 ^ Z.of_nat w -> (1 <= w)%nat ->
  Z.of_nat w <= JsString.len (JsString.ofZ v) + 18 ->
  exists d, zeroPad (JsString.ofZ v) (Z.of_nat w)
            = DecimalString.NilEmpty.string_of_uint d /\
            String.length (DecimalString.NilEmpty.string_of_uint d) = w /\
            decValue (DecimalString.NilEmpty.string_of_uint d) = v.
Proof.
  intros Hv Hw Hpad.
  assert (Hlen : JsString.len (JsString.ofZ v) <= Z.of_nat w).
  { destruct (Z.eq_dec v 0) as [->|Hne];
      [rewrite DecFacts.length_ofZ_zero; lia|].
    pose proof (DecFacts.length_ofZ v ltac:(lia)) as [H1 _].
    destruct (Z_le_gt_dec (JsString.len (JsString.ofZ v)) (Z.of_nat w));
      [assumption|].
    exfalso.
    assert (10 ^ Z.of_nat w <= 10 ^ (JsString.len (JsString.ofZ v) - 1))
      by (apply Z.pow_le_mono_r; lia).
    lia. }
  pose proof (DecFacts.decValue_ofZ v ltac:(lia)) as Hval.
  rewrite DecFacts.ofZ_uint in * by lia.
  unfold JsString.len in *.
  eexists. split; [apply DecFacts.zeroPad_dec; lia|].
  rewrite DecFacts.dec_length_zeros, DecFacts.decValue_zeros.
  split; [lia|exact Hval].
Qed.

Lemma length_nonneg (n : Z) :
  0 <= n ->
  exists L : nat, JsString.len (JsString.ofZ n) = Z.of_nat L /\ (1 <= L)%nat.
Proof.
  intros Hn. exists (String.length (JsString.ofZ n)). split; [reflexivity|].
  pose proof (DecFacts.length_ofZ_pos n Hn). unfold JsString.len in *. lia.
Qed.

(** The tag that carries a length. *)
Lemma length_tag (x : Z) :
  0 <= x < 10 ^ 10 ->
  exists d, zeroPad (JsString.ofZ x) BIGINT_TAG_LEN
            = DecimalString.NilEmpty.string_of_uint d /\
            String.length (DecimalString.NilEmpty.string_of_uint d) = 10%nat /\
            decValue (DecimalString.NilEmpty.string_of_uint d) = x.
Proof.
  intros Hx. change BIGINT_TAG_LEN with (Z.of_nat 10).
  apply fixed_width; [exact Hx|lia|].
  pose proof (DecFacts.length_ofZ_pos x ltac:(lia)). lia.
Qed.

(** The key of a bigint that is not negative. *)
Lemma key_nonneg (n : Z) :
  0 <= n -> representable n ->
  exists t, bigintToDBEntryKey n
            = String "p" (DecimalString.NilEmpty.string_of_uint t
                          +:+ String ":" (JsString.ofZ n)) /\
    String.length (DecimalString.NilEmpty.string_of_uint t) = 10%nat /\
    decValue (DecimalString.NilEmpty.string_of_uint t)
    = JsString.len (JsString.ofZ n).
Proof.
  intros Hn [Hlen _]. rewrite Z.abs_eq in Hlen by lia.
  unfold bigintToDBEntryKey.
  destruct (Z.ltb_spec n 0) as [|_]; [lia|]. cbv zeta.
  destruct (length_tag (JsString.len (JsString.ofZ n))) as (t & Ht & Hl & Hv).
  { pose proof (DecFacts.length_ofZ_pos n Hn). lia. }
  exists t. rewrite Ht. split; [reflexivity|]. split; assumption.
Qed.

(** The key of a negative bigint: the complemented length, then the
    complement of the number at the width of the number. *)
Lemma key_neg (n : Z) :
  n < 0 -> representable n ->
  exists t f,
    bigintToDBEntryKey n
    = String "n" (DecimalString.NilEmpty.string_of_uint t
                  +:+ String ":" (DecimalString.NilEmpty.string_of_uint f)) /\
    String.length (DecimalString.NilEmpty.string_of_uint t) = 10%nat /\
    decValue (DecimalString.NilEmpty.string_of_uint t)
    = 10 ^ 10 - JsString.len (JsString.ofZ (- n)) /\
    JsString.len (DecimalString.NilEmpty.string_of_uint f)
    = JsString.len (JsString.ofZ (- n)) /\
    decValue (DecimalString.NilEmpty.string_of_uint f)
    = 10 ^ JsString.len (JsString.ofZ (- n)) + n.
Proof.
  intros Hn [Hlen Hpad]. specialize (Hpad Hn).
  rewrite Z.abs_neq in * by lia.
  unfold bigintToDBEntryKey.
  destruct (Z.ltb_spec n 0) as [_|]; [|lia]. cbv zeta.
  pose proof (DecFacts.length_ofZ (- n) ltac:(lia)) as [Hlo Hhi].
  destruct (length_nonneg (- n) ltac:(lia)) as (L & HL & HL1).
  rewrite HL in *.
  destruct (length_tag (BIGINT_LEN_MODULUS - Z.of_nat L)) as (t & Ht & Htl & Htv).
  { change BIGINT_LEN_MODULUS with (10 ^ 10). lia. }
  destruct (fixed_width (10 ^ Z.of_nat L + n) L) as (f & Hf & Hfl & Hfv);
    [lia|lia|lia|].
  exists t, f. rewrite Ht, Hf.
  split; [reflexivity|]. split; [exact Htl|]. split; [exact Htv|].
  split; [unfold JsString.len; lia|exact Hfv].
Qed.

(** A representable bigint comes back from its key. *)
Lemma bigint_key_round_trip (n : Z) :
  representable n -> dbEntryKeyToBigint (bigintToDBEntryKey n) = Some n.
Proof.
  intros Hr. destruct (Z_lt_ge_dec n 0) as [Hn|Hn].
  - destruct (key_neg n Hn Hr) as (t & f & -> & Htl & _ & Hfl & Hfv).
    unfold dbEntryKeyToBigint.
    assert (Hsub : JsString.substring (BIGINT_TAG_LEN + 2)
                     (String "n" (DecimalString.NilEmpty.string_of_uint t
                        +:+ String ":" (DecimalString.NilEmpty.string_of_uint f)))
                   = DecimalString.NilEmpty.string_of_uint f).
    { unfold JsString.substring.
      change (Z.to_nat (BIGINT_TAG_LEN + 2)) with (S (10 + 1)).
      rewrite <- Htl. exact (drop_field _ _). }
    rewrite Hsub. unfold JsString.bigIntOfDec.
    rewrite DecFacts.dec_digits_value, Hfl, Hfv. cbn iota. f_equal. lia.
  - destruct (key_nonneg n ltac:(lia) Hr) as (t & -> & Htl & _).
    unfold dbEntryKeyToBigint.
    assert (Hsub : JsString.substring (BIGINT_TAG_LEN + 2)
                     (String "p" (DecimalString.NilEmpty.string_of_uint t
                        +:+ String ":" (JsString.ofZ n)))
                   = JsString.ofZ n).
    { unfold JsString.substring.
      change (Z.to_nat (BIGINT_TAG_LEN + 2)) with (S (10 + 1)).
      rewrite <- Htl. exact (drop_field _ _). }
    rewrite Hsub. unfold JsString.bigIntOfDec.
    rewrite DecFacts.ofZ_uint by lia.
    rewrite DecFacts.dec_digits_value.
    rewrite <- DecFacts.ofZ_uint by lia.
    rewrite DecFacts.decValue_ofZ by lia. cbn iota. f_equal; lia.
Qed.

Lemma ltb_cons (ch : ascii) (x y : string) :
  String.ltb (String ch x) (String ch y) = String.ltb x y.
Proof. unfold String.ltb. rewrite compare_cons. reflexivity. Qed.

(** The keys of representable bigints are in the order of the bigints. *)
Lemma bigint_key_order (a b : Z) :
  a < b -> representable a -> representable b ->
  String.ltb (bigintToDBEntryKey a) (bigintToDBEntryKey b) = true.
Proof.
  intros Hab Hra Hrb.
  destruct (Z_lt_ge_dec a 0) as [Ha|Ha]; destruct (Z_lt_ge_dec b 0) as [Hb|Hb].
  - (* both negative *)
    destruct (key_neg a Ha Hra) as (ta & fa & -> & Htla & Htva & Hfla & Hfva).
    destruct (key_neg b Hb Hrb) as (tb & fb & -> & Htlb & Htvb & Hflb & Hfvb).
    rewrite ltb_cons. unfold String.ltb.
    rewrite compare_app by congruence.
    rewrite DecFacts.dec_compare_value by congruence.
    rewrite Htva, Htvb.
    pose proof (DecFacts.length_ofZ_mono (- b) (- a) ltac:(lia)) as Hmono.
    destruct (Z.compare_spec (10 ^ 10 - JsString.len (JsString.ofZ (- a)))
                (10 ^ 10 - JsString.len (JsString.ofZ (- b)))) as [E|E|E];
      [|reflexivity|lia].
    rewrite compare_cons.
    assert (EL : JsString.len (JsString.ofZ (- a))
                 = JsString.len (JsString.ofZ (- b))) by lia.
    rewrite DecFacts.dec_compare_value
      by (unfold JsString.len in *; lia).
    rewrite Hfva, Hfvb, EL.
    destruct (Z.compare_spec (10 ^ JsString.len (JsString.ofZ (- b)) + a)
                (10 ^ JsString.len (JsString.ofZ (- b)) + b));
      [lia|reflexivity|lia].
  - (* negative before non-negative *)
    destruct (key_neg a Ha Hra) as (ta & fa & -> & _).
    destruct (key_nonneg b ltac:(lia) Hrb) as (tb & -> & _).
    reflexivity.
  - lia.
  - (* both non-negative *)
    destruct (key_nonneg a ltac:(lia) Hra) as (ta & -> & Htla & Htva).
    destruct (key_nonneg b ltac:(lia) Hrb) as (tb & -> & Htlb & Htvb).
    rewrite ltb_cons. unfold String.ltb.
    rewrite compare_app by congruence.
    rewrite DecFacts.dec_compare_value by congruence.
    rewrite Htva, Htvb.
    pose proof (DecFacts.length_ofZ_mono a b ltac:(lia)) as Hmono.
    destruct (Z.compare_spec (JsString.len (JsString.ofZ a))
                (JsString.len (JsString.ofZ b))) as [E|E|E];
      [|reflexivity|lia].
    rewrite compare_cons.
    rewrite !DecFacts.ofZ_uint by lia.
    rewrite DecFacts.dec_compare_value
      by (rewrite <- !DecFacts.ofZ_uint by lia; unfold JsString.len in E; lia).
    rewrite <- !DecFacts.ofZ_uint by lia.
    rewrite !DecFacts.decValue_ofZ by lia.
    destruct (Z.compare_spec a b); [lia|reflexivity|lia].
Qed.

(** Every bigint below 10^19 in magnitude is representable. *)
Lemma small_representable (n : Z) : Z.abs n < 10 ^ 19 -> representable n.
Proof.
  intros Hn. unfold representable. cbv zeta.
  assert (HL : JsString.len (JsString.ofZ (Z.abs n)) <= 19).
  { destruct (Z.eq_dec (Z.abs n) 0) as [->|Hne];
      [rewrite DecFacts.length_ofZ_zero; lia|].
    pose proof (DecFacts.length_ofZ (Z.abs n) ltac:(lia)) as [H1 _].
    destruct (Z_le_gt_dec (JsString.len (JsString.ofZ (Z.abs n))) 19);
      [assumption|].
    exfalso.
    assert (10 ^ 19 <= 10 ^ (JsString.len (JsString.ofZ (Z.abs n)) - 1))
      by (apply Z.pow_le_mono_r; lia).
    lia. }
  split; [lia|]. intros Hneg.
  pose proof (DecFacts.length_ofZ (Z.abs n) ltac:(lia)) as [_ H2].
  pose proof (DecFacts.length_ofZ_pos
                (10 ^ JsString.len (JsString.ofZ (Z.abs n)) + n) ltac:(lia)).
  lia.
Qed.

End BigintKeys.

(** ** The size invariant *)

Module StringFacts.

Lemma prefix_app (p e : string) : String.prefix p (p +:+ e) = true.
Proof.
  induction p as [|a p IH]; simpl; [destruct e; reflexivity|].
  destruct (ascii_dec a a); [exact IH|contradiction].
Qed.

Lemma drop_app (p e : string) : JsString.drop (String.length p) (p +:+ e) = e.
Proof. induction p as [|a p IH]; simpl; [reflexivity|exact IH]. Qed.

Lemma length_app (a b : string) :
  String.length (a +:+ b) = (String.length a + String.length b)%nat.
Proof. induction a as [|x a IH]; simpl; [reflexivity|]. rewrite IH. reflexivity. Qed.

Lemma length_drop (n : nat) (s : string) :
  String.length (JsString.drop n s) = (String.length s - n)%nat.
Proof.
  revert s. induction n as [|n IH]; intros s; simpl; [lia|].
  destruct s; simpl; [reflexivity|apply IH].
Qed.

Lemma zeroPad_length (o : string) :
  String.length (zeroPad o BIGINT_TAG_LEN) = 10%nat.
Proof.
  unfold zeroPad, JsString.substring, JsString.len, BIGINT_TAG_LEN.
  rewrite length_drop, length_app.
  change (String.length "000000000000000000") with 18%nat. lia.
Qed.

(** Two tags of one length followed by their slots. *)
Lemma tagged_inj (tag tag' rest rest' : string) :
  String.length tag = String.length tag' ->
  tag +:+ rest = tag' +:+ rest' -> tag = tag' /\ rest = rest'.
Proof.
  revert tag'. induction tag as [|a tag IH]; intros [|a' tag']; simpl;
    try discriminate.
  - intros _ H. auto.
  - intros Hl H. inversion H; subst. inversion Hl as [Hl'].
    destruct (IH tag' Hl' H2) as [-> ->]. auto.
Qed.

End StringFacts.

Section RowFacts.

Context {pattern : Type}.
Variable c : collection pattern.

Lemma isEntryRow_prefix (e : string) :
  isEntryRow c (prefix c e) = negb (String.prefix "|" e).
Proof.
  unfold isEntryRow, prefix. rewrite StringFacts.prefix_app. simpl.
  unfold JsString.substring, JsString.len.
  rewrite Nat2Z.id, StringFacts.drop_app. reflexivity.
Qed.

Lemma isEntryRow_meta (x : string) : isEntryRow c (prefix c ("|" +:+ x)) = false.
Proof.
  rewrite isEntryRow_prefix.
  change (String.prefix "|" ("|" +:+ x))
    with (if ascii_dec "|" "|" then String.prefix "" x else false).
  destruct (ascii_dec "|" "|"); [|contradiction]. destruct x; reflexivity.
Qed.

Lemma isEntryRow_tagged (ch : ascii) (rest : string) :
  ch <> "|"%char -> isEntryRow c (prefix c (String ch rest)) = true.
Proof.
  intros H. rewrite isEntryRow_prefix.
  change (String.prefix "|" (String ch rest))
    with (if ascii_dec "|" ch then String.prefix "" rest else false).
  destruct (ascii_dec "|" ch); [congruence|reflexivity].
Qed.

Lemma prefix_inj (a b : string) : prefix c a = prefix c b -> a = b.
Proof. unfold prefix. apply String.app_inj. Qed.

Lemma entryRows_insert_new (m : gmap string string) (k v : string) :
  isEntryRow c k = true -> m !! k = None ->
  base.size (entryRows c (<[k := v]> m)) = S (base.size (entryRows c m)).
Proof.
  intros Hk Hm. unfold entryRows.
  rewrite map_filter_insert_True by exact Hk.
  apply map_size_insert_None. apply map_lookup_filter_None. auto.
Qed.

Lemma entryRows_insert_old (m : gmap string string) (k v : string) :
  is_Some (m !! k) ->
  base.size (entryRows c (<[k := v]> m)) = base.size (entryRows c m).
Proof.
  intros [x Hx]. unfold entryRows.
  destruct (isEntryRow c k) eqn:Hk.
  - rewrite map_filter_insert_True by exact Hk.
    apply map_size_insert_Some. exists x.
    apply map_lookup_filter_Some. auto.
  - rewrite map_filter_insert_not; [reflexivity|].
    intros y. simpl. congruence.
Qed.

Lemma entryRows_insert_meta (m : gmap string string) (k v : string) :
  isEntryRow c k = false -> entryRows c (<[k := v]> m) = entryRows c m.
Proof.
  intros Hk. unfold entryRows. apply map_filter_insert_not.
  intros y. simpl. congruence.
Qed.

Lemma entryRows_delete_entry (m : gmap string string) (k : string) :
  isEntryRow c k = true -> is_Some (m !! k) ->
  S (base.size (entryRows c (delete k m))) = base.size (entryRows c m).
Proof.
  intros Hk [x Hx]. unfold entryRows. rewrite map_filter_delete.
  assert (Hf : filter (fun kv => isEntryRow c kv.1 = true) m !! k = Some x).
  { apply map_lookup_filter_Some. auto. }
  rewrite map_size_delete_Some by eauto.
  assert (base.size (filter (fun kv => isEntryRow c kv.1 = true) m) <> 0%nat).
  { intros H0. apply map_size_empty_inv in H0. rewrite H0 in Hf.
    rewrite lookup_empty in Hf. discriminate. }
  lia.
Qed.

Lemma entryRows_delete_meta (m : gmap string string) (k : string) :
  isEntryRow c k = false -> entryRows c (delete k m) = entryRows c m.
Proof.
  intros Hk. unfold entryRows. rewrite map_filter_delete.
  apply delete_id. apply map_lookup_filter_None. right.
  intros x _. simpl. congruence.
Qed.

End RowFacts.

Section KeyFacts.

Context {pattern : Type}.
Variable c : collection pattern.

Lemma key_ne_meta (ch : ascii) (rest x : string) :
  ch <> "|"%char -> prefix c (String ch rest) <> prefix c ("|" +:+ x).
Proof. intros H E. apply prefix_inj in E. inversion E. congruence. Qed.

Lemma key_ne_row (ch : ascii) (rest x : string) :
  ch <> "r"%char -> prefix c (String ch rest) <> prefix c ("r" +:+ x).
Proof. intros H E. apply prefix_inj in E. inversion E. congruence. Qed.

Lemma meta_ne_row (x y : string) :
  prefix c ("|" +:+ x) <> prefix c ("r" +:+ y).
Proof. intros E. apply prefix_inj in E. inversion E. Qed.

Lemma meta_inj (x y : string) :
  prefix c ("|" +:+ x) = prefix c ("|" +:+ y) -> x = y.
Proof.
  intros E. apply prefix_inj in E. cbv [String.append] in E. inversion E.
  reflexivity.
Qed.

Lemma row_inj (tag tag' slot slot' : string) :
  String.length tag = 10%nat -> String.length tag' = 10%nat ->
  prefix c ("r" +:+ tag +:+ ":" +:+ slot)
  = prefix c ("r" +:+ tag' +:+ ":" +:+ slot') ->
  tag = tag' /\ slot = slot'.
Proof.
  intros H1 H2 E. apply prefix_inj in E. inversion E as [E'].
  change ("" +:+ ?x) with x in E'.
  apply StringFacts.tagged_inj in E'; [|congruence].
  destruct E' as [-> E']. cbv [String.append] in E'. inversion E'. auto.
Qed.

Lemma storeOk_insert_plain (m : gmap string string) (n : Z) (ch : ascii)
    (rest j : string) :
  ch <> "|"%char -> ch <> "r"%char ->
  m !! prefix c (String ch rest) = None ->
  storeOk c m n -> storeOk c (<[prefix c (String ch rest) := j]> m) (n + 1).
Proof.
  intros Hbar Hr Hnew (Hn & Hnext & Hrows). split; [|split].
  - rewrite entryRows_insert_new; auto using isEntryRow_tagged. lia.
  - apply lookup_insert_is_Some. right. split; [|exact Hnext].
    apply key_ne_meta. exact Hbar.
  - intros tag slot Hl Hrow.
    apply lookup_insert_is_Some in Hrow.
    destruct Hrow as [E|[_ Hrow]]; [exfalso; revert E; apply key_ne_row, Hr|].
    destruct (Hrows tag slot Hl Hrow) as [Hs [o [Ho Ht]]].
    split; [exact Hs|]. exists o. split; [|exact Ht].
    rewrite lookup_insert_ne; [exact Ho|]. apply key_ne_meta, Hbar.
Qed.

Lemma storeOk_overwrite (m : gmap string string) (n : Z) (ch : ascii)
    (rest j : string) :
  ch <> "|"%char ->
  is_Some (m !! prefix c (String ch rest)) ->
  storeOk c m n -> storeOk c (<[prefix c (String ch rest) := j]> m) n.
Proof.
  intros Hbar Hold (Hn & Hnext & Hrows). split; [|split].
  - rewrite entryRows_insert_old; auto.
  - apply lookup_insert_is_Some. right. split; [|exact Hnext].
    apply key_ne_meta. exact Hbar.
  - intros tag slot Hl Hrow.
    assert (Hrow' : is_Some (m !! prefix c ("r" +:+ tag +:+ ":" +:+ slot))).
    { apply lookup_insert_is_Some in Hrow.
      destruct Hrow as [E|[_ Hrow]]; [rewrite <- E; exact Hold|exact Hrow]. }
    destruct (Hrows tag slot Hl Hrow') as [Hs [o [Ho Ht]]].
    split; [exact Hs|]. exists o. split; [|exact Ht].
    rewrite lookup_insert_ne; [exact Ho|]. apply key_ne_meta, Hbar.
Qed.

Lemma storeOk_delete_plain (m : gmap string string) (n : Z) (ch : ascii)
    (rest : string) :
  ch <> "|"%char -> ch <> "r"%char ->
  is_Some (m !! prefix c (String ch rest)) ->
  storeOk c m n -> storeOk c (delete (prefix c (String ch rest)) m) (n - 1).
Proof.
  intros Hbar Hr Hold (Hn & Hnext & Hrows). split; [|split].
  - pose proof (entryRows_delete_entry c m (prefix c (String ch rest))
                  (isEntryRow_tagged c ch rest Hbar) Hold). lia.
  - apply lookup_delete_is_Some. split; [|exact Hnext].
    apply key_ne_meta. exact Hbar.
  - intros tag slot Hl Hrow.
    apply lookup_delete_is_Some in Hrow. destruct Hrow as [_ Hrow].
    destruct (Hrows tag slot Hl Hrow) as [Hs [o [Ho Ht]]].
    split; [exact Hs|]. exists o. split; [|exact Ht].
    rewrite lookup_delete_ne; [exact Ho|]. apply key_ne_meta, Hbar.
Qed.

Lemma storeOk_insert_remotable (m : gmap string string) (n : Z)
    (slot o n1 o' j : string) :
  m !! prefix c ("|" +:+ slot) = None ->
  <[prefix c ("|" +:+ "nextOrdinal") := n1]>
    (<[prefix c ("|" +:+ slot) := o]> m) !! prefix c ("|" +:+ slot) = Some o' ->
  storeOk c m n ->
  storeOk c
    (<[prefix c ("r" +:+ zeroPad o' BIGINT_TAG_LEN +:+ ":" +:+ slot) := j]>
       (<[prefix c ("|" +:+ "nextOrdinal") := n1]>
          (<[prefix c ("|" +:+ slot) := o]> m)))
    (n + 1).
Proof.
  intros Hnew Ho' (Hn & Hnext & Hrows).
  assert (Hslot : slot <> "nextOrdinal").
  { intros ->. rewrite Hnew in Hnext. destruct Hnext; discriminate. }
  assert (Hne : prefix c ("|" +:+ "nextOrdinal") <> prefix c ("|" +:+ slot)).
  { intros E. apply meta_inj in E. congruence. }
  rewrite lookup_insert_ne, lookup_insert_eq in Ho' by exact Hne.
  inversion Ho'; subst o'. clear Ho'.
  set (tag := zeroPad o BIGINT_TAG_LEN).
  assert (Htag : String.length tag = 10%nat) by apply StringFacts.zeroPad_length.
  assert (Habsent : m !! prefix c ("r" +:+ tag +:+ ":" +:+ slot) = None).
  { destruct (m !! prefix c ("r" +:+ tag +:+ ":" +:+ slot)) eqn:E; [|reflexivity].
    destruct (Hrows tag slot Htag (ex_intro _ _ E)) as [_ [o2 [Ho2 _]]].
    congruence. }
  split; [|split].
  - rewrite entryRows_insert_new.
    + rewrite !entryRows_insert_meta by apply isEntryRow_meta. lia.
    + apply (isEntryRow_tagged c "r"). discriminate.
    + rewrite !lookup_insert_ne; [exact Habsent|..];
        apply meta_ne_row.
  - apply lookup_insert_is_Some. right. split; [apply not_eq_sym, meta_ne_row|].
    rewrite lookup_insert_eq. eauto.
  - intros tag' slot' Hl Hrow.
    apply lookup_insert_is_Some in Hrow. destruct Hrow as [E|[_ Hrow]].
    + apply row_inj in E; auto. destruct E as [<- <-].
      split; [exact Hslot|]. exists o. split; [|reflexivity].
      rewrite lookup_insert_ne by (apply not_eq_sym, meta_ne_row).
      rewrite lookup_insert_ne by exact Hne.
      apply lookup_insert_eq.
    + rewrite !lookup_insert_ne in Hrow by apply meta_ne_row.
      destruct (Hrows tag' slot' Hl Hrow) as [Hs [o2 [Ho2 Ht]]].
      split; [exact Hs|]. exists o2. split; [|exact Ht].
      assert (slot' <> slot) by (intros ->; congruence).
      rewrite lookup_insert_ne by (apply not_eq_sym, meta_ne_row).
      rewrite lookup_insert_ne
        by (intros E; apply meta_inj in E; congruence).
      rewrite lookup_insert_ne
        by (intros E; apply meta_inj in E; congruence).
      exact Ho2.
Qed.

Lemma storeOk_delete_remotable (m : gmap string string) (n : Z)
    (slot o : string) :
  m !! prefix c ("|" +:+ slot) = Some o ->
  is_Some (m !! prefix c ("r" +:+ zeroPad o BIGINT_TAG_LEN +:+ ":" +:+ slot)) ->
  storeOk c m n ->
  storeOk c
    (delete (prefix c ("|" +:+ slot))
       (delete (prefix c ("r" +:+ zeroPad o BIGINT_TAG_LEN +:+ ":" +:+ slot)) m))
    (n - 1).
Proof.
  intros Ho Hold (Hn & Hnext & Hrows).
  set (tag := zeroPad o BIGINT_TAG_LEN) in *.
  assert (Htag : String.length tag = 10%nat) by apply StringFacts.zeroPad_length.
  destruct (Hrows tag slot Htag Hold) as [Hslot _].
  split; [|split].
  - rewrite entryRows_delete_meta by apply isEntryRow_meta.
    pose proof (entryRows_delete_entry c m
                  (prefix c ("r" +:+ tag +:+ ":" +:+ slot))
                  (isEntryRow_tagged c "r" _ ltac:(discriminate)) Hold). lia.
  - apply lookup_delete_is_Some. split.
    { intros E. apply meta_inj in E. congruence. }
    apply lookup_delete_is_Some. split; [apply not_eq_sym, meta_ne_row|exact Hnext].
  - intros tag' slot' Hl Hrow.
    apply lookup_delete_is_Some in Hrow. destruct Hrow as [_ Hrow].
    apply lookup_delete_is_Some in Hrow. destruct Hrow as [Hne Hrow].
    destruct (Hrows tag' slot' Hl Hrow) as [Hs [o2 [Ho2 Ht]]].
    split; [exact Hs|]. exists o2. split; [|exact Ht].
    assert (slot' <> slot).
    { intros ->. apply Hne. rewrite Ho in Ho2. inversion Ho2; subst.
      reflexivity. }
    rewrite lookup_delete_ne by (intros E; apply meta_inj in E; congruence).
    rewrite lookup_delete_ne by (apply not_eq_sym, meta_ne_row).
    exact Ho2.
Qed.

End KeyFacts.

Section Preservation.

Context {V value pattern : Type}.
Context `{PK : PatternKit value pattern}.
Context `{MA : Marshal value pattern}.
Context `{RM : RefManager V}.

Variable c : collection pattern.

(** The key of an entry starts with the tag of its pass style; the key of
    a remotable carries the padded ordinal of its slot. *)
Lemma encodeKey_tag (k : key) (st : state V) (e : string) :
  (encodeKey c k st).2 = Ok e ->
  exists ch rest, e = String ch rest /\ ch <> "|"%char /\
    match k with
    | KRemotable slot =>
        exists o, vatstore st !! prefix c ("|" +:+ slot) = Some o /\
                  e = "r" +:+ zeroPad o BIGINT_TAG_LEN +:+ ":" +:+ slot
    | _ => ch <> "r"%char
    end.
Proof.
  assert (Htag : forall ch rest, ch <> "|"%char -> ch <> "r"%char ->
            exists ch' rest', String ch rest = String ch' rest' /\
                              ch' <> "|"%char /\ ch' <> "r"%char)
    by (intros ch rest H1 H2; eauto).
  destruct k; unfold_engine; simpl; intros H.
  - inversion H. apply (Htag "z"%char); discriminate.
  - inversion H. apply (Htag "u"%char); discriminate.
  - inversion H. unfold numberToDBEntryKey. cbv [String.append].
    apply (Htag "f"%char); discriminate.
  - inversion H. cbv [String.append]. apply (Htag "s"%char); discriminate.
  - inversion H. cbv [String.append]. apply (Htag "b"%char); discriminate.
  - inversion H. unfold bigintToDBEntryKey.
    destruct (n <? 0); cbv [String.append]; fold String.append.
    + apply (Htag "n"%char); discriminate.
    + apply (Htag "p"%char); discriminate.
  - destruct (vatstore st !! prefix c ("|" +:+ slot)) as [o|] eqn:Ho;
      simpl in *; [|discriminate].
    inversion H; subst; clear H.
    exists "r"%char, (zeroPad o BIGINT_TAG_LEN +:+ ":" +:+ slot).
    split; [reflexivity|]. split; [discriminate|]. eauto.
  - inversion H. cbv [String.append]. apply (Htag "y"%char); discriminate.
  - discriminate.
Qed.

Lemma truthy_is_Some (o : option string) : truthy o = true -> is_Some o.
Proof. destruct o; simpl; [eauto|discriminate]. Qed.

Lemma deleteInternal_cases (k : key) (st : state V) :
  (deleteInternal c k st).1 = st \/
  exists e,
    (encodeKey c k st).2 = Ok e /\ is_Some (vatstore st !! prefix c e) /\
    size (deleteInternal c k st).1 = size st - 1 /\
    vatstore (deleteInternal c k st).1 =
      match k with
      | KRemotable slot =>
          delete (prefix c ("|" +:+ slot)) (delete (prefix c e) (vatstore st))
      | _ => delete (prefix c e) (vatstore st)
      end.
Proof.
  destruct (deleteInternal c k st) as [st' r] eqn:Hd. simpl. revert Hd.
  unfold deleteInternal, bind at 1, assert.
  destruct (matches k (keySchema c)); simpl;
    [|unfold throw; intros Hd; inversion Hd; auto].
  unfold keyToDBKey, bind at 1 2.
  pose proof (encodeKey_reads c k st) as Hr.
  destruct (encodeKey c k st) as [st1 [e|e1]]; simpl in Hr; subst st1;
    [|intros Hd; inversion Hd; auto].
  unfold_engine. simpl.
  destruct (truthy (vatstore st !! prefix c e)) eqn:Ht; simpl;
    [|intros Hd; inversion Hd; auto].
  apply truthy_is_Some in Ht.
  destruct (vatstore st !! prefix c e) as [raw|] eqn:Hrow; simpl;
    [|intros Hd; inversion Hd; auto].
  destruct (JSON_parse raw); simpl; [|intros Hd; inversion Hd; auto].
  intros Hd. right. exists e.
  destruct k; simpl in Hd; try destruct (hasWeakKeys c); simpl in Hd;
    inversion Hd; subst; simpl; repeat split; auto; lia.
Qed.

Lemma set_cases (k : key) (v : value) (st : state V) :
  (set c k v st).1 = st \/
  exists e j,
    (encodeKey c k st).2 = Ok e /\ is_Some (vatstore st !! prefix c e) /\
    size (set c k v st).1 = size st /\
    vatstore (set c k v st).1 = <[prefix c e := j]> (vatstore st).
Proof.
  destruct (set c k v st) as [st' r] eqn:Hd. simpl. revert Hd.
  unfold set, bind at 1, assert.
  destruct (matches k (keySchema c)); simpl;
    [|unfold throw; intros Hd; inversion Hd; auto].
  unfold keyToDBKey, bind at 1 2.
  pose proof (encodeKey_reads c k st) as Hr.
  destruct (encodeKey c k st) as [st1 [e|e1]]; simpl in Hr; subst st1;
    [|intros Hd; inversion Hd; auto].
  unfold_engine. simpl.
  destruct (truthy (vatstore st !! prefix c e)) eqn:Ht; simpl;
    [|intros Hd; inversion Hd; auto].
  apply truthy_is_Some in Ht.
  destruct (vatstore st !! prefix c e) as [raw|] eqn:Hrow; simpl;
    [|intros Hd; inversion Hd; auto].
  destruct (JSON_parse raw); simpl; [|intros Hd; inversion Hd; auto].
  intros Hd. inversion Hd; subst; simpl.
  right. eexists e, _. repeat split; auto.
Qed.

Lemma init_cases (k : key) (v : value) (st : state V) :
  (init c k v st).1 = st \/
  (exists e j,
     (forall slot, k <> KRemotable slot) /\
     (encodeKey c k st).2 = Ok e /\ vatstore st !! prefix c e = None /\
     size (init c k v st).1 = size st + 1 /\
     vatstore (init c k v st).1 = <[prefix c e := j]> (vatstore st)) \/
  (exists slot o n1 o' j,
     k = KRemotable slot /\
     vatstore st !! prefix c ("|" +:+ slot) = None /\
     <[prefix c ("|" +:+ "nextOrdinal") := n1]>
       (<[prefix c ("|" +:+ slot) := o]> (vatstore st))
       !! prefix c ("|" +:+ slot) = Some o' /\
     size (init c k v st).1 = size st + 1 /\
     vatstore (init c k v st).1 =
       <[prefix c ("r" +:+ zeroPad o' BIGINT_TAG_LEN +:+ ":" +:+ slot) := j]>
         (<[prefix c ("|" +:+ "nextOrdinal") := n1]>
            (<[prefix c ("|" +:+ slot) := o]> (vatstore st)))).
Proof.
  destruct (init c k v st) as [st' r] eqn:Hd. simpl. revert Hd.
  unfold init, bind at 1, assert.
  destruct (matches k (keySchema c)) eqn:Hm; simpl;
    [|unfold throw; intros Hd; inversion Hd; auto].
  unfold bind at 1.
  pose proof (has_reads c k st) as Hr.
  destruct (has c k st) as [st1 [present|e1]] eqn:Hhas; simpl in Hr; subst st1;
    [|intros Hd; inversion Hd; auto].
  destruct present; simpl;
    [unfold bind, throw; simpl; intros Hd; inversion Hd; auto|].
  revert Hhas. unfold has. rewrite Hm. simpl.
  destruct k.
  9: { unfold_engine. simpl. discriminate. }
  7: { (* remotable *)
    unfold_engine. simpl. intros Hhas.
    assert (Hnone : vatstore st !! prefix c ("|" +:+ slot) = None).
    { destruct (vatstore st !! prefix c ("|" +:+ slot)) eqn:E; [|reflexivity].
      inversion Hhas. }
    intros Hd. right. right.
    destruct (hasWeakKeys c); simpl in Hd;
      match type of Hd with
      | context [match ?m !! ?key with _ => _ end] =>
          assert (Hsome : is_Some (m !! key))
            by (apply lookup_insert_is_Some;
                destruct (decide (prefix c "|nextOrdinal"
                                  = prefix c ("|" +:+ slot)));
                [left; assumption|right; split; [assumption|]];
                rewrite lookup_insert_eq; eauto);
          destruct Hsome as [o' Ho']; rewrite Ho' in Hd
      end; simpl in Hd; inversion Hd; subst; simpl;
      eexists slot, _, _, o', _;
      (split; [reflexivity|]); (split; [exact Hnone|]);
      (split; [exact Ho'|]); split; reflexivity. }
  all: unfold_engine; simpl; intros Hhas Hd; inversion Hd; subst; simpl;
    right; left;
    eexists _, _; (split; [intros slot0; discriminate|]);
    (split; [reflexivity|]);
    (split; [|split; reflexivity]);
    match goal with
    | |- ?x = None =>
        destruct x eqn:E; [|reflexivity]; inversion Hhas
    end.
Qed.

Lemma init_preserves (k : key) (v : value) (st : state V) :
  wellFormed c st -> wellFormed c (init c k v st).1.
Proof.
  intros Hwf. unfold wellFormed in *.
  destruct (init_cases k v st)
    as [E|[(e & j & Hk & He & Hnone & Hs & Hv)
          |(slot & o & n1 & o' & j & -> & Hnone & Ho' & Hs & Hv)]].
  - rewrite E. exact Hwf.
  - rewrite Hs, Hv.
    destruct (encodeKey_tag k st e He) as (ch & rest & -> & Hbar & Hkind).
    destruct k; try (exfalso; eapply Hk; reflexivity);
      apply storeOk_insert_plain; auto.
  - rewrite Hs, Hv. apply storeOk_insert_remotable; auto.
Qed.

Lemma set_preserves (k : key) (v : value) (st : state V) :
  wellFormed c st -> wellFormed c (set c k v st).1.
Proof.
  intros Hwf. unfold wellFormed in *.
  destruct (set_cases k v st) as [E|(e & j & He & Hsome & Hs & Hv)].
  - rewrite E. exact Hwf.
  - rewrite Hs, Hv.
    destruct (encodeKey_tag k st e He) as (ch & rest & -> & Hbar & _).
    apply storeOk_overwrite; auto.
Qed.

Lemma deleteInternal_preserves (k : key) (st : state V) :
  wellFormed c st -> wellFormed c (deleteInternal c k st).1.
Proof.
  intros Hwf. unfold wellFormed in *.
  destruct (deleteInternal_cases k st) as [E|(e & He & Hsome & Hs & Hv)].
  - rewrite E. exact Hwf.
  - rewrite Hs, Hv.
    destruct (encodeKey_tag k st e He) as (ch & rest & Hch & Hbar & Hkind).
    destruct k; try (rewrite Hch in *; apply storeOk_delete_plain; auto; fail).
    destruct Hkind as (o & Ho & ->).
    apply storeOk_delete_remotable; auto.
Qed.

Lemma del_preserves (k : key) (st : state V) :
  wellFormed c st -> wellFormed c (del c k st).1.
Proof.
  intros Hwf. unfold del, bind, bumpGeneration. fold (bumped st).
  pose proof (deleteInternal_preserves k (bumped st) Hwf) as H.
  destruct (deleteInternal c k (bumped st)) as [st' [u|e]]; exact H.
Qed.

Lemma clearLoop_preserves (fuel : nat) (it : iterator pattern) (st : state V) :
  wellFormed c st -> wellFormed c (clearLoop c fuel it st).1.
Proof.
  revert it st. induction fuel as [|fuel IH]; intros it st Hwf; simpl;
    [exact Hwf|].
  destruct (keysNext c it st) as [it' [[k|]|e]]; simpl; try exact Hwf.
  pose proof (deleteInternal_preserves k st Hwf) as H.
  destruct (deleteInternal c k st) as [st' [u|e]]; simpl in *; [|exact H].
  apply IH. exact H.
Qed.

Lemma clear_preserves (kp vp : option pattern) (st : state V) :
  wellFormed c st -> wellFormed c (clear c kp vp st).1.
Proof.
  intros Hwf. unfold clear.
  pose proof (clearLoop_preserves (iterFuel st) (keys kp vp) st Hwf) as H.
  destruct (clearLoop c (iterFuel st) (keys kp vp) st) as [st' [u|e]];
    exact H.
Qed.

(** A collection without entry rows and with its [|nextOrdinal] row, as
    [makeCollection] leaves it, is well formed at size 0. *)
Lemma created_well_formed (m : gmap string string) (v : V) (g : Z) :
  (forall k, isEntryRow c k = true -> m !! k = None) ->
  is_Some (m !! prefix c "|nextOrdinal") ->
  wellFormed c (State m v g 0).
Proof.
  intros Hnone Hnext. split; [|split]; simpl.
  - assert (E : entryRows c m = ∅).
    { apply map_eq. intros k. rewrite lookup_empty.
      apply map_lookup_filter_None. simpl.
      destruct (isEntryRow c k) eqn:Hk; [left; auto|right; congruence]. }
    rewrite E. reflexivity.
  - exact Hnext.
  - intros tag slot _ [x Hx].
    rewrite Hnone in Hx; [discriminate|].
    apply (isEntryRow_tagged c "r"). discriminate.
Qed.

(** The size invariant is kept by [init], [set], [delete] and [clear],
    whether they return or throw. *)
Lemma size_invariant_preserved (k : key) (v : value)
    (kp vp : option pattern) (st : state V) :
  wellFormed c st ->
  wellFormed c (init c k v st).1 /\
  wellFormed c (set c k v st).1 /\
  wellFormed c (del c k st).1 /\
  wellFormed c (clear c kp vp st).1.
Proof.
  intros H. split; [|split; [|split]].
  - apply init_preserves, H.
  - apply set_preserves, H.
  - apply del_preserves, H.
  - apply clear_preserves, H.
Qed.

Lemma wellFormed_size (st : state V) : wellFormed c st -> sizeInvariant c st.
Proof. intros [H _]. exact H. Qed.

End Preservation.


(** ** The round trip of a key *)

Section KeyRoundTrip.

Context {V value pattern : Type}.
Context `{PK : PatternKit value pattern}.
Context `{MA : Marshal value pattern}.
Context `{RM : RefManager V}.

Variable c : collection pattern.

Lemma dbEntryKey_of_prefix (e : string) :
  JsString.substring (JsString.len (dbKeyPrefix c)) (prefix c e) = e.
Proof.
  unfold JsString.substring, JsString.len, prefix.
  rewrite Nat2Z.id. apply StringFacts.drop_app.
Qed.

(** Decoding the key of a restorable key gives the key back. *)
Lemma key_round_trip (k : key) (st : state V) (e : string) :
  restorable k ->
  (encodeKey c k st).2 = Ok e ->
  dbKeyToKey c (prefix c e) = Ok k.
Proof.
  intros Hk He. unfold dbKeyToKey. rewrite dbEntryKey_of_prefix.
  destruct k; unfold_engine; simpl in He.
  - inversion He. reflexivity.
  - inversion He. reflexivity.
  - inversion He. destruct Hk as [Hwf Hlt].
    rewrite NumberKeys.key_shape. cbv beta iota.
    rewrite <- NumberKeys.key_shape.
    rewrite NumberKeys.number_key_round_trip by assumption. reflexivity.
  - inversion He. reflexivity.
  - inversion He. destruct b; reflexivity.
  - inversion He. simpl in Hk.
    pose proof (BigintKeys.bigint_key_round_trip n Hk) as Hrt.
    destruct (Z_lt_ge_dec n 0) as [Hn|Hn].
    + destruct (BigintKeys.key_neg n Hn Hk) as (t & f & Hs & _).
      rewrite Hs. cbv beta iota. rewrite <- Hs, Hrt. reflexivity.
    + destruct (BigintKeys.key_nonneg n ltac:(lia) Hk) as (t & Hs & _).
      rewrite Hs. cbv beta iota. rewrite <- Hs, Hrt. reflexivity.
  - destruct (vatstore st !! prefix c ("|" +:+ slot)) as [o|]; simpl in He;
      [|discriminate].
    inversion He.
    change ("r" +:+ zeroPad o BIGINT_TAG_LEN +:+ ":" +:+ slot)
      with (String "r" (zeroPad o BIGINT_TAG_LEN +:+ String ":" slot)).
    cbv iota. f_equal. f_equal.
    unfold JsString.substring.
    change (Z.to_nat (BIGINT_TAG_LEN + 2)) with (S (10 + 1)).
    rewrite <- (StringFacts.zeroPad_length o).
    exact (BigintKeys.drop_field _ _).
  - inversion He. reflexivity.
  - contradiction.
Qed.

End KeyRoundTrip.

(** ** The allocator of ordinals *)

Section Ordinals.

Context {V pattern : Type}.

Variable c : collection pattern.

(** C5 (amended): the allocator has no overflow check.  Whatever the
    stored [|nextOrdinal] [n] is, [generateOrdinal] succeeds, stores [n]
    as the ordinal of the slot and [n + 1] as the new [|nextOrdinal],
    also when they no longer fit in ten decimal digits. *)
Theorem generateOrdinal_unchecked (slot : string) (st : state V) (n : Z) :
  0 <= n < 2 ^ 53 - 1 ->
  vatstore st !! prefix c "|nextOrdinal" = Some (JsString.ofZ n) ->
  generateOrdinal c slot st =
  (State (<[prefix c "|nextOrdinal" := JsString.ofZ (n + 1)]>
            (<[prefix c ("|" +:+ slot) := JsString.ofZ n]> (vatstore st)))
     (vrm st) (currentGenerationNumber st) (size st),
   Ok tt).
Proof.
  intros Hn Hrow. unfold_engine. simpl. rewrite Hrow.
  rewrite ParseIntFacts.parseInt_ofZ by lia. simpl.
  rewrite (Z.add_comm 1 n). reflexivity.
Qed.

End Ordinals.

(** ** The code at concrete inputs *)

Section Concrete.

Import Demo.

(** C1: the round trip of a number key fails at the negative double -1.
    Its key is [f400fffffffffffff]; the decoder looks at the tag [f]
    where the first hexadecimal digit is meant, takes the key for one of
    a non-negative number and returns the double with the bits
    [c00fffffffffffff], which is not -1. *)
Theorem negative_number_key_is_not_restored :
  Float64.ltZero Float64.negOne = true /\
  numberToDBEntryKey Float64.negOne = "f400fffffffffffff" /\
  firstCharBelow8 (numberToDBEntryKey Float64.negOne) = false /\
  dbEntryKeyToNumber (numberToDBEntryKey Float64.negOne)
  = Some 0xc00fffffffffffff /\
  dbEntryKeyToNumber (numberToDBEntryKey Float64.negOne)
  <> Some Float64.negOne /\
  dbKeyToKey strongMap
    (prefix strongMap (numberToDBEntryKey Float64.negOne))
  = Ok (KNumber 0xc00fffffffffffff).
Proof. vm_compute. repeat split; congruence. Qed.

(** C3: the key of [-0] is not the key of [+0] and sorts before the key
    of [-Infinity]: the test [n < 0] is false on [-0], so only its sign
    bit is flipped, which gives sixteen zeros.  The other keys of the
    chain are in order. *)
Theorem negative_zero_key_sorts_first :
  numberToDBEntryKey Float64.negZero = "f0000000000000000" /\
  numberToDBEntryKey Float64.posZero = "f8000000000000000" /\
  numberToDBEntryKey Float64.negInfinity = "f000fffffffffffff" /\
  String.ltb (numberToDBEntryKey Float64.negZero)
             (numberToDBEntryKey Float64.negInfinity) = true /\
  Float64.totalOrderLt Float64.negInfinity Float64.negZero /\
  String.ltb (numberToDBEntryKey Float64.negInfinity)
             (numberToDBEntryKey Float64.negOne) = true /\
  String.ltb (numberToDBEntryKey Float64.negOne)
             (numberToDBEntryKey Float64.posZero) = true /\
  String.ltb (numberToDBEntryKey Float64.posZero)
             (numberToDBEntryKey Float64.posOne) = true /\
  String.ltb (numberToDBEntryKey Float64.posOne)
             (numberToDBEntryKey Float64.posInfinity) = true /\
  String.ltb (numberToDBEntryKey Float64.posInfinity)
             (numberToDBEntryKey Float64.NaN) = true.
Proof. vm_compute. repeat split. Qed.

(** C4: two negative bigints of twenty digits whose keys are in the wrong
    order.  [zeroPad] has eighteen zeros to give; the digit field of
    [-99999999999999999998] needs nineteen and comes out one character
    short. *)
Theorem long_negative_bigint_keys_out_of_order :
  -99999999999999999998 < -99999999999999999990 /\
  bigintToDBEntryKey (-99999999999999999998)
  = "n9999999980:0000000000000000002" /\
  bigintToDBEntryKey (-99999999999999999990)
  = "n9999999980:00000000000000000010" /\
  String.ltb (bigintToDBEntryKey (-99999999999999999998))
             (bigintToDBEntryKey (-99999999999999999990)) = false /\
  String.ltb (bigintToDBEntryKey (-99999999999999999990))
             (bigintToDBEntryKey (-99999999999999999998)) = true /\
  dbEntryKeyToBigint (bigintToDBEntryKey (-99999999999999999998))
  = Some (-9999999999999999998).
Proof. vm_compute. repeat split. Qed.

(** C2: the handle the reanimator returns for [o+1/1] has the label and
    the collection identifier exchanged: it addresses the rows under
    [vc.demo.], not those under [vc.1.], so an entry made through the
    original handle is not there for the reanimated one. *)
Theorem reanimated_handle_addresses_other_rows :
  match created, reanimated with
  | Some (vobjID, h, m), Some h' =>
      vobjID = "o+1/1" /\
      mVatstore m !! "vc.1.|label" = Some "demo" /\
      label (hCollection h) = "demo" /\
      collectionID (hCollection h) = "1" /\
      dbKeyPrefix (hCollection h) = "vc.1." /\
      label (hCollection h') = "1" /\
      collectionID (hCollection h') = "demo" /\
      dbKeyPrefix (hCollection h') = "vc.demo." /\
      keySchema (hCollection h') = keySchema (hCollection h) /\
      let st := (init (hCollection h) (KString "k") someValue (enter h m)).1 in
      (keyToDBKey (hCollection h) (KString "k") st).2 = Ok "vc.1.sk" /\
      (keyToDBKey (hCollection h') (KString "k") st).2 = Ok "vc.demo.sk" /\
      (has (hCollection h) (KString "k") st).2 = Ok true /\
      (has (hCollection h') (KString "k") st).2 = Ok false
  | _, _ => False
  end.
Proof. vm_compute. repeat split. Qed.

(** C8: [entryDeleter] removes the entry row of a reclaimed key and
    leaves the size as it was: after [init] of one remotable in a weak
    collection the size is 1 and one entry row is there; after
    [entryDeleter] no entry row is left and the size is still 1. *)
Theorem entryDeleter_leaves_size :
  sizeInvariant weakMap oneRemotable /\
  size oneRemotable = 1 /\
  (entryDeleter weakMap "o-5" oneRemotable).2 = Ok tt /\
  size (entryDeleter weakMap "o-5" oneRemotable).1 = 1 /\
  entryCount weakMap (entryDeleter weakMap "o-5" oneRemotable).1 = 0 /\
  ~ sizeInvariant weakMap (entryDeleter weakMap "o-5" oneRemotable).1.
Proof. vm_compute. repeat split; congruence. Qed.

(** C5 as stated fails: with [|nextOrdinal] at 9999999999,
    [generateOrdinal] does not throw and writes 10000000000 as the next
    ordinal; the call after it stores that ordinal of eleven digits, and
    the key of the remotable carries the tag [0000000000]. *)
Lemma ordinal_overflow_not_detected :
  let st1 := (generateOrdinal strongMap "o-8" lastOrdinal).1 in
  let st2 := (generateOrdinal strongMap "o-9" st1).1 in
  isThrow (generateOrdinal strongMap "o-8" lastOrdinal).2 = false /\
  vatstore st1 !! "vc.1.|nextOrdinal" = Some "10000000000" /\
  isThrow (generateOrdinal strongMap "o-9" st1).2 = false /\
  vatstore st2 !! "vc.1.|o-9" = Some "10000000000" /\
  (encodeKey strongMap (KRemotable "o-9") st2).2 = Ok "r0000000000:o-9".
Proof. vm_compute. repeat split. Qed.

Lemma generateOrdinal_unchecked_witness :
  (0 <= 9999999999 < 2 ^ 53 - 1) /\
  vatstore lastOrdinal !! prefix strongMap "|nextOrdinal"
  = Some (JsString.ofZ 9999999999) /\
  generateOrdinal strongMap "o-8" lastOrdinal =
  (State (<[prefix strongMap "|nextOrdinal" := JsString.ofZ (9999999999 + 1)]>
            (<[prefix strongMap ("|" +:+ "o-8") := JsString.ofZ 9999999999]>
               (vatstore lastOrdinal)))
     (vrm lastOrdinal) (currentGenerationNumber lastOrdinal)
     (size lastOrdinal),
   Ok tt).
Proof.
  assert (H1 : 0 <= 9999999999 < 2 ^ 53 - 1) by (vm_compute; split; congruence).
  assert (H2 : vatstore lastOrdinal !! prefix strongMap "|nextOrdinal"
               = Some (JsString.ofZ 9999999999)) by (vm_compute; reflexivity).
  split; [exact H1|]. split; [exact H2|].
  exact (generateOrdinal_unchecked strongMap "o-8" lastOrdinal 9999999999 H1 H2).
Defined.

Lemma schema_violation_policy_witness :
  matches KNull (keySchema stringMap) = false /\
  has stringMap KNull freshState = (freshState, Ok false) /\
  get stringMap KNull freshState = (freshState, Throw SchemaViolation) /\
  init stringMap KNull someValue freshState
  = (freshState, Throw SchemaViolation) /\
  set stringMap KNull someValue freshState
  = (freshState, Throw SchemaViolation) /\
  del stringMap KNull freshState
  = (bumped freshState, Throw SchemaViolation).
Proof.
  assert (H : matches KNull (keySchema stringMap) = false)
    by (vm_compute; reflexivity).
  split; [exact H|].
  exact (schema_violation_policy stringMap KNull someValue freshState H).
Defined.

Lemma init_atomic_on_failure_witness :
  (matches (KString "a") (keySchema strongMap) = false
   \/ (has strongMap (KString "a") twoKeys).2 = Ok true) /\
  exists e, (e = SchemaViolation \/ e = AlreadyPresent) /\
            init strongMap (KString "a") someValue twoKeys
            = (twoKeys, Throw e).
Proof.
  assert (H : matches (KString "a") (keySchema strongMap) = false
              \/ (has strongMap (KString "a") twoKeys).2 = Ok true)
    by (right; vm_compute; reflexivity).
  split; [exact H|].
  exact (init_atomic_on_failure strongMap (KString "a") someValue twoKeys H).
Defined.


Lemma generation_guard_witness :
  let it := (next strongMap (keys None None) twoKeys).1 in
  next strongMap (keys None None) twoKeys
  = (it, Ok (Some (KString "a", None))) /\
  isOpen it = true /\
  (init strongMap (KString "c") someValue twoKeys).2 = Ok tt /\
  guardTrips strongMap it (init strongMap (KString "c") someValue twoKeys).1 /\
  (del strongMap (KString "b") twoKeys).2 = Ok tt /\
  guardTrips strongMap it (del strongMap (KString "b") twoKeys).1 /\
  (del strongMap (KString "c") twoKeys).2 = Throw NotFound /\
  guardTrips strongMap it (del strongMap (KString "c") twoKeys).1 /\
  (clear strongMap None None twoKeys).2 = Ok tt /\
  guardTrips strongMap it (clear strongMap None None twoKeys).1 /\
  (set strongMap (KString "b") someValue twoKeys).2 = Ok tt /\
  guardHolds strongMap it (set strongMap (KString "b") someValue twoKeys).1.
Proof.
  intros it.
  assert (Hy : next strongMap (keys None None) twoKeys
               = (it, Ok (Some (KString "a", None))))
    by (vm_compute; reflexivity).
  destruct (generation_guard strongMap _ _ _ _ (KString "c") someValue Hy)
    as (Hinit & Hdel' & Hclear & _).
  destruct (generation_guard strongMap _ _ _ _ (KString "b") someValue Hy)
    as (_ & Hdel & _ & Hset).
  split; [exact Hy|].
  split; [vm_compute; reflexivity|].
  split; [vm_compute; reflexivity|].
  split; [apply Hinit; vm_compute; reflexivity|].
  split; [vm_compute; reflexivity|].
  split; [apply (Hdel _ (Ok tt)); vm_compute; reflexivity|].
  split; [vm_compute; reflexivity|].
  split; [apply (Hdel' _ (Throw NotFound)); vm_compute; reflexivity|].
  split; [vm_compute; reflexivity|].
  split; [apply (Hclear None None); vm_compute; reflexivity|].
  split; [vm_compute; reflexivity|].
  apply (Hset _ (Ok tt)); vm_compute; reflexivity.
Defined.

(** C6: the generation guard fails after a [clear] that throws
    part-way.  With the keys [true] and -1 in the collection and an
    iterator of [keys] that has just yielded [true], [clear] deletes the
    row of [true] and lowers the size, then meets the key of -1, which
    [dbKeyToKey] decodes to another number (the defect of C1), and throws
    "not found" out of [deleteInternal] before it reaches its increment
    of the generation number.  The store has changed, the generation
    number has not, and the next step of the open iterator yields a key
    where it should fail with a concurrent modification. *)
Theorem interrupted_clear_keeps_iterator_open :
  let st := Samples.trueAndMinusOne in
  let it := (next strongMap (keys None None) st).1 in
  let st' := (clear strongMap None None st).1 in
  next strongMap (keys None None) st = (it, Ok (Some (KBoolean true, None))) /\
  isOpen it = true /\
  (clear strongMap None None st).2 = Throw NotFound /\
  is_Some (vatstore st !! "vc.1.btrue") /\
  vatstore st' !! "vc.1.btrue" = None /\
  size st = 2 /\ size st' = 1 /\
  currentGenerationNumber st' = currentGenerationNumber st /\
  (keysNext strongMap it st').2 = Ok (Some (KNumber 0xc00fffffffffffff)) /\
  ~ guardTrips strongMap it st'.
Proof.
  intros st it st'.
  assert (Hk : (keysNext strongMap it st').2
               = Ok (Some (KNumber 0xc00fffffffffffff)))
    by (vm_compute; reflexivity).
  split; [vm_compute; reflexivity|]. split; [vm_compute; reflexivity|].
  split; [vm_compute; reflexivity|]. split; [vm_compute; eauto|].
  split; [vm_compute; reflexivity|]. split; [vm_compute; reflexivity|].
  split; [vm_compute; reflexivity|]. split; [vm_compute; reflexivity|].
  split; [exact Hk|].
  intros [H _]. rewrite Hk in H. discriminate.
Qed.

End Concrete.

(** * Laws of the codec, the engine and the manager *)

(** ** The codec *)

Module PadFacts.

(** [substring] on a text in two parts. *)
Lemma drop_app_le (n : nat) (a b : string) :
  (n <= String.length a)%nat -> JsString.drop n (a +:+ b) = JsString.drop n a +:+ b.
Proof.
  revert a. induction n as [|n IH]; intros a Hn; [reflexivity|].
  destruct a as [|x a]; simpl in Hn; [lia|].
  change (String x a +:+ b) with (String x (a +:+ b)).
  simpl. apply IH. lia.
Qed.

Lemma drop_app_ge (n : nat) (a b : string) :
  JsString.drop (String.length a + n) (a +:+ b) = JsString.drop n b.
Proof.
  induction a as [|x a IH]; [reflexivity|].
  change (String x a +:+ b) with (String x (a +:+ b)).
  simpl. exact IH.
Qed.

End PadFacts.

(** X1: [zeroPad] gives [size] characters as long as the text and the
    eighteen zeros reach that far: it pads a shorter text with zeros on
    the left and cuts a longer text down to its last [size] characters;
    beyond eighteen zeros it pads no further. *)
Theorem zeroPad_shape (n : string) (size : Z) :
  String.length (zeroPad n size) = Z.to_nat (Z.min size (18 + JsString.len n)) /\
  (JsString.len n <= size ->
   zeroPad n size
   = JsString.substring (18 + JsString.len n - size) "000000000000000000"
     +:+ n) /\
  (0 <= size <= JsString.len n ->
   zeroPad n size = JsString.substring (JsString.len n - size) n).
Proof.
  unfold zeroPad, JsString.substring, JsString.len.
  rewrite StringFacts.length_drop, !StringFacts.length_app.
  change (String.length "000000000000000000") with 18%nat.
  split; [lia|]. split.
  - intros H.
    replace (Z.to_nat (18 + Z.of_nat (String.length n) - size))
      with (Z.to_nat (Z.of_nat (18 + String.length n) - size)) by lia.
    apply PadFacts.drop_app_le.
    change (String.length "000000000000000000") with 18%nat. lia.
  - intros H.
    replace (Z.to_nat (Z.of_nat (18 + String.length n) - size))
      with (String.length "000000000000000000"
            + Z.to_nat (Z.of_nat (String.length n) - size))%nat
      by (change (String.length "000000000000000000") with 18%nat; lia).
    apply PadFacts.drop_app_ge.
Qed.

(** X2: the key of a number that is not less than zero is ["f"] and sixteen
    hexadecimal digits, and decodes to the number. *)
Theorem number_key_decodes (n : Z) :
  Float64.wf n -> Float64.ltZero n = false ->
  String.length (numberToDBEntryKey n) = 17%nat /\
  dbEntryKeyToNumber (numberToDBEntryKey n) = Some n.
Proof.
  intros Hwf Hlt. split; [|apply NumberKeys.number_key_round_trip; assumption].
  rewrite NumberKeys.key_shape.
  destruct (HexFacts.hex16 (keyBits n) (NumberKeys.keyBits_range n Hwf))
    as (d & -> & Hlen & _).
  simpl. rewrite Hlen. reflexivity.
Qed.

(** X3: the keys of two ordinary doubles compare as the doubles do in the
    total order of IEEE 754. *)
Theorem number_keys_sort_as_numbers (a b : Z) :
  Float64.wf a -> Float64.wf b -> ordinary a -> ordinary b ->
  (String.ltb (numberToDBEntryKey a) (numberToDBEntryKey b) = true
   <-> Float64.totalOrderLt a b).
Proof. apply NumberKeys.number_key_order. Qed.

(** X4: the key of a bigint that [zeroPad] can pad decodes to the bigint. *)
Theorem bigint_key_decodes (n : Z) :
  representable n ->
  dbEntryKeyToBigint (bigintToDBEntryKey n) = Some n.
Proof. apply BigintKeys.bigint_key_round_trip. Qed.

(** X5: the keys of two bigints that [zeroPad] can pad compare as the
    bigints do. *)
Theorem bigint_keys_sort_as_bigints (a b : Z) :
  representable a -> representable b ->
  (String.ltb (bigintToDBEntryKey a) (bigintToDBEntryKey b) = true
   <-> a < b).
Proof.
  intros Ha Hb. split; [|intros H; apply BigintKeys.bigint_key_order; auto].
  intros H. destruct (Z.lt_trichotomy a b) as [Hlt|[->|Hgt]]; [exact Hlt| |].
  - rewrite StringOrder.ltb_irrefl in H. discriminate.
  - pose proof (BigintKeys.bigint_key_order b a Hgt Hb Ha) as H'.
    pose proof (StringOrder.ltb_trans _ _ _ H H') as Hc.
    rewrite StringOrder.ltb_irrefl in Hc. discriminate.
Qed.

(** ** Keys and database keys *)

Section KeyLaws.

Context {V value pattern : Type}.
Context `{PK : PatternKit value pattern}.
Context `{MA : Marshal value pattern}.
Context `{RM : RefManager V}.

Variable c : collection pattern.

(** X6: while the ordinals have at most ten digits, the keys of remotables
    sort in the order of their ordinals, whatever their slots. *)
Theorem remotable_keys_sort_by_ordinal (s1 s2 : string) (a b : Z)
    (st : state V) :
  0 <= a < b -> b < 10 ^ 10 ->
  vatstore st !! prefix c ("|" +:+ s1) = Some (JsString.ofZ a) ->
  vatstore st !! prefix c ("|" +:+ s2) = Some (JsString.ofZ b) ->
  exists e1 e2,
    (encodeKey c (KRemotable s1) st).2 = Ok e1 /\
    (encodeKey c (KRemotable s2) st).2 = Ok e2 /\
    String.ltb e1 e2 = true.
Proof.
  intros Hab Hb H1 H2.
  unfold encodeKey, getOrdinal, bind, vatstoreGet, ret. simpl.
  rewrite H1, H2. simpl. eexists _, _. split; [reflexivity|].
  split; [reflexivity|].
  destruct (BigintKeys.length_tag a) as (d1 & -> & Hl1 & Hv1); [lia|].
  destruct (BigintKeys.length_tag b) as (d2 & -> & Hl2 & Hv2); [lia|].
  change ("r" +:+ ?x) with (String "r" x).
  rewrite BigintKeys.ltb_cons. unfold String.ltb.
  rewrite BigintKeys.compare_app by congruence.
  rewrite DecFacts.dec_compare_value by congruence.
  rewrite Hv1, Hv2.
  destruct (Z.compare_spec a b); (reflexivity || lia).
Qed.

(** X7: a key that is restorable comes back from the database key
    [keyToDBKey] gives it. *)
Theorem stored_key_decodes (k : key) (st : state V) (dbKey : string) :
  restorable k ->
  (keyToDBKey c k st).2 = Ok dbKey ->
  dbKeyToKey c dbKey = Ok k.
Proof.
  intros Hk. unfold keyToDBKey, bind.
  destruct (encodeKey c k st) as [st1 [e|e1]] eqn:He; simpl; [|discriminate].
  intros H. inversion H; subst.
  apply (key_round_trip c k st e Hk). rewrite He. reflexivity.
Qed.

(** X8: two restorable keys with one database key are one key. *)
Theorem db_keys_distinct (k1 k2 : key) (st : state V) (dbKey : string) :
  restorable k1 -> restorable k2 ->
  (keyToDBKey c k1 st).2 = Ok dbKey ->
  (keyToDBKey c k2 st).2 = Ok dbKey ->
  k1 = k2.
Proof.
  intros Hk1 Hk2 H1 H2.
  assert (D : forall k, restorable k -> (keyToDBKey c k st).2 = Ok dbKey ->
                        dbKeyToKey c dbKey = Ok k).
  { intros k Hk. unfold keyToDBKey, bind.
    destruct (encodeKey c k st) as [st1 [e|e1]] eqn:He; simpl; [|discriminate].
    intros H. inversion H; subst.
    apply (key_round_trip c k st e Hk). rewrite He. reflexivity. }
  pose proof (D k1 Hk1 H1) as E1. pose proof (D k2 Hk2 H2) as E2.
  rewrite E1 in E2. inversion E2. reflexivity.
Qed.

(** X9: the rows of the metadata, and the prefix alone, are not the database
    key of any key: decoding them fails. *)
Theorem metadata_rows_do_not_decode (x : string) :
  dbKeyToKey c (prefix c ("|" +:+ x)) = Throw DecodeCorruption /\
  dbKeyToKey c (prefix c "") = Throw DecodeCorruption.
Proof.
  unfold dbKeyToKey. rewrite !dbEntryKey_of_prefix. split; reflexivity.
Qed.

End KeyLaws.

(** ** [init], [get], [set] and [delete] together *)

Section EngineLaws.

Context {V value pattern : Type}.
Context `{PK : PatternKit value pattern}.
Context `{MA : Marshal value pattern}.
Context `{RM : RefManager V}.

Variable c : collection pattern.

(** [encodeKey] only reads. *)
Lemma encodeKey_eta (k : key) (st : state V) :
  encodeKey c k st = (st, (encodeKey c k st).2).
Proof.
  pose proof (encodeKey_reads c k st) as Hr.
  destruct (encodeKey c k st) as [st1 r]; simpl in *; subst; reflexivity.
Qed.

(** The key of an entry depends on the store through the ordinal row of
    a remotable only. *)
Lemma encodeKey_stable (k : key) (st st' : state V) :
  (forall slot, k = KRemotable slot ->
     vatstore st' !! prefix c ("|" +:+ slot)
     = vatstore st !! prefix c ("|" +:+ slot)) ->
  (encodeKey c k st').2 = (encodeKey c k st).2.
Proof.
  intros H. destruct k; try reflexivity.
  unfold_engine. simpl. rewrite (H slot eq_refl).
  destruct (vatstore st !! prefix c ("|" +:+ slot)); reflexivity.
Qed.

(** What [has] and [get] answer on a key that has its row. *)
Lemma has_of_row (k : key) (st : state V) (e : string) :
  matches k (keySchema c) = true ->
  (encodeKey c k st).2 = Ok e ->
  is_Some (vatstore st !! prefix c e) ->
  has c k st = (st, Ok true).
Proof.
  intros Hm He Hrow. unfold has. rewrite Hm. simpl.
  destruct (encodeKey_tag c k st e He) as (ch & rest & _ & _ & Hk).
  destruct k;
    try (unfold keyToDBKey, bind; rewrite encodeKey_eta, He; simpl;
         unfold ret, vatstoreGet; simpl;
         rewrite bool_decide_eq_true_2; [reflexivity|assumption]).
  destruct Hk as (o & Ho & _).
  unfold_engine. simpl. rewrite Ho. reflexivity.
Qed.

Lemma get_of_row (k : key) (st : state V) (e j : string) (cd : capdata) :
  matches k (keySchema c) = true ->
  (encodeKey c k st).2 = Ok e ->
  vatstore st !! prefix c e = Some j ->
  j <> "" ->
  JSON_parse j = Some cd ->
  get c k st = (st, Ok (unserialize cd)).
Proof.
  intros Hm He Hrow Hj Hp. unfold get, bind at 1, assert. rewrite Hm. simpl.
  unfold keyToDBKey, bind. rewrite encodeKey_eta, He. simpl.
  unfold ret, vatstoreGet. simpl. rewrite Hrow. simpl.
  destruct (String.eqb j "") eqn:E; [apply String.eqb_eq in E; contradiction|].
  simpl. rewrite Hp. reflexivity.
Qed.

(** What a successful [init] has done. *)
Lemma init_success (k : key) (v : value) (st st' : state V) :
  init c k v st = (st', Ok tt) ->
  matches k (keySchema c) = true /\
  has c k st = (st, Ok false) /\
  currentGenerationNumber st' = currentGenerationNumber st + 1 /\
  size st' = size st + 1 /\
  vrm st' = retainSlots (slots (serialize v)) (retainKey c k (vrm st)) /\
  exists e, (encodeKey c k st').2 = Ok e /\
    vatstore st' =
      <[prefix c e := JSON_stringify (serialize v)]>
        match k with
        | KRemotable slot => vatstore (generateOrdinal c slot st).1
        | _ => vatstore st
        end.
Proof.
  unfold init, bind at 1, assert.
  destruct (matches k (keySchema c)) eqn:Hm; simpl;
    [|unfold throw; intros Hd; inversion Hd].
  unfold bind at 1.
  pose proof (has_reads c k st) as Hr.
  destruct (has c k st) as [st1 [present|e1]] eqn:Hhas; simpl in Hr; subst st1;
    [|intros Hd; inversion Hd].
  destruct present; simpl;
    [unfold bind, throw; simpl; intros Hd; inversion Hd|].
  intros Hd. split; [reflexivity|]. split; [reflexivity|].
  revert Hd.
  destruct k.
  9: { unfold_engine. simpl. discriminate. }
  7: { unfold_engine. simpl. intros Hd.
    destruct (hasWeakKeys c); simpl in Hd;
      match type of Hd with
      | context [match ?m !! ?key with _ => _ end] =>
          assert (Hsome : is_Some (m !! key))
            by (apply lookup_insert_is_Some;
                destruct (decide (prefix c "|nextOrdinal"
                                  = prefix c ("|" +:+ slot)));
                [left; assumption|right; split; [assumption|]];
                rewrite lookup_insert_eq; eauto);
          destruct Hsome as [o' Ho']; rewrite Ho' in Hd
      end; simpl in Hd; inversion Hd; subst; simpl;
      (split; [reflexivity|]); (split; [reflexivity|]);
      (split; [reflexivity|]);
      rewrite lookup_insert_ne by (apply not_eq_sym, meta_ne_row);
      rewrite Ho'; simpl; eexists; (split; [reflexivity|]);
      reflexivity. }
  all: unfold_engine; simpl; intros Hd; inversion Hd; subst; simpl;
    (split; [reflexivity|]); (split; [reflexivity|]);
    (split; [reflexivity|]);
    eexists; (split; [reflexivity|]); reflexivity.
Qed.

Lemma truthy_nonempty (raw : string) : truthy (Some raw) = true -> raw <> "".
Proof.
  simpl. intros H ->. discriminate.
Qed.

(** What a successful [set] has done, and what a failed one has not. *)
Lemma set_success (k : key) (v : value) (st st' : state V) :
  set c k v st = (st', Ok tt) ->
  matches k (keySchema c) = true /\
  exists e raw before,
    (encodeKey c k st).2 = Ok e /\
    vatstore st !! prefix c e = Some raw /\ raw <> "" /\
    JSON_parse raw = Some before /\
    st' = State (<[prefix c e := JSON_stringify (serialize v)]> (vatstore st))
            (updateReferenceCounts (slots before) (slots (serialize v))
               (vrm st))
            (currentGenerationNumber st) (size st).
Proof.
  unfold set, bind at 1, assert.
  destruct (matches k (keySchema c)); simpl;
    [|unfold throw; intros Hd; inversion Hd].
  unfold keyToDBKey, bind at 1 2. rewrite encodeKey_eta.
  destruct (encodeKey c k st).2 as [e|e1]; [|intros Hd; inversion Hd].
  unfold_engine. simpl.
  destruct (truthy (vatstore st !! prefix c e)) eqn:Ht; simpl;
    [|intros Hd; inversion Hd].
  destruct (vatstore st !! prefix c e) as [raw|] eqn:Hrow; simpl;
    [|intros Hd; inversion Hd].
  apply truthy_nonempty in Ht.
  destruct (JSON_parse raw) as [before|] eqn:Hp; simpl;
    [|intros Hd; inversion Hd].
  intros Hd. inversion Hd; subst. split; [reflexivity|].
  exists e, raw, before. repeat split; auto.
Qed.

Lemma set_failure (k : key) (v : value) (st st' : state V) (e : error) :
  set c k v st = (st', Throw e) -> st' = st.
Proof.
  unfold set, bind at 1, assert.
  destruct (matches k (keySchema c)); simpl;
    [|unfold throw; intros Hd; inversion Hd; reflexivity].
  unfold keyToDBKey, bind at 1 2. rewrite encodeKey_eta.
  destruct (encodeKey c k st).2 as [e0|e1];
    [|intros Hd; inversion Hd; reflexivity].
  unfold_engine. simpl.
  destruct (truthy (vatstore st !! prefix c e0)) eqn:Ht; simpl;
    [|intros Hd; inversion Hd; reflexivity].
  destruct (vatstore st !! prefix c e0) as [raw|] eqn:Hrow; simpl;
    [|intros Hd; inversion Hd; reflexivity].
  destruct (JSON_parse raw) as [before|] eqn:Hp; simpl;
    intros Hd; inversion Hd; reflexivity.
Qed.

(** What a successful [deleteInternal] has done. *)
Lemma deleteInternal_success (k : key) (st st' : state V) :
  deleteInternal c k st = (st', Ok tt) ->
  matches k (keySchema c) = true /\
  exists e raw val,
    (encodeKey c k st).2 = Ok e /\
    vatstore st !! prefix c e = Some raw /\ raw <> "" /\
    JSON_parse raw = Some val /\
    vatstore st' =
      match k with
      | KRemotable slot =>
          delete (prefix c ("|" +:+ slot)) (delete (prefix c e) (vatstore st))
      | _ => delete (prefix c e) (vatstore st)
      end /\
    vrm st' = releaseKey c k (releaseSlots (slots val) (vrm st)) /\
    size st' = size st - 1 /\
    currentGenerationNumber st' = currentGenerationNumber st.
Proof.
  unfold deleteInternal, bind at 1, assert.
  destruct (matches k (keySchema c)); simpl;
    [|unfold throw; intros Hd; inversion Hd].
  unfold keyToDBKey, bind at 1 2. rewrite encodeKey_eta.
  destruct (encodeKey c k st).2 as [e|e1]; [|intros Hd; inversion Hd].
  unfold_engine. simpl.
  destruct (truthy (vatstore st !! prefix c e)) eqn:Ht; simpl;
    [|intros Hd; inversion Hd].
  destruct (vatstore st !! prefix c e) as [raw|] eqn:Hrow; simpl;
    [|intros Hd; inversion Hd].
  apply truthy_nonempty in Ht.
  destruct (JSON_parse raw) as [val|] eqn:Hp; simpl;
    [|intros Hd; inversion Hd].
  intros Hd. split; [reflexivity|]. exists e, raw, val.
  unfold releaseKey, releaseSlots.
  destruct k; simpl in Hd; try destruct (hasWeakKeys c); simpl in Hd;
    inversion Hd; subst; simpl; repeat split; auto.
Qed.

(** What [has], [get] and [set] answer on a key without its row, or
    without its ordinal. *)
Lemma absent_plain (k : key) (st : state V) (e : string) :
  (forall slot, k <> KRemotable slot) ->
  matches k (keySchema c) = true ->
  (encodeKey c k st).2 = Ok e ->
  vatstore st !! prefix c e = None ->
  has c k st = (st, Ok false) /\
  get c k st = (st, Throw (absentError k)) /\
  forall v, set c k v st = (st, Throw (absentError k)).
Proof.
  intros Hk Hm He Hrow.
  assert (Ha : absentError k = NotFound)
    by (destruct k; try reflexivity; exfalso; eapply Hk; reflexivity).
  rewrite Ha. split; [|split; [|intros v]].
  - unfold has. rewrite Hm. simpl.
    destruct k; try (exfalso; eapply Hk; reflexivity);
      unfold keyToDBKey, bind; rewrite encodeKey_eta, He; simpl;
      unfold ret, vatstoreGet; simpl; rewrite Hrow; reflexivity.
  - unfold get, bind at 1, assert. rewrite Hm. simpl.
    unfold keyToDBKey, bind. rewrite encodeKey_eta, He. simpl.
    unfold ret, vatstoreGet. simpl. rewrite Hrow. reflexivity.
  - unfold set, bind at 1, assert. rewrite Hm. simpl.
    unfold keyToDBKey, bind. rewrite encodeKey_eta, He. simpl.
    unfold ret, vatstoreGet. simpl. rewrite Hrow. reflexivity.
Qed.

Lemma absent_remotable (slot : string) (st : state V) :
  matches (KRemotable slot) (keySchema c) = true ->
  vatstore st !! prefix c ("|" +:+ slot) = None ->
  has c (KRemotable slot) st = (st, Ok false) /\
  get c (KRemotable slot) st = (st, Throw OrdinalMissing) /\
  forall v, set c (KRemotable slot) v st = (st, Throw OrdinalMissing).
Proof.
  intros Hm Ho. split; [|split; [|intros v]].
  - unfold has. rewrite Hm. unfold_engine. simpl. rewrite Ho. reflexivity.
  - unfold get, bind at 1, assert. rewrite Hm. unfold_engine. simpl.
    rewrite Ho. reflexivity.
  - unfold set, bind at 1, assert. rewrite Hm. unfold_engine. simpl.
    rewrite Ho. reflexivity.
Qed.

(** X10: after [init] has stored a key, [has] finds it and [get] returns the
    value as it comes back from the stored text. *)
Theorem init_then_has_and_get (k : key) (v : value) (st st' : state V) :
  init c k v st = (st', Ok tt) ->
  has c k st' = (st', Ok true) /\
  forall cd,
    JSON_stringify (serialize v) <> "" ->
    JSON_parse (JSON_stringify (serialize v)) = Some cd ->
    get c k st' = (st', Ok (unserialize cd)).
Proof.
  intros Hi.
  destruct (init_success k v st st' Hi)
    as (Hm & _ & _ & _ & _ & e & He & Hv).
  assert (Hrow : vatstore st' !! prefix c e
                 = Some (JSON_stringify (serialize v)))
    by (rewrite Hv; apply lookup_insert_eq).
  split.
  - apply (has_of_row k st' e Hm He). eauto.
  - intros cd Hj Hp. exact (get_of_row k st' e _ cd Hm He Hrow Hj Hp).
Qed.

Lemma set_success_after (k : key) (v : value) (st st' : state V) :
  set c k v st = (st', Ok tt) ->
  matches k (keySchema c) = true /\
  exists e, (encodeKey c k st').2 = Ok e /\
    vatstore st' !! prefix c e = Some (JSON_stringify (serialize v)).
Proof.
  intros Hs.
  destruct (set_success k v st st' Hs)
    as (Hm & e & raw & before & He & Hrow & Hne & Hp & ->).
  split; [exact Hm|]. exists e. split.
  - rewrite <- He. apply encodeKey_stable. intros slot ->. simpl.
    destruct (encodeKey_tag c _ st e He) as (ch & rest & -> & Hbar & _).
    apply lookup_insert_ne, key_ne_meta. exact Hbar.
  - simpl. apply lookup_insert_eq.
Qed.

(** X11: after [set] has replaced the value of a key, [get] returns the new
    value; the key stays present. *)
Theorem set_then_get (k : key) (v : value) (st st' : state V) :
  set c k v st = (st', Ok tt) ->
  has c k st' = (st', Ok true) /\
  forall cd,
    JSON_stringify (serialize v) <> "" ->
    JSON_parse (JSON_stringify (serialize v)) = Some cd ->
    get c k st' = (st', Ok (unserialize cd)).
Proof.
  intros Hs.
  destruct (set_success_after k v st st' Hs) as (Hm & e & He & Hrow).
  split.
  - apply (has_of_row k st' e Hm He). eauto.
  - intros cd Hj Hp. exact (get_of_row k st' e _ cd Hm He Hrow Hj Hp).
Qed.

(** X12: after [delete] has removed a key, [has] answers false and [get]
    fails. *)
Theorem delete_then_absent (k : key) (st st' : state V) :
  del c k st = (st', Ok tt) ->
  has c k st' = (st', Ok false) /\
  get c k st' = (st', Throw (absentError k)) /\
  size st' = size st - 1.
Proof.
  unfold del, bind at 1. unfold bumpGeneration at 1.
  set (st0 := State (vatstore st) (vrm st) (currentGenerationNumber st + 1)
                (size st)).
  intros Hd.
  destruct (deleteInternal_success k st0 st' Hd)
    as (Hm & e & raw & val & He & Hrow & _ & _ & Hv & _ & Hsz & _).
  assert (Habs : has c k st' = (st', Ok false) /\
                 get c k st' = (st', Throw (absentError k)) /\
                 forall v, set c k v st' = (st', Throw (absentError k))).
  { destruct (encodeKey_tag c k st0 e He) as (ch & rest & -> & Hbar & Hk).
    assert (Hcase : (exists slot, k = KRemotable slot)
                    \/ forall slot, k <> KRemotable slot)
      by (destruct k; eauto; right; discriminate).
    destruct Hcase as [[slot ->]|Hk'].
    - apply absent_remotable; [exact Hm|]. rewrite Hv. apply lookup_delete_eq.
    - apply (absent_plain k st' (String ch rest) Hk' Hm).
      + rewrite <- He. apply encodeKey_stable. intros slot E.
        exfalso. exact (Hk' slot E).
      + rewrite Hv. destruct k; try apply lookup_delete_eq.
        exfalso. eapply Hk'. reflexivity. }
  destruct Habs as (Hh & Hg & _). auto.
Qed.

(** X13: on a key the schema accepts and the collection does not hold, [get]
    and [set] fail and change nothing. *)
Theorem absent_key_fails (k : key) (st : state V) :
  matches k (keySchema c) = true ->
  has c k st = (st, Ok false) ->
  get c k st = (st, Throw (absentError k)) /\
  forall v, set c k v st = (st, Throw (absentError k)).
Proof.
  intros Hm. unfold has. rewrite Hm. simpl.
  destruct k.
  9: { unfold_engine. simpl. discriminate. }
  7: { intros Hh. apply absent_remotable; [exact Hm|].
       revert Hh. unfold_engine. simpl.
       destruct (vatstore st !! prefix c ("|" +:+ slot)); [|reflexivity].
       intros Hh. inversion Hh. }
  all: unfold keyToDBKey, bind; rewrite encodeKey_eta;
    destruct (encodeKey c _ st).2 as [e|e1] eqn:He; [|discriminate];
    simpl; unfold ret, vatstoreGet; simpl; intros Hh;
    eapply absent_plain; try eassumption;
    [intros slot0; discriminate|];
    destruct (vatstore st !! prefix c e); [inversion Hh|reflexivity].
Qed.

(** X14: [set] changes neither the size, nor the generation number, nor the
    set of rows; when it fails it changes nothing. *)
Theorem set_keeps_shape (k : key) (v : value) (st : state V) :
  size (set c k v st).1 = size st /\
  currentGenerationNumber (set c k v st).1 = currentGenerationNumber st /\
  dom (vatstore (set c k v st).1) = dom (vatstore st) /\
  (isThrow (set c k v st).2 = true -> (set c k v st).1 = st).
Proof.
  destruct (set c k v st) as [st' [[]|e]] eqn:Hs; simpl.
  - destruct (set_success k v st st' Hs)
      as (_ & e & raw & before & _ & Hrow & _ & _ & ->).
    simpl. repeat split; try discriminate.
    apply dom_insert_lookup_L. eauto.
  - rewrite (set_failure k v st st' e Hs). repeat split; auto.
Qed.

(** [deleteInternal] on a key whose row holds a text that parses. *)
Lemma deleteInternal_of_row (k : key) (st : state V) (e raw : string)
    (val : capdata) :
  matches k (keySchema c) = true ->
  (encodeKey c k st).2 = Ok e ->
  vatstore st !! prefix c e = Some raw ->
  raw <> "" ->
  JSON_parse raw = Some val ->
  deleteInternal c k st =
  (State
     match k with
     | KRemotable slot =>
         delete (prefix c ("|" +:+ slot)) (delete (prefix c e) (vatstore st))
     | _ => delete (prefix c e) (vatstore st)
     end
     (releaseKey c k (releaseSlots (slots val) (vrm st)))
     (currentGenerationNumber st) (size st + -1),
   Ok tt).
Proof.
  intros Hm He Hrow Hne Hp.
  unfold deleteInternal, bind at 1, assert. rewrite Hm. simpl.
  unfold keyToDBKey, bind at 1 2. rewrite encodeKey_eta, He.
  unfold_engine. simpl. rewrite Hrow. simpl.
  destruct (String.eqb raw "") eqn:E; [apply String.eqb_eq in E; contradiction|].
  simpl. rewrite Hp. simpl.
  unfold releaseKey, releaseSlots.
  destruct k; simpl; try reflexivity.
  destruct (hasWeakKeys c); reflexivity.
Qed.

(** Why [has] answers false on a key that the schema accepts. *)
Lemma has_false_cases (k : key) (st : state V) :
  matches k (keySchema c) = true ->
  has c k st = (st, Ok false) ->
  (exists slot, k = KRemotable slot /\
                vatstore st !! prefix c ("|" +:+ slot) = None) \/
  ((forall slot, k <> KRemotable slot) /\
   exists e, (encodeKey c k st).2 = Ok e /\
             vatstore st !! prefix c e = None).
Proof.
  intros Hm. unfold has. rewrite Hm. simpl.
  destruct k.
  9: { unfold_engine. simpl. discriminate. }
  7: { intros Hh. left. exists slot. split; [reflexivity|].
       revert Hh. unfold_engine. simpl.
       destruct (vatstore st !! prefix c ("|" +:+ slot)); [|reflexivity].
       intros Hh. inversion Hh. }
  all: unfold keyToDBKey, bind; rewrite encodeKey_eta;
    destruct (encodeKey c _ st).2 as [e|e1] eqn:He; [|discriminate];
    simpl; unfold ret, vatstoreGet; simpl; intros Hh;
    right; (split; [intros slot0; discriminate|]);
    exists e; (split; [reflexivity|]);
    destruct (vatstore st !! prefix c e); [inversion Hh|reflexivity].
Qed.

(** The rows of a remotable, written and deleted again, leave the store
    as it was but for the row of the next ordinal. *)
Lemma remotable_rows_back (m : gmap string string) (slot tag o n1 j K : string) :
  String.length tag = 10%nat ->
  m !! prefix c ("|" +:+ slot) = None ->
  m !! prefix c ("r" +:+ tag +:+ ":" +:+ slot) = None ->
  K <> prefix c "|nextOrdinal" ->
  let m1 := <[prefix c ("r" +:+ tag +:+ ":" +:+ slot) := j]>
              (<[prefix c "|nextOrdinal" := n1]>
                 (<[prefix c ("|" +:+ slot) := o]> m)) in
  delete (prefix c ("|" +:+ slot))
    (delete (prefix c ("r" +:+ tag +:+ ":" +:+ slot)) m1) !! K = m !! K /\
  delete (prefix c ("r" +:+ tag +:+ ":" +:+ slot))
    (delete (prefix c ("|" +:+ slot)) m1) !! K = m !! K.
Proof.
  intros Htag Ho Hr HK m1. subst m1.
  pose proof (meta_ne_row c slot (tag +:+ ":" +:+ slot)) as Hne.
  destruct (decide (K = prefix c ("|" +:+ slot))) as [->|HKo];
    [|destruct (decide (K = prefix c ("r" +:+ tag +:+ ":" +:+ slot)))
        as [->|HKr]].
  - rewrite lookup_delete_eq, lookup_delete_ne, lookup_delete_eq by auto.
    auto.
  - rewrite lookup_delete_ne, !lookup_delete_eq by auto. auto.
  - rewrite !lookup_delete_ne, !lookup_insert_ne by auto. auto.
Qed.

(** X15: [delete] undoes [init]: the rows are as before but for the row of
    the next ordinal, the size is as before, and every reference [init]
    took is given back. *)
Theorem init_then_delete_restores (k : key) (v : value) (st st1 : state V)
    (cd : capdata) :
  wellFormed c st ->
  init c k v st = (st1, Ok tt) ->
  JSON_stringify (serialize v) <> "" ->
  JSON_parse (JSON_stringify (serialize v)) = Some cd ->
  exists st2,
    del c k st1 = (st2, Ok tt) /\
    size st2 = size st /\
    vrm st2 = releaseKey c k
                (releaseSlots (slots cd)
                   (retainSlots (slots (serialize v))
                      (retainKey c k (vrm st)))) /\
    forall K, K <> prefix c "|nextOrdinal" ->
      vatstore st2 !! K = vatstore st !! K.
Proof.
  intros (_ & _ & Hord) Hi Hj Hp.
  destruct (init_success k v st st1 Hi)
    as (Hm & Hhas & _ & Hsz & Hvrm & e & He & Hv).
  assert (Hrow : vatstore st1 !! prefix c e
                 = Some (JSON_stringify (serialize v)))
    by (rewrite Hv; apply lookup_insert_eq).
  eexists. split.
  { unfold del, bind at 1. unfold bumpGeneration at 1. cbv beta iota.
    apply (deleteInternal_of_row k _ e (JSON_stringify (serialize v)) cd);
      simpl; auto.
    rewrite <- He. apply encodeKey_stable. reflexivity. }
  simpl. split; [lia|]. split; [rewrite Hvrm; reflexivity|].
  intros K HK.
  destruct (has_false_cases k st Hm Hhas)
    as [(slot & -> & Ho)|(Hk & e0 & He0 & Hnone)].
  - destruct (encodeKey_tag c _ st1 e He) as (ch & rest & _ & _ & o' & _ & ->).
    rewrite Hv.
    assert (Hlen : String.length (zeroPad o' BIGINT_TAG_LEN) = 10%nat)
      by apply StringFacts.zeroPad_length.
    apply remotable_rows_back; auto.
    destruct (vatstore st !! prefix c
                ("r" +:+ zeroPad o' BIGINT_TAG_LEN +:+ ":" +:+ slot))
      eqn:E; [|reflexivity].
    destruct (Hord _ slot Hlen) as (_ & o & Ho' & _); [rewrite E; eauto|].
    rewrite Ho in Ho'. discriminate.
  - assert (e = e0).
    { assert (H : (encodeKey c k st1).2 = (encodeKey c k st).2)
        by (apply encodeKey_stable; intros slot E; exfalso; exact (Hk slot E)).
      rewrite He, He0 in H. inversion H. reflexivity. }
    subst e0.
    replace (vatstore st1) with
      (<[prefix c e := JSON_stringify (serialize v)]> (vatstore st))
      by (rewrite Hv; destruct k; try reflexivity;
          exfalso; eapply Hk; reflexivity).
    destruct k; try (exfalso; eapply Hk; reflexivity);
      (destruct (decide (K = prefix c e)) as [->|HKe];
       [rewrite lookup_delete_eq; auto
       |rewrite lookup_delete_ne, lookup_insert_ne by auto; reflexivity]).
Qed.

(** X16: reclaiming a remotable key of a weak collection removes the rows
    that [init] wrote for it. *)
Theorem entryDeleter_undoes_init (slot : string) (v : value)
    (st st1 : state V) :
  wellFormed c st ->
  init c (KRemotable slot) v st = (st1, Ok tt) ->
  exists st2,
    entryDeleter c slot st1 = (st2, Ok tt) /\
    has c (KRemotable slot) st2 = (st2, Ok false) /\
    forall K, K <> prefix c "|nextOrdinal" ->
      vatstore st2 !! K = vatstore st !! K.
Proof.
  intros (_ & _ & Hord) Hi.
  destruct (init_success _ v st st1 Hi)
    as (Hm & Hhas & _ & _ & _ & e & He & Hv).
  destruct (encodeKey_tag c _ st1 e He) as (ch & rest & _ & _ & o' & Ho' & ->).
  destruct (has_false_cases _ st Hm Hhas)
    as [(slot0 & E & Ho)|(Hk & _)]; [|exfalso; eapply Hk; reflexivity].
  inversion E; subst slot0; clear E.
  assert (Hlen : String.length (zeroPad o' BIGINT_TAG_LEN) = 10%nat)
    by apply StringFacts.zeroPad_length.
  assert (Hr : vatstore st !! prefix c
                 ("r" +:+ zeroPad o' BIGINT_TAG_LEN +:+ ":" +:+ slot) = None).
  { destruct (vatstore st !! prefix c
                ("r" +:+ zeroPad o' BIGINT_TAG_LEN +:+ ":" +:+ slot))
      eqn:E; [|reflexivity].
    destruct (Hord _ slot Hlen) as (_ & o & Ho'' & _); [rewrite E; eauto|].
    rewrite Ho in Ho''. discriminate. }
  eexists. split.
  { unfold entryDeleter, bind, vatstoreGet, vatstoreDelete. simpl.
    rewrite Ho'. simpl. reflexivity. }
  simpl. split.
  - apply absent_remotable; [exact Hm|]. simpl.
    rewrite lookup_delete_ne by (apply not_eq_sym, meta_ne_row).
    apply lookup_delete_eq.
  - intros K HK. rewrite Hv. apply remotable_rows_back; auto.
Qed.

End EngineLaws.

(** ** Collections side by side *)

Module DigitFacts.

(** The dot that ends the number of a collection is no decimal digit. *)
Lemma digit_dot : JsString.decDigit "."%char = None.
Proof. reflexivity. Qed.

Lemma digitPrefix_cons (x : ascii) (a : string) :
  JsString.digitPrefix (String x a) = String x a ->
  x <> "."%char /\ JsString.digitPrefix a = a.
Proof.
  simpl. destruct (JsString.decDigit x) eqn:Hx; [|discriminate].
  intros H. inversion H as [H']. rewrite !H'. split; [|reflexivity].
  intros ->. rewrite digit_dot in Hx. discriminate.
Qed.

Lemma prefix_cons (x y : ascii) (a b : string) :
  String.prefix (String x a) (String y b)
  = if ascii_dec x y then String.prefix a b else false.
Proof. reflexivity. Qed.

(** Two numerals that are followed by a dot, one text a prefix of the
    other, are one numeral. *)
Lemma digits_before_dot (a b r : string) :
  JsString.digitPrefix a = a -> JsString.digitPrefix b = b ->
  String.prefix (a +:+ ".") (b +:+ "." +:+ r) = true -> a = b.
Proof.
  revert b. induction a as [|x a IH]; intros [|y b] Ha Hb.
  - reflexivity.
  - apply digitPrefix_cons in Hb. destruct Hb as [Hy _].
    change ("" +:+ ".") with (String "." "").
    change (String y b +:+ "." +:+ r) with (String y (b +:+ "." +:+ r)).
    rewrite prefix_cons.
    destruct (ascii_dec "." y) as [<-|]; [contradiction|discriminate].
  - apply digitPrefix_cons in Ha. destruct Ha as [Hx _].
    change (String x a +:+ ".") with (String x (a +:+ ".")).
    change ("" +:+ "." +:+ r) with (String "." r).
    rewrite prefix_cons.
    destruct (ascii_dec x ".") as [->|]; [contradiction|discriminate].
  - apply digitPrefix_cons in Ha. destruct Ha as [_ Ha].
    apply digitPrefix_cons in Hb. destruct Hb as [_ Hb].
    change (String x a +:+ ".") with (String x (a +:+ ".")).
    change (String y b +:+ "." +:+ r) with (String y (b +:+ "." +:+ r)).
    rewrite prefix_cons.
    destruct (ascii_dec x y) as [->|]; [|discriminate].
    intros H. f_equal. apply IH; auto.
Qed.

Lemma ofZ_digits (n : Z) :
  0 <= n -> JsString.digitPrefix (JsString.ofZ n) = JsString.ofZ n.
Proof.
  intros Hn. rewrite (DecFacts.ofZ_uint n Hn).
  apply ParseIntFacts.digitPrefix_all.
Qed.

Lemma ofZ_inj (a b : Z) :
  0 <= a -> 0 <= b -> JsString.ofZ a = JsString.ofZ b -> a = b.
Proof.
  intros Ha Hb H.
  rewrite <- (DecFacts.decValue_ofZ a Ha), <- (DecFacts.decValue_ofZ b Hb), H.
  reflexivity.
Qed.

Lemma prefix_cancel (p a b : string) :
  String.prefix (p +:+ a) (p +:+ b) = String.prefix a b.
Proof.
  induction p as [|x p IH]; [reflexivity|].
  change (String x p +:+ a) with (String x (p +:+ a)).
  change (String x p +:+ b) with (String x (p +:+ b)).
  rewrite prefix_cons.
  destruct (ascii_dec x x); [exact IH|contradiction].
Qed.

Lemma append_assoc (a b d : string) : (a +:+ b) +:+ d = a +:+ (b +:+ d).
Proof.
  induction a as [|x a IH]; [reflexivity|].
  change (String x a +:+ b) with (String x (a +:+ b)).
  change (String x (a +:+ b) +:+ d) with (String x ((a +:+ b) +:+ d)).
  rewrite IH. reflexivity.
Qed.

End DigitFacts.


Section Isolation.

Context {V value pattern : Type}.
Context `{PK : PatternKit value pattern}.
Context `{MA : Marshal value pattern}.
Context `{RM : RefManager V}.

Variable c : collection pattern.

Lemma agreeOutside_refl (m : gmap string string) : agreeOutside c m m.
Proof. intros K _. reflexivity. Qed.

Lemma agreeOutside_trans (m1 m2 m3 : gmap string string) :
  agreeOutside c m1 m2 -> agreeOutside c m2 m3 -> agreeOutside c m1 m3.
Proof. intros H1 H2 K HK. rewrite (H2 K HK). apply H1, HK. Qed.

Lemma outside_ne (K e : string) :
  String.prefix (dbKeyPrefix c) K = false -> K <> prefix c e.
Proof.
  intros HK ->. unfold prefix in HK.
  rewrite StringFacts.prefix_app in HK. discriminate.
Qed.

Lemma agreeOutside_insert (m : gmap string string) (e j : string) :
  agreeOutside c m (<[prefix c e := j]> m).
Proof.
  intros K HK. apply lookup_insert_ne, not_eq_sym, outside_ne, HK.
Qed.

Lemma agreeOutside_delete (m : gmap string string) (e : string) :
  agreeOutside c m (delete (prefix c e) m).
Proof.
  intros K HK. apply lookup_delete_ne, not_eq_sym, outside_ne, HK.
Qed.

Lemma init_outside (k : key) (v : value) (st : state V) :
  agreeOutside c (vatstore st) (vatstore (init c k v st).1).
Proof.
  destruct (init_cases c k v st)
    as [E|[(e & j & _ & _ & _ & _ & Hv)
          |(slot & o & n1 & o' & j & _ & _ & _ & _ & Hv)]].
  - rewrite E. apply agreeOutside_refl.
  - rewrite Hv. apply agreeOutside_insert.
  - rewrite Hv.
    eapply agreeOutside_trans; [|apply agreeOutside_insert].
    eapply agreeOutside_trans; [|apply agreeOutside_insert].
    apply agreeOutside_insert.
Qed.

Lemma set_outside (k : key) (v : value) (st : state V) :
  agreeOutside c (vatstore st) (vatstore (set c k v st).1).
Proof.
  destruct (set_cases c k v st) as [E|(e & j & _ & _ & _ & Hv)].
  - rewrite E. apply agreeOutside_refl.
  - rewrite Hv. apply agreeOutside_insert.
Qed.

Lemma deleteInternal_outside (k : key) (st : state V) :
  agreeOutside c (vatstore st) (vatstore (deleteInternal c k st).1).
Proof.
  destruct (deleteInternal_cases c k st) as [E|(e & _ & _ & _ & Hv)].
  - rewrite E. apply agreeOutside_refl.
  - rewrite Hv. destruct k; try apply agreeOutside_delete.
    eapply agreeOutside_trans; apply agreeOutside_delete.
Qed.

Lemma del_outside (k : key) (st : state V) :
  agreeOutside c (vatstore st) (vatstore (del c k st).1).
Proof.
  unfold del, bind, bumpGeneration. fold (bumped st).
  pose proof (deleteInternal_outside k (bumped st)) as H.
  destruct (deleteInternal c k (bumped st)) as [st' [u|e]]; exact H.
Qed.

Lemma clearLoop_outside (fuel : nat) (it : iterator pattern) (st : state V) :
  agreeOutside c (vatstore st) (vatstore (clearLoop c fuel it st).1).
Proof.
  revert it st. induction fuel as [|fuel IH]; intros it st; simpl;
    [apply agreeOutside_refl|].
  destruct (keysNext c it st) as [it' [[k|]|e]]; simpl;
    try apply agreeOutside_refl.
  pose proof (deleteInternal_outside k st) as H.
  destruct (deleteInternal c k st) as [st' [u|e]]; simpl in *; [|exact H].
  eapply agreeOutside_trans; [exact H|apply IH].
Qed.

Lemma clear_outside (kp vp : option pattern) (st : state V) :
  agreeOutside c (vatstore st) (vatstore (clear c kp vp st).1).
Proof.
  unfold clear.
  pose proof (clearLoop_outside (iterFuel st) (keys kp vp) st) as H.
  destruct (clearLoop c (iterFuel st) (keys kp vp) st) as [st' [u|e]];
    exact H.
Qed.

Lemma entryDeleter_outside (slot : string) (st : state V) :
  agreeOutside c (vatstore st) (vatstore (entryDeleter c slot st).1).
Proof.
  unfold entryDeleter, bind, vatstoreGet, vatstoreDelete. simpl.
  eapply agreeOutside_trans; apply agreeOutside_delete.
Qed.

(** X17: no operation on a collection writes or deletes a row outside the
    prefix of the collection. *)
Theorem writes_stay_under_prefix (k : key) (v : value)
    (kp vp : option pattern) (slot : string) (st : state V) :
  agreeOutside c (vatstore st) (vatstore (init c k v st).1) /\
  agreeOutside c (vatstore st) (vatstore (set c k v st).1) /\
  agreeOutside c (vatstore st) (vatstore (del c k st).1) /\
  agreeOutside c (vatstore st) (vatstore (clear c kp vp st).1) /\
  agreeOutside c (vatstore st) (vatstore (entryDeleter c slot st).1).
Proof.
  split; [apply init_outside|]. split; [apply set_outside|].
  split; [apply del_outside|]. split; [apply clear_outside|].
  apply entryDeleter_outside.
Qed.

End Isolation.

Section Disjoint.

Context {V value pattern : Type}.
Context `{PK : PatternKit value pattern}.
Context `{MA : Marshal value pattern}.
Context `{RM : RefManager V}.

(** No row under the prefix of one number is under the prefix of
    another. *)
Lemma numbered_prefixes_disjoint (c1 c2 : collection pattern) (a b : Z)
    (e : string) :
  collectionID c1 = JsString.ofZ a -> collectionID c2 = JsString.ofZ b ->
  0 <= a -> 0 <= b -> a <> b ->
  String.prefix (dbKeyPrefix c1) (prefix c2 e) = false.
Proof.
  intros H1 H2 Ha Hb Hab.
  destruct (String.prefix (dbKeyPrefix c1) (prefix c2 e)) eqn:E;
    [|reflexivity].
  exfalso. apply Hab. apply DigitFacts.ofZ_inj; auto.
  unfold prefix, dbKeyPrefix in E. rewrite H1, H2 in E.
  rewrite !DigitFacts.append_assoc in E.
  rewrite DigitFacts.prefix_cancel in E.
  eapply DigitFacts.digits_before_dot; eauto using DigitFacts.ofZ_digits.
Qed.

(** X18: collections made under different numbers do not touch one
    another's rows. *)
Theorem collections_do_not_interfere (c1 c2 : collection pattern) (a b : Z)
    (k : key) (v : value) (kp vp : option pattern) (e : string)
    (st : state V) :
  collectionID c1 = JsString.ofZ a -> collectionID c2 = JsString.ofZ b ->
  0 <= a -> 0 <= b -> a <> b ->
  vatstore (init c1 k v st).1 !! prefix c2 e = vatstore st !! prefix c2 e /\
  vatstore (set c1 k v st).1 !! prefix c2 e = vatstore st !! prefix c2 e /\
  vatstore (del c1 k st).1 !! prefix c2 e = vatstore st !! prefix c2 e /\
  vatstore (clear c1 kp vp st).1 !! prefix c2 e = vatstore st !! prefix c2 e.
Proof.
  intros H1 H2 Ha Hb Hab.
  pose proof (numbered_prefixes_disjoint c1 c2 a b e H1 H2 Ha Hb Hab) as HK.
  split; [apply init_outside, HK|]. split; [apply set_outside, HK|].
  split; [apply del_outside, HK|]. apply clear_outside, HK.
Qed.

End Disjoint.

(** ** Iteration *)

Module VatStoreOrder.

Import VatStore.

(** Two strings are equal, or one is below the other. *)
Lemma ltb_total (a b : string) :
  String.ltb a b = false -> a = b \/ String.ltb b a = true.
Proof.
  unfold String.ltb. rewrite (String.compare_antisym b a).
  destruct (String.compare a b) eqn:E; simpl; try discriminate; auto.
  apply String.compare_eq_iff in E. auto.
Qed.

Lemma pick_least (priorKey lo hi : string) (l : list (string * string))
    (kv : string * string) :
  kv ∈ l -> inRange priorKey lo hi kv.1 = true ->
  exists best, foldr (pick priorKey lo hi) None l = Some best /\
               String.ltb kv.1 best.1 = false.
Proof.
  induction l as [|x l IH]; intros Hin Hr; [inversion Hin|].
  simpl. apply elem_of_cons in Hin. destruct Hin as [->|Hin].
  - unfold pick at 1. rewrite Hr.
    destruct (foldr (pick priorKey lo hi) None l) as [kv'|].
    + destruct (String.ltb x.1 kv'.1) eqn:E.
      * eexists. split; [reflexivity|]. apply StringOrder.ltb_irrefl.
      * eexists. split; [reflexivity|]. exact E.
    + eexists. split; [reflexivity|]. apply StringOrder.ltb_irrefl.
  - destruct (IH Hin Hr) as (best & Hb & Hlt). rewrite Hb.
    unfold pick. destruct (inRange priorKey lo hi x.1); [|eauto].
    destruct (String.ltb x.1 best.1) eqn:E; [|eauto].
    eexists. split; [reflexivity|].
    destruct (String.ltb kv.1 x.1) eqn:E'; [|reflexivity].
    rewrite (StringOrder.ltb_trans _ _ _ E' E) in Hlt. discriminate.
Qed.

(** The probe returns the least row of the range, and none only when
    the range holds none. *)
Lemma getAfter_least (priorKey lo hi : string) (m : gmap string string)
    (k v : string) :
  m !! k = Some v -> inRange priorKey lo hi k = true ->
  exists k' v', getAfter priorKey lo hi m = Some (k', v') /\
                String.ltb k k' = false.
Proof.
  intros Hk Hr. unfold getAfter.
  destruct (pick_least priorKey lo hi (map_to_list m) (k, v))
    as ([k' v'] & Hb & Hlt); [apply elem_of_map_to_list; exact Hk|exact Hr|].
  eauto.
Qed.

End VatStoreOrder.

Section IterationLaws.

Context {V value pattern : Type}.
Context `{PK : PatternKit value pattern}.
Context `{MA : Marshal value pattern}.
Context `{RM : RefManager V}.

Variable c : collection pattern.

(** What the loop yields, and what it passes over. *)
Lemma iterLoop_sound (fuel : nat) (sc : scan pattern) (g : Z)
    (prior : string) (st : state V) (it : iterator pattern)
    (k : key) (ov : option value) :
  iterLoop c fuel sc g prior st = (it, Ok (Some (k, ov))) ->
  exists dbKey dbValue,
    it = Suspended sc g dbKey /\
    String.ltb prior dbKey = true /\
    vatstore st !! dbKey = Some dbValue /\
    String.leb (scanStart sc) dbKey = true /\
    String.ltb dbKey (scanEnd sc) = true /\
    dbKeyToKey c dbKey = Ok k /\
    rowMatches c sc dbKey dbValue = true /\
    ov = if ignoreValues sc then None
         else option_map unserialize (JSON_parse dbValue).
Proof.
  revert prior. induction fuel as [|fuel IH]; intros prior; simpl;
    [congruence|].
  destruct (negb _); simpl; [congruence|].
  destruct (VatStore.getAfter _ _ _ _) as [[dbKey dbValue]|] eqn:Hg; simpl;
    [|congruence].
  apply VatStoreFacts.getAfter_Some in Hg. destruct Hg as [Hk Hr].
  unfold VatStore.inRange in Hr. apply andb_prop in Hr. destruct Hr as [Hr Hend].
  apply andb_prop in Hr. destruct Hr as [Hprior Hstart].
  rewrite Hend.
  assert (Hrec : iterLoop c fuel sc g dbKey st = (it, Ok (Some (k, ov))) ->
            exists dbKey dbValue,
              it = Suspended sc g dbKey /\
              String.ltb prior dbKey = true /\
              vatstore st !! dbKey = Some dbValue /\
              String.leb (scanStart sc) dbKey = true /\
              String.ltb dbKey (scanEnd sc) = true /\
              dbKeyToKey c dbKey = Ok k /\
              rowMatches c sc dbKey dbValue = true /\
              ov = if ignoreValues sc then None
                   else option_map unserialize (JSON_parse dbValue)).
  { intros H. apply IH in H.
    destruct H as (d & dv & H1 & H2 & H3). exists d, dv.
    split; [exact H1|]. split; [|exact H3].
    eapply StringOrder.ltb_trans; eauto. }
  destruct (dbKeyToKey c dbKey) as [k0|e] eqn:Hd; simpl; [|congruence].
  destruct (matches k0 (keyPatt sc)) eqn:Hm; [|exact Hrec].
  destruct (ignoreValues sc) eqn:Hi; simpl.
  - intros E; inversion E; subst. exists dbKey, dbValue. unfold rowMatches.
    rewrite ?Hd, ?Hm, ?Hi. simpl. repeat split; auto.
  - destruct (JSON_parse dbValue) as [parsed|] eqn:Hp; simpl; [|congruence].
    destruct (matchesValue (unserialize parsed) (valuePatt sc)) eqn:Hv; simpl;
      [|exact Hrec].
    intros E; inversion E; subst. exists dbKey, dbValue. unfold rowMatches.
    rewrite ?Hd, ?Hm, ?Hi, ?Hp. simpl. rewrite ?Hp, ?Hv. repeat split; auto.
Qed.

Lemma iterLoop_complete (fuel : nat) (sc : scan pattern) (g : Z)
    (prior : string) (st : state V) (it : iterator pattern)
    (r : option (key * option value)) (K raw : string) :
  iterLoop c fuel sc g prior st = (it, Ok r) ->
  vatstore st !! K = Some raw ->
  VatStore.inRange prior (scanStart sc) (scanEnd sc) K = true ->
  passed it K = true ->
  rowMatches c sc K raw = false.
Proof.
  revert prior. induction fuel as [|fuel IH]; intros prior; simpl;
    [congruence|].
  destruct (negb _); simpl; [congruence|].
  intros Hl HK Hin Hpassed.
  destruct (VatStoreOrder.getAfter_least _ _ _ _ K raw HK Hin)
    as (k' & v' & Hg & Hleast).
  rewrite Hg in Hl.
  apply VatStoreFacts.getAfter_Some in Hg. destruct Hg as [Hk Hr].
  pose proof Hr as Hr'.
  unfold VatStore.inRange in Hr. apply andb_prop in Hr. destruct Hr as [Hr Hend].
  rewrite Hend in Hl.
  (* the row probed is [K] itself, or lies below it *)
  assert (Hrec : iterLoop c fuel sc g k' st = (it, Ok r) ->
                 K <> k' -> rowMatches c sc K raw = false).
  { intros H Hne. apply (IH k' H HK); [|exact Hpassed].
    destruct (VatStoreOrder.ltb_total _ _ Hleast) as [E|Hlt]; [contradiction|].
    unfold VatStore.inRange in *.
    apply andb_prop in Hin. destruct Hin as [Hin Hin3].
    apply andb_prop in Hin. destruct Hin as [_ Hin2].
    rewrite Hlt, Hin2, Hin3. reflexivity. }
  destruct (decide (K = k')) as [->|Hne].
  - rewrite Hk in HK. inversion HK; subst v'. clear HK.
    unfold rowMatches.
    destruct (dbKeyToKey c k') as [k0|e] eqn:Hd; simpl in Hl; [|reflexivity].
    destruct (matches k0 (keyPatt sc)) eqn:Hm; [|reflexivity].
    destruct (ignoreValues sc) eqn:Hi; simpl in Hl.
    + inversion Hl; subst. unfold passed in Hpassed.
      rewrite StringOrder.ltb_irrefl in Hpassed. discriminate.
    + destruct (JSON_parse raw) as [parsed|] eqn:Hp; simpl in Hl;
        [|reflexivity].
      destruct (matchesValue (unserialize parsed) (valuePatt sc)) eqn:Hv;
        simpl in Hl; [|reflexivity].
      inversion Hl; subst. unfold passed in Hpassed.
      rewrite StringOrder.ltb_irrefl in Hpassed. discriminate.
  - destruct (dbKeyToKey c k') as [k0|e] eqn:Hd; simpl in Hl; [|congruence].
    assert (Hstop : passed (Suspended sc g k') K = false) by exact Hleast.
    destruct (matches k0 (keyPatt sc)) eqn:Hm; [|exact (Hrec Hl Hne)].
    destruct (ignoreValues sc) eqn:Hi; simpl in Hl.
    + inversion Hl; subst. rewrite Hstop in Hpassed. discriminate.
    + destruct (JSON_parse v') as [parsed|] eqn:Hp; simpl in Hl; [|congruence].
      destruct (matchesValue (unserialize parsed) (valuePatt sc)) eqn:Hv;
        simpl in Hl; [|exact (Hrec Hl Hne)].
      inversion Hl; subst. rewrite Hstop in Hpassed. discriminate.
Qed.

(** A step of an iterator is a run of the loop from the key the
    iterator has reached. *)
Lemma next_as_loop (it : iterator pattern) (st : state V)
    (sc : scan pattern) (prior : string) :
  scanOf c it st = Some (sc, prior) ->
  exists g, next c it st = iterLoop c (iterFuel st) sc g prior st.
Proof.
  destruct it as [nv kp vp|sc0 g prior0|]; simpl; [| |discriminate].
  - destruct (entriesInternal c nv kp vp st) as [sc0|e]; [|discriminate].
    intros E; inversion E; subst. eauto.
  - intros E; inversion E; subst. eauto.
Qed.

(** X19: a step of an iterator yields a row of the store: one above the key
    the iterator had reached, inside the range of the scan, whose key and
    value match the patterns; the entry is that row decoded, and the
    iterator is left at the row. *)
Theorem iteration_yields_matching_rows (it it' : iterator pattern)
    (st : state V) (sc : scan pattern) (prior : string)
    (k : key) (ov : option value) :
  scanOf c it st = Some (sc, prior) ->
  next c it st = (it', Ok (Some (k, ov))) ->
  exists dbKey dbValue,
    scanOf c it' st = Some (sc, dbKey) /\
    String.ltb prior dbKey = true /\
    vatstore st !! dbKey = Some dbValue /\
    String.leb (scanStart sc) dbKey = true /\
    String.ltb dbKey (scanEnd sc) = true /\
    dbKeyToKey c dbKey = Ok k /\
    rowMatches c sc dbKey dbValue = true /\
    ov = if ignoreValues sc then None
         else option_map unserialize (JSON_parse dbValue).
Proof.
  intros Hs Hn. destruct (next_as_loop it st sc prior Hs) as [g Hg].
  rewrite Hg in Hn. apply iterLoop_sound in Hn.
  destruct Hn as (d & dv & -> & H). exists d, dv. split; [reflexivity|exact H].
Qed.

(** X20: a step of an iterator skips no matching row: every row of the range
    above the key the iterator had reached and below the row it yields
    (every such row when it ends) fails the patterns. *)
Theorem iteration_skips_no_matching_row (it it' : iterator pattern)
    (st : state V) (sc : scan pattern) (prior : string)
    (r : option (key * option value)) (K raw : string) :
  scanOf c it st = Some (sc, prior) ->
  next c it st = (it', Ok r) ->
  vatstore st !! K = Some raw ->
  VatStore.inRange prior (scanStart sc) (scanEnd sc) K = true ->
  passed it' K = true ->
  rowMatches c sc K raw = false.
Proof.
  intros Hs Hn. destruct (next_as_loop it st sc prior Hs) as [g Hg].
  rewrite Hg in Hn. exact (iterLoop_complete _ _ _ _ _ _ _ K raw Hn).
Qed.

End IterationLaws.

(** ** The size, the loops and the value patterns *)

Section CollectionLaws.

Context {V value pattern : Type}.
Context `{PK : PatternKit value pattern}.
Context `{MA : Marshal value pattern}.
Context `{RM : RefManager V}.

Variable c : collection pattern.

(** X21: in a well-formed collection the size is the number of entry rows,
    and it is so again after [init], [set], [delete] and [clear],
    whether they return or throw. *)
Theorem size_counts_entry_rows (k : key) (v : value)
    (kp vp : option pattern) (st : state V) :
  wellFormed c st ->
  size st = entryCount c st /\
  size (init c k v st).1 = entryCount c (init c k v st).1 /\
  size (set c k v st).1 = entryCount c (set c k v st).1 /\
  size (del c k st).1 = entryCount c (del c k st).1 /\
  size (clear c kp vp st).1 = entryCount c (clear c kp vp st).1.
Proof.
  intros H.
  destruct (size_invariant_preserved c k v kp vp st H) as (Hi & Hs & Hd & Hc).
  split; [exact (wellFormed_size c st H)|].
  split; [exact (wellFormed_size c _ Hi)|].
  split; [exact (wellFormed_size c _ Hs)|].
  split; [exact (wellFormed_size c _ Hd)|].
  exact (wellFormed_size c _ Hc).
Qed.

(** X22: every step of an iterator and every [clear] comes to an end: the
    loops stop within the number of rows of the store. *)
Theorem iteration_and_clear_return (it : iterator pattern)
    (kp vp : option pattern) (st : state V) :
  (forall keyPatt enc, getRankCover keyPatt enc <> Throw FuelExhausted) ->
  (next c it st).2 <> Throw FuelExhausted /\
  (keysNext c it st).2 <> Throw FuelExhausted /\
  (valuesNext c it st).2 <> Throw FuelExhausted /\
  (entriesNext c it st).2 <> Throw FuelExhausted /\
  (clear c kp vp st).2 <> Throw FuelExhausted.
Proof.
  intros H. pose proof (next_returns c H it st) as Hn.
  split; [exact Hn|].
  split; [unfold keysNext; rewrite project_throw; exact Hn|].
  split; [unfold valuesNext; rewrite project_throw; exact Hn|].
  split; [unfold entriesNext; rewrite project_throw; exact Hn|].
  apply clear_returns, H.
Qed.

(** X23: a value pattern other than [M.any()] is refused at the first step of
    an iteration; [clear] with such a pattern fails before it deletes
    anything and leaves the generation number alone. *)
Theorem value_patterns_are_unsupported (needValue : bool)
    (kp : option pattern) (vp : pattern) (st : state V) :
  isKeyPattern (default M_any kp) = true ->
  pattEq vp M_any = false ->
  next c (NotStarted needValue kp (Some vp)) st
  = (Completed, Throw UnsupportedValuePattern) /\
  clear c kp (Some vp) st = (st, Throw UnsupportedValuePattern).
Proof.
  intros Hk Hv.
  assert (E : entriesInternal c needValue kp (Some vp) st
              = Throw UnsupportedValuePattern).
  { unfold entriesInternal. rewrite Hk. simpl.
    unfold assertValuePattern. rewrite Hv. reflexivity. }
  assert (E' : entriesInternal c false kp (Some vp) st
              = Throw UnsupportedValuePattern).
  { unfold entriesInternal. rewrite Hk. simpl.
    unfold assertValuePattern. rewrite Hv. reflexivity. }
  split.
  - unfold next. rewrite E. reflexivity.
  - unfold clear, iterFuel. cbn [clearLoop].
    unfold keysNext, keys, next. rewrite E'. reflexivity.
Qed.

End CollectionLaws.

(** ** One key and another *)

Section FrameLaws.

Context {V value pattern : Type}.
Context `{PK : PatternKit value pattern}.
Context `{MA : Marshal value pattern}.
Context `{RM : RefManager V}.

Variable c : collection pattern.

(** The entry row of a key is a row of the key. *)
Lemma rowOfKey_entry (k : key) (st st0 : state V) (e : string) :
  (encodeKey c k st0).2 = Ok e -> rowOfKey c st k (prefix c e).
Proof.
  intros He. destruct (encodeKey_tag c k st0 e He) as (ch & rest & Hch & _ & Hk).
  destruct k; try (exists e; split; [exact He|reflexivity]).
  destruct Hk as (o & _ & ->). left. eexists. split; [|reflexivity].
  apply StringFacts.zeroPad_length.
Qed.

(** What [init], [set] and [delete] leave alone: every row that is not
    a row of the key. *)
Lemma init_frame (k : key) (v : value) (st : state V) (K : string) :
  ~ rowOfKey c st k K ->
  vatstore (init c k v st).1 !! K = vatstore st !! K.
Proof.
  intros HK.
  destruct (init_cases c k v st)
    as [E|[(e & j & _ & He & _ & _ & Hv)
          |(slot & o & n1 & o' & j & -> & _ & _ & _ & Hv)]].
  - rewrite E. reflexivity.
  - rewrite Hv. apply lookup_insert_ne. intros <-. apply HK.
    apply (rowOfKey_entry k st st e He).
  - rewrite Hv. rewrite !lookup_insert_ne; [reflexivity| | |].
    + intros <-. apply HK. right. left. reflexivity.
    + intros <-. apply HK. right. right. reflexivity.
    + intros <-. apply HK. left. eexists. split; [|reflexivity].
      apply StringFacts.zeroPad_length.
Qed.

Lemma set_frame (k : key) (v : value) (st : state V) (K : string) :
  ~ rowOfKey c st k K ->
  vatstore (set c k v st).1 !! K = vatstore st !! K.
Proof.
  intros HK.
  destruct (set_cases c k v st) as [E|(e & j & He & _ & _ & Hv)].
  - rewrite E. reflexivity.
  - rewrite Hv. apply lookup_insert_ne. intros <-. apply HK.
    apply (rowOfKey_entry k st st e He).
Qed.

Lemma deleteInternal_frame (k : key) (st st0 : state V) (K : string) :
  ~ rowOfKey c st0 k K ->
  vatstore (deleteInternal c k st).1 !! K = vatstore st !! K.
Proof.
  intros HK.
  destruct (deleteInternal_cases c k st) as [E|(e & He & _ & _ & Hv)].
  - rewrite E. reflexivity.
  - assert (Hne : K <> prefix c e).
    { intros ->. apply HK. apply (rowOfKey_entry k st0 st e He). }
    rewrite Hv. destruct k; try (apply lookup_delete_ne; auto; fail).
    rewrite !lookup_delete_ne; auto.
    intros <-. apply HK. right. left. reflexivity.
Qed.

Lemma del_frame (k : key) (st : state V) (K : string) :
  ~ rowOfKey c st k K ->
  vatstore (del c k st).1 !! K = vatstore st !! K.
Proof.
  intros HK. unfold del, bind, bumpGeneration. fold (bumped st).
  pose proof (deleteInternal_frame k (bumped st) st K HK) as H.
  destruct (deleteInternal c k (bumped st)) as [st' [u|e]]; exact H.
Qed.

Lemma rowOfKey_plain (k : key) (st : state V) (K : string) :
  (forall slot, k <> KRemotable slot) ->
  rowOfKey c st k K ->
  exists ch rest,
    (encodeKey c k st).2 = Ok (String ch rest) /\
    ch <> "|"%char /\ ch <> "r"%char /\ K = prefix c (String ch rest).
Proof.
  intros Hk Hrow.
  assert (He : exists e, (encodeKey c k st).2 = Ok e /\ K = prefix c e)
    by (destruct k; try exact Hrow; exfalso; eapply Hk; reflexivity).
  destruct He as (e & He & ->).
  destruct (encodeKey_tag c k st e He) as (ch & rest & -> & Hbar & Hr).
  exists ch, rest. repeat split; auto.
  destruct k; auto. exfalso. eapply Hk. reflexivity.
Qed.

Lemma key_cases (k : key) :
  (exists slot, k = KRemotable slot) \/ forall slot, k <> KRemotable slot.
Proof. destruct k; eauto; right; discriminate. Qed.

(** Two restorable keys share no row but, when both are remotables, the
    row of the next ordinal. *)
Lemma rows_disjoint (k k' : key) (st : state V) (K : string) :
  restorable k -> restorable k' -> k <> k' ->
  k' <> KRemotable "nextOrdinal" ->
  rowOfKey c st k K -> rowOfKey c st k' K ->
  K = prefix c "|nextOrdinal".
Proof.
  intros Hr Hr' Hne Hno Hrow Hrow'.
  destruct (key_cases k) as [[slot ->]|Hk];
    destruct (key_cases k') as [[slot' ->]|Hk'].
  - assert (Hs : slot <> slot') by congruence.
    assert (Hs' : slot' <> "nextOrdinal") by congruence.
    simpl in Hrow, Hrow'.
    destruct Hrow as [(tag & Hl & ->)|[->| ->]];
      destruct Hrow' as [(tag' & Hl' & E)|[E|E]]; auto; exfalso.
    all: first
      [ apply row_inj in E; auto; destruct E; congruence
      | symmetry in E; apply row_inj in E; auto; destruct E; congruence
      | exact (meta_ne_row c _ _ E)
      | symmetry in E; exact (meta_ne_row c _ _ E)
      | exact (meta_ne_row c "nextOrdinal" _ E)
      | symmetry in E; exact (meta_ne_row c "nextOrdinal" _ E)
      | apply meta_inj in E; congruence
      | apply (meta_inj c "nextOrdinal" slot') in E; congruence
      | apply (meta_inj c slot' "nextOrdinal") in E; congruence ].
  - destruct (rowOfKey_plain k' st K Hk' Hrow')
      as (ch & rest & _ & Hbar & Hrr & ->).
    simpl in Hrow. exfalso.
    destruct Hrow as [(tag & Hl & E)|[E|E]].
    + exact (key_ne_row c ch rest _ Hrr E).
    + exact (key_ne_meta c ch rest _ Hbar E).
    + exact (key_ne_meta c ch rest "nextOrdinal" Hbar E).
  - destruct (rowOfKey_plain k st K Hk Hrow)
      as (ch & rest & _ & Hbar & Hrr & ->).
    simpl in Hrow'. exfalso.
    destruct Hrow' as [(tag & Hl & E)|[E|E]].
    + exact (key_ne_row c ch rest _ Hrr E).
    + exact (key_ne_meta c ch rest _ Hbar E).
    + exact (key_ne_meta c ch rest "nextOrdinal" Hbar E).
  - destruct (rowOfKey_plain k st K Hk Hrow)
      as (ch & rest & He & _ & _ & ->).
    destruct (rowOfKey_plain k' st _ Hk' Hrow')
      as (ch' & rest' & He' & _ & _ & E).
    apply prefix_inj in E. rewrite <- E in He'.
    pose proof (key_round_trip c k st _ Hr He) as D.
    pose proof (key_round_trip c k' st _ Hr' He') as D'.
    rewrite D in D'. inversion D'. contradiction.
Qed.

(** [get], step by step. *)
Lemma get_unfold (k : key) (st : state V) :
  get c k st =
  if matches k (keySchema c) then
    match (encodeKey c k st).2 with
    | Ok e =>
        if truthy (vatstore st !! prefix c e) then
          match vatstore st !! prefix c e with
          | Some raw =>
              match JSON_parse raw with
              | Some cd => (st, Ok (unserialize cd))
              | None => (st, Throw SyntaxError)
              end
          | None => (st, Throw SyntaxError)
          end
        else (st, Throw NotFound)
    | Throw e => (st, Throw e)
    end
  else (st, Throw SchemaViolation).
Proof.
  unfold get, bind at 1, assert.
  destruct (matches k (keySchema c)); [|reflexivity]. simpl.
  unfold keyToDBKey, bind. rewrite (encodeKey_eta c).
  destruct (encodeKey c k st).2 as [e|e1]; [|reflexivity]. simpl.
  unfold ret, vatstoreGet. simpl.
  destruct (truthy (vatstore st !! prefix c e)); [|reflexivity].
  unfold parseJSON. destruct (vatstore st !! prefix c e) as [raw|];
    [|reflexivity].
  destruct (JSON_parse raw); reflexivity.
Qed.

(** [has] and [get] read rows of the key only, and never the row of
    the next ordinal. *)
Lemma reads_agree (k : key) (st st' : state V) :
  k <> KRemotable "nextOrdinal" ->
  (forall K, rowOfKey c st k K -> K <> prefix c "|nextOrdinal" ->
             vatstore st' !! K = vatstore st !! K) ->
  (has c k st').2 = (has c k st).2 /\ (get c k st').2 = (get c k st).2.
Proof.
  intros Hno Hagree.
  assert (Henc : (encodeKey c k st').2 = (encodeKey c k st).2).
  { apply encodeKey_stable. intros slot ->. apply Hagree.
    - right. left. reflexivity.
    - intros E. apply (meta_inj c slot "nextOrdinal") in E. congruence. }
  assert (Hrow : forall e, (encodeKey c k st).2 = Ok e ->
            vatstore st' !! prefix c e = vatstore st !! prefix c e).
  { intros e He. apply Hagree; [exact (rowOfKey_entry k st st e He)|].
    destruct (encodeKey_tag c k st e He) as (ch & rest & -> & Hbar & _).
    exact (key_ne_meta c ch rest "nextOrdinal" Hbar). }
  split.
  - unfold has. destruct (negb (matches k (keySchema c))); [reflexivity|].
    destruct k;
      try (unfold keyToDBKey, bind;
           rewrite (encodeKey_eta c _ st'), (encodeKey_eta c _ st), Henc;
           destruct (encodeKey c _ st).2 as [e|e1] eqn:He; [|reflexivity];
           unfold ret, vatstoreGet; simpl; rewrite (Hrow e eq_refl);
           reflexivity).
    unfold getOrdinal, bind, vatstoreGet, ret. simpl.
    rewrite Hagree; [reflexivity|right; left; reflexivity|].
    intros E. apply (meta_inj c slot "nextOrdinal") in E. congruence.
  - rewrite (get_unfold k st'), (get_unfold k st), Henc.
    destruct (matches k (keySchema c)); [|reflexivity].
    destruct (encodeKey c k st).2 as [e|e1] eqn:He; [|reflexivity].
    rewrite (Hrow e eq_refl).
    destruct (truthy (vatstore st !! prefix c e)); [|reflexivity].
    destruct (vatstore st !! prefix c e) as [raw|]; [|reflexivity].
    destruct (JSON_parse raw); reflexivity.
Qed.

(** X24: an operation on one key does not change what [has] and [get] answer
    for another key. *)
Theorem other_keys_unaffected (k k' : key) (v : value) (st : state V) :
  restorable k -> restorable k' -> k <> k' ->
  k' <> KRemotable "nextOrdinal" ->
  ((has c k' (init c k v st).1).2 = (has c k' st).2 /\
   (get c k' (init c k v st).1).2 = (get c k' st).2) /\
  ((has c k' (set c k v st).1).2 = (has c k' st).2 /\
   (get c k' (set c k v st).1).2 = (get c k' st).2) /\
  ((has c k' (del c k st).1).2 = (has c k' st).2 /\
   (get c k' (del c k st).1).2 = (get c k' st).2).
Proof.
  intros Hr Hr' Hne Hno.
  assert (Hout : forall K, rowOfKey c st k' K ->
                   K <> prefix c "|nextOrdinal" -> ~ rowOfKey c st k K).
  { intros K Hrow' HK Hrow. apply HK.
    exact (rows_disjoint k k' st K Hr Hr' Hne Hno Hrow Hrow'). }
  split; [|split]; apply reads_agree; auto; intros K Hrow' HK.
  - apply init_frame. auto.
  - apply set_frame. auto.
  - apply del_frame. auto.
Qed.

(** X25: [has], [get] and [keyToDBKey] only read: they leave the store, the
    reference counts, the generation number and the size as they are. *)
Theorem reads_leave_state (k : key) (st : state V) :
  (has c k st).1 = st /\ (get c k st).1 = st /\ (keyToDBKey c k st).1 = st.
Proof.
  split; [apply has_reads|]. split; [|apply keyToDBKey_reads].
  rewrite get_unfold.
  destruct (matches k (keySchema c)); [|reflexivity].
  destruct (encodeKey c k st).2 as [e|e1]; [|reflexivity].
  destruct (truthy (vatstore st !! prefix c e)); [|reflexivity].
  destruct (vatstore st !! prefix c e) as [raw|]; [|reflexivity].
  destruct (JSON_parse raw); reflexivity.
Qed.

End FrameLaws.

(** ** Kinds and the making of collections *)

Section ManagerLaws.

Context {V value pattern : Type}.
Context `{PK : PatternKit value pattern}.
Context `{MA : Marshal value pattern}.
Context `{RM : RefManager V}.
Context `{KT : KindTableCodec}.

(** X26: in a vat without a table of kinds, the first [obtainStoreKindID]
    gives the four kinds the next four export IDs, in the order of their
    definition, and returns the ID of the kind asked for.  It registers
    a reanimator under each ID, in that order, writes as the row
    [storeKindIDTable] the text of the table that holds for every kind
    its ID, writes no other row, and maps every ID back to its kind;
    later calls answer from memory. *)
Theorem fresh_vat_kind_ids (kind : kindName) (m : manager V) :
  storeKindInfoNeedsInitialization m = true ->
  mVatstore m !! "storeKindIDTable" = None ->
  let m' := (obtainStoreKindID kind m).1 in
  (obtainStoreKindID kind m).2 = Ok (storeKindID m' kind) /\
  storeKindID m' scalarMapStore = nextExportID m /\
  storeKindID m' scalarWeakMapStore = nextExportID m + 1 /\
  storeKindID m' scalarSetStore = nextExportID m + 2 /\
  storeKindID m' scalarWeakSetStore = nextExportID m + 3 /\
  nextExportID m' = nextExportID m + 4 /\
  mVrm m' =
    registerReanimator (storeKindID m' scalarWeakSetStore)
      (registerReanimator (storeKindID m' scalarSetStore)
         (registerReanimator (storeKindID m' scalarWeakMapStore)
            (registerReanimator (storeKindID m' scalarMapStore) (mVrm m)))) /\
  (exists t,
     (forall k, t k = Some (storeKindID m' k)) /\
     mVatstore m' =
       <["storeKindIDTable" := JSON_stringifyTable t]> (mVatstore m)) /\
  (forall k, kindNameOf (storeKindID m' k) (storeKindIDToName m') = Some k) /\
  forall k, obtainStoreKindID k m' = (m', Ok (storeKindID m' k)).
Proof.
  intros Hflag Htable m'.
  assert (E : obtainStoreKindID kind m = (m', Ok (storeKindID m' kind))).
  { subst m'. unfold obtainStoreKindID. rewrite Hflag. simpl.
    rewrite Htable. reflexivity. }
  rewrite E. clear E. subst m'. unfold obtainStoreKindID.
  rewrite Hflag. simpl. rewrite Htable. simpl.
  split; [reflexivity|]. split; [reflexivity|]. split; [reflexivity|].
  split; [lia|]. split; [lia|]. split; [lia|].
  split; [reflexivity|].
  split; [eexists; split; [|reflexivity]; intros k; destruct k; reflexivity|].
  split.
  - intros k. destruct k; simpl;
      repeat match goal with
             | |- context [?a =? ?b] => destruct (Z.eqb_spec a b); try lia
             end; reflexivity.
  - intros k. reflexivity.
Qed.

(** One turn of the loop of [obtainStoreKindID]: it keeps an ID the
    table holds, and takes the next export ID otherwise. *)
Lemma registerKind_kept (kind : kindName) (m : manager V)
    (ids : kindName -> option Z) (id : Z) :
  ids kind = Some id -> id <> 0 ->
  registerKind kind (m, ids) =
  (Manager (mVatstore m) (registerReanimator id (mVrm m))
     (nextCollectionID m) (nextExportID m)
     (storeKindInfoNeedsInitialization m)
     (fun k => if decide (k = kind) then id else storeKindID m k)
     ((id, kind) :: storeKindIDToName m),
   ids).
Proof.
  intros Hs Hz. unfold registerKind. rewrite Hs.
  destruct (Z.eqb_spec id 0); [contradiction|reflexivity].
Qed.

Lemma registerKind_fresh (kind : kindName) (m : manager V)
    (ids : kindName -> option Z) :
  ids kind = None \/ ids kind = Some 0 ->
  registerKind kind (m, ids) =
  (Manager (mVatstore m) (registerReanimator (nextExportID m) (mVrm m))
     (nextCollectionID m) (nextExportID m + 1)
     (storeKindInfoNeedsInitialization m)
     (fun k => if decide (k = kind) then nextExportID m else storeKindID m k)
     ((nextExportID m, kind) :: storeKindIDToName m),
   fun k => if decide (k = kind) then Some (nextExportID m) else ids k).
Proof.
  intros [Hs|Hs]; unfold registerKind; rewrite Hs; reflexivity.
Qed.

Lemma registerKind_spec (kind : kindName) (m : manager V)
    (t : kindName -> option Z) :
  let r := registerKind kind (m, t) in
  (forall id, t kind = Some id -> id <> 0 ->
     storeKindID r.1 kind = id /\ nextExportID r.1 = nextExportID m) /\
  (t kind = None \/ t kind = Some 0 ->
     storeKindID r.1 kind = nextExportID m /\
     nextExportID r.1 = nextExportID m + 1) /\
  (forall k, k <> kind ->
     storeKindID r.1 k = storeKindID m k /\ r.2 k = t k) /\
  nextExportID m <= nextExportID r.1 /\
  mVatstore r.1 = mVatstore m /\
  nextCollectionID r.1 = nextCollectionID m.
Proof.
  assert (Hcase : (exists id, t kind = Some id /\ id <> 0) \/
                  (t kind = None \/ t kind = Some 0)).
  { destruct (t kind) as [id|]; [|auto].
    destruct (Z.eq_dec id 0) as [->|]; eauto. }
  intros r. subst r.
  destruct Hcase as [(id & Hs & Hz)|Hf].
  - rewrite (registerKind_kept kind m t id Hs Hz). cbn [fst snd storeKindID
      nextExportID mVatstore nextCollectionID].
    split; [intros id' Hs' _; rewrite decide_True by reflexivity;
            split; congruence|].
    split; [intros [H|H]; congruence|].
    split; [intros k Hk; rewrite decide_False by exact Hk; auto|].
    split; [lia|]. auto.
  - rewrite (registerKind_fresh kind m t Hf). cbn [fst snd storeKindID
      nextExportID mVatstore nextCollectionID].
    split; [intros id' Hs' Hz'; destruct Hf; congruence|].
    split; [intros _; rewrite decide_True by reflexivity; auto|].
    split; [intros k Hk; rewrite !decide_False by exact Hk; auto|].
    split; [lia|]. auto.
Qed.

(** The whole loop, over kinds that are all different. *)
Lemma registerKinds_spec (l : list kindName) (m : manager V)
    (t : kindName -> option Z) :
  NoDup l ->
  let r := fold_left (fun acc kind => registerKind kind acc) l (m, t) in
  (forall k id, k ∈ l -> t k = Some id -> id <> 0 ->
     storeKindID r.1 k = id) /\
  (forall k, k ∈ l -> t k = None \/ t k = Some 0 ->
     nextExportID m <= storeKindID r.1 k < nextExportID r.1) /\
  (forall k, k ∉ l -> storeKindID r.1 k = storeKindID m k /\ r.2 k = t k) /\
  nextExportID m <= nextExportID r.1 /\
  ((forall k, k ∈ l -> exists id, t k = Some id /\ id <> 0) ->
   nextExportID r.1 = nextExportID m) /\
  mVatstore r.1 = mVatstore m /\
  nextCollectionID r.1 = nextCollectionID m.
Proof.
  revert m t. induction l as [|a l IH]; intros m t Hnd r; subst r.
  - simpl. split; [intros k id Hk; inversion Hk|].
    split; [intros k Hk; inversion Hk|].
    split; [auto|]. split; [lia|]. auto.
  - apply NoDup_cons in Hnd. destruct Hnd as [Ha Hnd].
    cbn [fold_left].
    destruct (registerKind a (m, t)) as [m1 t1] eqn:E.
    pose proof (registerKind_spec a m t) as S. rewrite E in S.
    cbn [fst snd] in S.
    destruct S as (Skept & Sfresh & Sother & Smono & Sstore & Sflag).
    destruct (IH m1 t1 Hnd) as (Ikept & Ifresh & Iother & Imono & Iall
                                & Istore & Iflag).
    set (r := fold_left (fun acc kind => registerKind kind acc) l (m1, t1))
      in *.
    split; [|split; [|split; [|split; [|split; [|split]]]]].
    + intros k id Hk Hs Hz. apply elem_of_cons in Hk.
      destruct Hk as [->|Hk].
      * destruct (Iother a Ha) as [-> _]. apply (Skept id Hs Hz).
      * assert (k <> a) by (intros ->; contradiction).
        apply Ikept; auto. destruct (Sother k H) as [_ ->]. exact Hs.
    + intros k Hk Hf. apply elem_of_cons in Hk.
      destruct Hk as [->|Hk].
      * destruct (Iother a Ha) as [-> _].
        destruct (Sfresh Hf) as [-> Hn]. lia.
      * assert (k <> a) by (intros ->; contradiction).
        assert (Ht : t1 k = None \/ t1 k = Some 0)
          by (destruct (Sother k H) as [_ ->]; exact Hf).
        pose proof (Ifresh k Hk Ht). lia.
    + intros k Hk. apply not_elem_of_cons in Hk. destruct Hk as [Hka Hkl].
      destruct (Iother k Hkl) as [-> ->]. apply Sother, Hka.
    + lia.
    + intros Hall.
      destruct (Hall a) as (id & Hs & Hz); [left|].
      destruct (Skept id Hs Hz) as [_ Hn].
      rewrite Iall; [exact Hn|].
      intros k Hk. assert (k <> a) by (intros ->; contradiction).
      destruct (Sother k H) as [_ ->]. apply Hall. right. exact Hk.
    + congruence.
    + congruence.
Qed.

(** X27: with a table of kinds in the store, the first [obtainStoreKindID]
    keeps every ID the table holds and takes an export ID only for a
    kind the table lacks. *)
Theorem stored_kind_ids_are_kept (kind : kindName) (m : manager V)
    (raw : string) (t : kindName -> option Z) :
  storeKindInfoNeedsInitialization m = true ->
  mVatstore m !! "storeKindIDTable" = Some raw ->
  raw <> "" ->
  JSON_parseTable raw = Some t ->
  let m' := (obtainStoreKindID kind m).1 in
  (obtainStoreKindID kind m).2 = Ok (storeKindID m' kind) /\
  (forall k id, t k = Some id -> id <> 0 -> storeKindID m' k = id) /\
  (forall k, t k = None \/ t k = Some 0 ->
             nextExportID m <= storeKindID m' k < nextExportID m') /\
  ((forall k, exists id, t k = Some id /\ id <> 0) ->
   nextExportID m' = nextExportID m).
Proof.
  intros Hflag Htable Hraw Hparse m'.
  assert (Hne : String.eqb raw "" = false).
  { destruct (String.eqb raw "") eqn:E; [|reflexivity].
    apply String.eqb_eq in E. contradiction. }
  assert (Hall : forall k : kindName, k ∈ storeKindNames)
    by (intros k; unfold storeKindNames; rewrite !elem_of_cons;
        destruct k; auto 10).
  assert (Hnd : NoDup storeKindNames)
    by (unfold storeKindNames;
        repeat (apply NoDup_cons_2;
                [rewrite ?elem_of_cons, ?elem_of_nil; intuition discriminate|]);
        apply NoDup_nil_2).
  subst m'. unfold obtainStoreKindID. rewrite Hflag.
  cbv beta iota zeta.
  change (mVatstore (Manager ?a ?b ?c ?d ?e ?f ?g)) with a.
  rewrite Htable, Hne, Hparse.
  match goal with
  | |- context [fold_left _ storeKindNames (?m0, t)] =>
      pose proof (registerKinds_spec storeKindNames m0 t Hnd) as S;
      cbv zeta in S;
      destruct (fold_left (fun acc kind => registerKind kind acc)
                  storeKindNames (m0, t)) as [m1 t1]
  end.
  cbn [fst snd storeKindID nextExportID] in *.
  destruct S as (Skept & Sfresh & _ & _ & Sall & _).
  split; [reflexivity|]. split; [intros k id; apply Skept, Hall|].
  split; [intros k; apply Sfresh, Hall|].
  intros H. apply Sall. intros k _. apply H.
Qed.

(** [prefixc] builds the keys that [prefix] builds. *)
Lemma prefixc_prefix (c : collection pattern) (x : string) :
  prefixc (collectionID c) x = prefix c x.
Proof.
  unfold prefixc, prefix, dbKeyPrefix.
  rewrite !DigitFacts.append_assoc. reflexivity.
Qed.

(** [obtainStoreKindID] touches no row but the table of kinds, and
    leaves the next collection ID alone. *)
Lemma obtainStoreKindID_frame (kind : kindName) (m : manager V) :
  let m' := (obtainStoreKindID kind m).1 in
  nextCollectionID m' = nextCollectionID m /\
  (mVatstore m' = mVatstore m \/
   exists x, mVatstore m' = <["storeKindIDTable" := x]> (mVatstore m)).
Proof.
  assert (Hnd : NoDup storeKindNames)
    by (unfold storeKindNames;
        repeat (apply NoDup_cons_2;
                [rewrite ?elem_of_cons, ?elem_of_nil; intuition discriminate|]);
        apply NoDup_nil_2).
  intros m'. subst m'. unfold obtainStoreKindID.
  destruct (storeKindInfoNeedsInitialization m); [|simpl; auto].
  cbv beta iota zeta.
  change (mVatstore (Manager ?a ?b ?c ?d ?e ?f ?g)) with a.
  match goal with
  | |- context [match ?p with Some _ => _ | None => _ end] =>
      destruct p as [t|]; [|simpl; auto]
  end.
  match goal with
  | |- context [fold_left _ storeKindNames (?m0, t)] =>
      pose proof (registerKinds_spec storeKindNames m0 t Hnd) as S;
      cbv zeta in S;
      destruct (fold_left (fun acc kind => registerKind kind acc)
                  storeKindNames (m0, t)) as [m1 t1]
  end.
  cbn [fst snd mVatstore nextCollectionID] in *.
  destruct S as (_ & _ & _ & _ & _ & Sstore & Sid).
  split; [exact Sid|]. right. rewrite Sstore. eauto.
Qed.

(** X28: [makeCollection] numbers the collection with the next collection ID
    and writes its three metadata rows; the handle starts at size and
    generation zero.  When no row of the store was under the prefix of
    that number, the collection is well formed, so its size counts its
    rows, and it holds no key. *)
Theorem makeCollection_makes_empty_collection (lbl : string)
    (kind : kindName) (ks : option pattern) (m m' : manager V)
    (vobjID : string) (h : handle pattern) :
  makeCollection lbl kind ks m = (m', Ok (vobjID, h)) ->
  let cid := JsString.ofZ (nextCollectionID m) in
  let c := hCollection h in
  c = Collection lbl cid (kindHasWeakKeys kind) (default M_scalar ks) /\
  hGeneration h = 0 /\ hSize h = 0 /\
  nextCollectionID m' = nextCollectionID m + 1 /\
  vobjID = "o+" +:+ JsString.ofZ (storeKindID m' kind) +:+ "/" +:+ cid /\
  mVatstore m' !! prefix c "|nextOrdinal" = Some "1" /\
  mVatstore m' !! prefix c "|label" = Some lbl /\
  mVatstore m' !! prefix c "|keySchema"
  = Some (JSON_stringify (serializePattern (default M_scalar ks))) /\
  ((forall K, String.prefix (dbKeyPrefix c) K = true ->
              mVatstore m !! K = None) ->
   wellFormed c (enter h m') /\
   forall k,
     (forall slot, k = KRemotable slot ->
        slot <> "nextOrdinal" /\ slot <> "keySchema" /\ slot <> "label") ->
     (has c k (enter h m')).2 <> Ok true).
Proof.
  unfold makeCollection.
  destruct (negb (isKeyPattern (default M_scalar ks))); [discriminate|].
  unfold allocateCollectionID.
  match goal with
  | |- context [obtainStoreKindID kind ?m0] =>
      pose proof (obtainStoreKindID_frame kind m0) as F;
      cbv zeta in F;
      destruct (obtainStoreKindID kind m0) as [m1 [kindID|e]] eqn:E;
      [|discriminate]
  end.
  cbn [fst nextCollectionID mVatstore] in F. destruct F as [Fid Fstore].
  unfold summonCollection, mSet. cbn [mVatstore mVrm nextCollectionID].
  intros H. cbv zeta. inversion H; subst; clear H.
  cbn [hCollection hGeneration hSize nextCollectionID mVatstore storeKindID].
  set (cid := JsString.ofZ (nextCollectionID m)).
  assert (Hkind : storeKindID m1 kind = kindID).
  { revert E. unfold obtainStoreKindID.
    destruct (storeKindInfoNeedsInitialization _).
    - cbv beta iota zeta.
      match goal with
      | |- context [match ?p with Some _ => _ | None => _ end] =>
          destruct p as [t|]; [|discriminate]
      end.
      destruct (fold_left _ _ _) as [m2 t2].
      intros E. inversion E; subst. reflexivity.
    - intros E. inversion E; subst. reflexivity. }
  set (c := Collection lbl cid (kindHasWeakKeys kind) (default M_scalar ks)).
  change cid with (collectionID c). rewrite !prefixc_prefix.
  split; [reflexivity|]. split; [reflexivity|]. split; [reflexivity|].
  split; [exact Fid|]. split; [rewrite Hkind; reflexivity|].
  assert (Hrows :
    <[prefix c "|label" := lbl]>
      (<[prefix c "|keySchema" :=
           JSON_stringify (serializePattern (default M_scalar ks))]>
         (<[prefix c "|nextOrdinal" := "1"]> (mVatstore m1)))
    !! prefix c "|nextOrdinal" = Some "1").
  { rewrite !lookup_insert_ne by (intros Hx; apply prefix_inj in Hx;
                                  discriminate).
    apply lookup_insert_eq. }
  split; [exact Hrows|]. split; [apply lookup_insert_eq|].
  split.
  { rewrite lookup_insert_ne by (intros Hx; apply prefix_inj in Hx;
                                 discriminate).
    apply lookup_insert_eq. }
  intros Hnone.
  assert (Hnone1 : forall K, String.prefix (dbKeyPrefix c) K = true ->
                             mVatstore m1 !! K = None).
  { intros K HK. destruct Fstore as [->|[x ->]]; [apply Hnone, HK|].
    rewrite lookup_insert_ne; [apply Hnone, HK|].
    intros <-. revert HK. unfold dbKeyPrefix.
    change ("vc." +:+ ?x) with (String "v" ("c." +:+ x)).
    discriminate. }
  assert (Hentry : forall K, isEntryRow c K = true ->
            <[prefix c "|label" := lbl]>
              (<[prefix c "|keySchema" :=
                   JSON_stringify (serializePattern (default M_scalar ks))]>
                 (<[prefix c "|nextOrdinal" := "1"]> (mVatstore m1)))
            !! K = None).
  { intros K HK.
    pose proof (isEntryRow_meta c "label") as X1.
    pose proof (isEntryRow_meta c "keySchema") as X2.
    pose proof (isEntryRow_meta c "nextOrdinal") as X3.
    cbv [String.append] in X1, X2, X3.
    rewrite !lookup_insert_ne by (intros <-; congruence).
    apply Hnone1. unfold isEntryRow in HK.
    apply andb_prop in HK. tauto. }
  split.
  - apply created_well_formed; [exact Hentry|].
    unfold enter. cbn [mVatstore]. rewrite Hrows. eauto.
  - intros k Hk Hh. unfold enter in Hh.
    cbn [mVatstore mVrm hGeneration hSize] in Hh.
    revert Hh. unfold has.
    destruct (negb (matches k (keySchema c))); [discriminate|].
    destruct k.
    9: { unfold_engine. simpl. discriminate. }
    7: { destruct (Hk slot eq_refl) as (N1 & N2 & N3).
         unfold getOrdinal, bind, vatstoreGet, ret. cbn [vatstore fst snd].
         rewrite !lookup_insert_ne
           by (intros Hx;
               first [ apply (meta_inj c "label" slot) in Hx
                     | apply (meta_inj c "keySchema" slot) in Hx
                     | apply (meta_inj c "nextOrdinal" slot) in Hx ];
               congruence).
         rewrite Hnone1 by (unfold prefix; apply StringFacts.prefix_app).
         simpl. discriminate. }
    all: unfold keyToDBKey, bind; rewrite (encodeKey_eta c);
      destruct (encodeKey c _ _).2 as [e|e1] eqn:He; [|discriminate];
      unfold vatstoreGet, ret; cbn [vatstore fst snd];
      destruct (encodeKey_tag c _ _ e He) as (ch & rest & -> & Hbar & _);
      rewrite Hentry by (apply isEntryRow_tagged; exact Hbar);
      simpl; discriminate.
Qed.
End ManagerLaws.

(** ** The laws at concrete inputs *)

Section ConcreteLaws.

Import Demo.
Import Samples.

Lemma number_key_decodes_witness :
  Float64.wf Float64.posOne /\
  Float64.ltZero Float64.posOne = false /\
  numberToDBEntryKey Float64.posOne = "fbff0000000000000" /\
  dbEntryKeyToNumber (numberToDBEntryKey Float64.posOne)
  = Some Float64.posOne.
Proof.
  assert (H1 : Float64.wf Float64.posOne) by (vm_compute; split; congruence).
  assert (H2 : Float64.ltZero Float64.posOne = false) by reflexivity.
  split; [exact H1|]. split; [exact H2|].
  split; [vm_compute; reflexivity|].
  exact (proj2 (number_key_decodes Float64.posOne H1 H2)).
Defined.

Lemma number_keys_sort_as_numbers_witness :
  Float64.wf Float64.negOne /\ Float64.wf Float64.posOne /\
  ordinary Float64.negOne /\ ordinary Float64.posOne /\
  Float64.totalOrderLt Float64.negOne Float64.posOne /\
  String.ltb (numberToDBEntryKey Float64.negOne)
             (numberToDBEntryKey Float64.posOne) = true.
Proof.
  assert (H1 : Float64.wf Float64.negOne) by (vm_compute; split; congruence).
  assert (H2 : Float64.wf Float64.posOne) by (vm_compute; split; congruence).
  assert (H3 : ordinary Float64.negOne) by reflexivity.
  assert (H4 : ordinary Float64.posOne) by reflexivity.
  assert (H5 : Float64.totalOrderLt Float64.negOne Float64.posOne)
    by (vm_compute; reflexivity).
  repeat (split; [assumption|]).
  exact (proj2 (number_keys_sort_as_numbers _ _ H1 H2 H3 H4) H5).
Defined.

Lemma bigint_key_decodes_witness :
  representable (-42) /\
  bigintToDBEntryKey (-42) = "n9999999998:58" /\
  dbEntryKeyToBigint (bigintToDBEntryKey (-42)) = Some (-42).
Proof.
  assert (H : representable (-42))
    by (split; [vm_compute; reflexivity|intros _; vm_compute; discriminate]).
  split; [exact H|]. split; [vm_compute; reflexivity|].
  exact (bigint_key_decodes (-42) H).
Defined.

Lemma bigint_keys_sort_as_bigints_witness :
  representable (-42) /\ representable 7 /\ -42 < 7 /\
  String.ltb (bigintToDBEntryKey (-42)) (bigintToDBEntryKey 7) = true.
Proof.
  assert (H1 : representable (-42))
    by (split; [vm_compute; reflexivity|intros _; vm_compute; discriminate]).
  assert (H2 : representable 7)
    by (split; [vm_compute; reflexivity|intros H; vm_compute in H; discriminate]).
  assert (H3 : -42 < 7) by lia.
  repeat (split; [assumption|]).
  exact (proj2 (bigint_keys_sort_as_bigints (-42) 7 H1 H2) H3).
Defined.

Lemma remotable_keys_sort_by_ordinal_witness :
  (0 <= 1 < 2) /\ 2 < 10 ^ 10 /\
  vatstore twoRemotables !! prefix weakMap ("|" +:+ "o-5")
  = Some (JsString.ofZ 1) /\
  vatstore twoRemotables !! prefix weakMap ("|" +:+ "o-6")
  = Some (JsString.ofZ 2) /\
  exists e1 e2,
    (encodeKey weakMap (KRemotable "o-5") twoRemotables).2 = Ok e1 /\
    (encodeKey weakMap (KRemotable "o-6") twoRemotables).2 = Ok e2 /\
    String.ltb e1 e2 = true.
Proof.
  assert (H1 : 0 <= 1 < 2) by lia.
  assert (H2 : 2 < 10 ^ 10) by (vm_compute; reflexivity).
  assert (H3 : vatstore twoRemotables !! prefix weakMap ("|" +:+ "o-5")
               = Some (JsString.ofZ 1)) by (vm_compute; reflexivity).
  assert (H4 : vatstore twoRemotables !! prefix weakMap ("|" +:+ "o-6")
               = Some (JsString.ofZ 2)) by (vm_compute; reflexivity).
  repeat (split; [assumption|]).
  exact (remotable_keys_sort_by_ordinal weakMap "o-5" "o-6" 1 2 twoRemotables
           H1 H2 H3 H4).
Defined.

Lemma stored_key_decodes_witness :
  restorable (KNumber Float64.posOne) /\
  (keyToDBKey strongMap (KNumber Float64.posOne) freshState).2
  = Ok "vc.1.fbff0000000000000" /\
  dbKeyToKey strongMap "vc.1.fbff0000000000000"
  = Ok (KNumber Float64.posOne).
Proof.
  assert (H1 : restorable (KNumber Float64.posOne))
    by (split; [vm_compute; split; congruence|reflexivity]).
  assert (H2 : (keyToDBKey strongMap (KNumber Float64.posOne) freshState).2
               = Ok "vc.1.fbff0000000000000") by (vm_compute; reflexivity).
  split; [exact H1|]. split; [exact H2|].
  exact (stored_key_decodes strongMap (KNumber Float64.posOne) freshState _
           H1 H2).
Defined.

Lemma db_keys_distinct_witness :
  restorable (KString "a") /\
  (keyToDBKey strongMap (KString "a") twoKeys).2 = Ok "vc.1.sa" /\
  KString "a" = KString "a".
Proof.
  assert (H1 : restorable (KString "a")) by exact I.
  assert (H2 : (keyToDBKey strongMap (KString "a") twoKeys).2 = Ok "vc.1.sa")
    by (vm_compute; reflexivity).
  split; [exact H1|]. split; [exact H2|].
  exact (db_keys_distinct strongMap (KString "a") (KString "a") twoKeys _
           H1 H1 H2 H2).
Defined.

Lemma init_then_has_and_get_witness :
  let st' := (init strongMap (KString "a") someValue freshState).1 in
  init strongMap (KString "a") someValue freshState = (st', Ok tt) /\
  has strongMap (KString "a") st' = (st', Ok true) /\
  JSON_stringify (serialize someValue) <> "" /\
  JSON_parse (JSON_stringify (serialize someValue)) = Some someValue /\
  get strongMap (KString "a") st' = (st', Ok (unserialize someValue)).
Proof.
  intros st'.
  assert (H1 : init strongMap (KString "a") someValue freshState
               = (st', Ok tt)) by (vm_compute; reflexivity).
  assert (H2 : JSON_stringify (serialize someValue) <> "")
    by (vm_compute; discriminate).
  assert (H3 : JSON_parse (JSON_stringify (serialize someValue))
               = Some someValue) by (vm_compute; reflexivity).
  pose proof (init_then_has_and_get strongMap (KString "a") someValue
                freshState st' H1) as [Hh Hg].
  split; [exact H1|]. split; [exact Hh|]. split; [exact H2|].
  split; [exact H3|]. exact (Hg someValue H2 H3).
Defined.

Lemma set_then_get_witness :
  let v := CapData "w" [] in
  let st' := (set strongMap (KString "a") v twoKeys).1 in
  set strongMap (KString "a") v twoKeys = (st', Ok tt) /\
  has strongMap (KString "a") st' = (st', Ok true) /\
  get strongMap (KString "a") st' = (st', Ok (unserialize v)).
Proof.
  intros v st'.
  assert (H1 : set strongMap (KString "a") v twoKeys = (st', Ok tt))
    by (vm_compute; reflexivity).
  assert (H2 : JSON_stringify (serialize v) <> "")
    by (vm_compute; discriminate).
  assert (H3 : JSON_parse (JSON_stringify (serialize v)) = Some v)
    by (vm_compute; reflexivity).
  pose proof (set_then_get strongMap (KString "a") v twoKeys st' H1)
    as [Hh Hg].
  split; [exact H1|]. split; [exact Hh|]. exact (Hg v H2 H3).
Defined.

Lemma delete_then_absent_witness :
  let st' := (del strongMap (KString "a") twoKeys).1 in
  del strongMap (KString "a") twoKeys = (st', Ok tt) /\
  has strongMap (KString "a") st' = (st', Ok false) /\
  get strongMap (KString "a") st' = (st', Throw NotFound) /\
  size st' = size twoKeys - 1.
Proof.
  intros st'.
  assert (H1 : del strongMap (KString "a") twoKeys = (st', Ok tt))
    by (vm_compute; reflexivity).
  split; [exact H1|].
  exact (delete_then_absent strongMap (KString "a") twoKeys st' H1).
Defined.

Lemma absent_key_fails_witness :
  matches (KString "c") (keySchema strongMap) = true /\
  has strongMap (KString "c") twoKeys = (twoKeys, Ok false) /\
  get strongMap (KString "c") twoKeys = (twoKeys, Throw NotFound) /\
  set strongMap (KString "c") someValue twoKeys = (twoKeys, Throw NotFound).
Proof.
  assert (H1 : matches (KString "c") (keySchema strongMap) = true)
    by reflexivity.
  assert (H2 : has strongMap (KString "c") twoKeys = (twoKeys, Ok false))
    by (vm_compute; reflexivity).
  pose proof (absent_key_fails strongMap (KString "c") twoKeys H1 H2)
    as [Hg Hs].
  split; [exact H1|]. split; [exact H2|]. split; [exact Hg|].
  exact (Hs someValue).
Defined.

(** The collection that [makeCollection] has just written is well
    formed, whether its keys are strong or weak. *)
Lemma freshState_wellFormed (c : collection string) :
  c = strongMap \/ c = weakMap -> wellFormed c freshState.
Proof.
  intros Hc.
  assert (Hmeta : forall x, isEntryRow c ("vc.1.|" +:+ x) = false).
  { intros x. destruct Hc as [-> | ->];
      exact (isEntryRow_meta _ x). }
  apply (created_well_formed c).
  - intros k Hk.
    pose proof (Hmeta "nextOrdinal") as X1.
    pose proof (Hmeta "keySchema") as X2.
    pose proof (Hmeta "label") as X3.
    cbv [String.append] in X1, X2, X3.
    rewrite !lookup_insert_ne by (intros <-; congruence).
    apply lookup_empty.
  - destruct Hc as [-> | ->]; vm_compute; eauto.
Qed.

Lemma init_then_delete_restores_witness :
  let st1 := (init strongMap (KString "a") someValue freshState).1 in
  wellFormed strongMap freshState /\
  init strongMap (KString "a") someValue freshState = (st1, Ok tt) /\
  exists st2,
    del strongMap (KString "a") st1 = (st2, Ok tt) /\
    size st2 = size freshState /\
    vrm st2 = releaseKey strongMap (KString "a")
                (releaseSlots (slots someValue)
                   (retainSlots (slots (serialize someValue))
                      (retainKey strongMap (KString "a") (vrm freshState)))) /\
    forall K, K <> prefix strongMap "|nextOrdinal" ->
      vatstore st2 !! K = vatstore freshState !! K.
Proof.
  intros st1.
  assert (H0 : wellFormed strongMap freshState)
    by (apply freshState_wellFormed; left; reflexivity).
  assert (H1 : init strongMap (KString "a") someValue freshState
               = (st1, Ok tt)) by (vm_compute; reflexivity).
  assert (H2 : JSON_stringify (serialize someValue) <> "")
    by (vm_compute; discriminate).
  assert (H3 : JSON_parse (JSON_stringify (serialize someValue))
               = Some someValue) by (vm_compute; reflexivity).
  split; [exact H0|]. split; [exact H1|].
  exact (init_then_delete_restores strongMap (KString "a") someValue
           freshState st1 someValue H0 H1 H2 H3).
Defined.

Lemma entryDeleter_undoes_init_witness :
  wellFormed weakMap freshState /\
  init weakMap (KRemotable "o-5") someValue freshState
  = (oneRemotable, Ok tt) /\
  exists st2,
    entryDeleter weakMap "o-5" oneRemotable = (st2, Ok tt) /\
    has weakMap (KRemotable "o-5") st2 = (st2, Ok false) /\
    forall K, K <> prefix weakMap "|nextOrdinal" ->
      vatstore st2 !! K = vatstore freshState !! K.
Proof.
  assert (H0 : wellFormed weakMap freshState)
    by (apply freshState_wellFormed; right; reflexivity).
  assert (H1 : init weakMap (KRemotable "o-5") someValue freshState
               = (oneRemotable, Ok tt)) by (vm_compute; reflexivity).
  split; [exact H0|]. split; [exact H1|].
  exact (entryDeleter_undoes_init weakMap "o-5" someValue freshState
           oneRemotable H0 H1).
Defined.

Lemma size_counts_entry_rows_witness :
  wellFormed strongMap freshState /\
  size (init strongMap (KString "a") someValue freshState).1
  = entryCount strongMap
      (init strongMap (KString "a") someValue freshState).1 /\
  size (init strongMap (KString "a") someValue freshState).1 = 1.
Proof.
  assert (H0 : wellFormed strongMap freshState)
    by (apply freshState_wellFormed; left; reflexivity).
  split; [exact H0|]. split; [|vm_compute; reflexivity].
  exact (proj1 (proj2 (size_counts_entry_rows strongMap (KString "a")
                         someValue None None freshState H0))).
Defined.

Lemma collections_do_not_interfere_witness :
  collectionID strongMap = JsString.ofZ 1 /\
  collectionID stringMap = JsString.ofZ 2 /\
  vatstore (init strongMap (KString "a") someValue freshState).1
    !! prefix stringMap "sa"
  = vatstore freshState !! prefix stringMap "sa".
Proof.
  assert (H1 : collectionID strongMap = JsString.ofZ 1) by reflexivity.
  assert (H2 : collectionID stringMap = JsString.ofZ 2) by reflexivity.
  split; [exact H1|]. split; [exact H2|].
  refine (proj1 (collections_do_not_interfere strongMap stringMap 1 2
                   (KString "a") someValue None None "sa" freshState
                   H1 H2 _ _ _)); lia.
Defined.

Lemma other_keys_unaffected_witness :
  restorable (KString "a") /\ restorable (KString "b") /\
  KString "a" <> KString "b" /\ KString "b" <> KRemotable "nextOrdinal" /\
  (has strongMap (KString "b") (del strongMap (KString "a") twoKeys).1).2
  = (has strongMap (KString "b") twoKeys).2 /\
  (get strongMap (KString "b") (del strongMap (KString "a") twoKeys).1).2
  = (get strongMap (KString "b") twoKeys).2.
Proof.
  assert (H1 : restorable (KString "a")) by exact I.
  assert (H2 : restorable (KString "b")) by exact I.
  assert (H3 : KString "a" <> KString "b") by discriminate.
  assert (H4 : KString "b" <> KRemotable "nextOrdinal") by discriminate.
  repeat (split; [assumption|]).
  exact (proj2 (proj2 (other_keys_unaffected strongMap (KString "a")
                         (KString "b") someValue twoKeys H1 H2 H3 H4))).
Defined.

Lemma iteration_yields_matching_rows_witness :
  let sc := Scan "any" "any" "vc.1." "vc.1.{" true in
  scanOf strongMap (keys None None) twoKeys = Some (sc, "") /\
  next strongMap (keys None None) twoKeys
  = (Suspended sc 2 "vc.1.sa", Ok (Some (KString "a", None))) /\
  exists dbKey dbValue,
    scanOf strongMap (Suspended sc 2 "vc.1.sa") twoKeys = Some (sc, dbKey) /\
    String.ltb "" dbKey = true /\
    vatstore twoKeys !! dbKey = Some dbValue /\
    String.leb (scanStart sc) dbKey = true /\
    String.ltb dbKey (scanEnd sc) = true /\
    dbKeyToKey strongMap dbKey = Ok (KString "a") /\
    rowMatches strongMap sc dbKey dbValue = true /\
    None = if ignoreValues sc then None
           else option_map unserialize (JSON_parse dbValue).
Proof.
  intros sc.
  assert (H1 : scanOf strongMap (keys None None) twoKeys = Some (sc, ""))
    by (vm_compute; reflexivity).
  assert (H2 : next strongMap (keys None None) twoKeys
               = (Suspended sc 2 "vc.1.sa", Ok (Some (KString "a", None))))
    by (vm_compute; reflexivity).
  split; [exact H1|]. split; [exact H2|].
  exact (iteration_yields_matching_rows strongMap _ _ twoKeys sc ""
           (KString "a") None H1 H2).
Defined.

Lemma iteration_skips_no_matching_row_witness :
  let sc := Scan "string" "any" "vc.1." "vc.1.{" true in
  let it := keys (Some "string") None in
  scanOf strongMap it mixedKeys = Some (sc, "") /\
  next strongMap it mixedKeys
  = (Suspended sc 3 "vc.1.sa", Ok (Some (KString "a", None))) /\
  vatstore mixedKeys !! "vc.1.btrue" = Some "v,o-7" /\
  VatStore.inRange "" (scanStart sc) (scanEnd sc) "vc.1.btrue" = true /\
  passed (Suspended sc 3 "vc.1.sa") "vc.1.btrue" = true /\
  rowMatches strongMap sc "vc.1.btrue" "v,o-7" = false.
Proof.
  intros sc it.
  assert (H1 : scanOf strongMap it mixedKeys = Some (sc, ""))
    by (vm_compute; reflexivity).
  assert (H2 : next strongMap it mixedKeys
               = (Suspended sc 3 "vc.1.sa", Ok (Some (KString "a", None))))
    by (vm_compute; reflexivity).
  assert (H3 : vatstore mixedKeys !! "vc.1.btrue" = Some "v,o-7")
    by (vm_compute; reflexivity).
  assert (H4 : VatStore.inRange "" (scanStart sc) (scanEnd sc) "vc.1.btrue"
               = true) by (vm_compute; reflexivity).
  assert (H5 : passed (Suspended sc 3 "vc.1.sa") "vc.1.btrue" = true)
    by (vm_compute; reflexivity).
  repeat (split; [assumption|]).
  exact (iteration_skips_no_matching_row strongMap it _ mixedKeys sc "" _
           "vc.1.btrue" "v,o-7" H1 H2 H3 H4 H5).
Defined.

Lemma iteration_and_clear_return_witness :
  (next strongMap (keys None None) twoKeys).2 <> Throw FuelExhausted /\
  (keysNext strongMap (keys None None) twoKeys).2 <> Throw FuelExhausted /\
  (valuesNext strongMap (keys None None) twoKeys).2 <> Throw FuelExhausted /\
  (entriesNext strongMap (keys None None) twoKeys).2 <> Throw FuelExhausted /\
  (clear strongMap None None twoKeys).2 <> Throw FuelExhausted.
Proof.
  assert (H : forall (keyPatt : string) (enc : key -> outcome string),
            getRankCover keyPatt enc <> Throw FuelExhausted)
    by (intros keyPatt enc; simpl; discriminate).
  exact (iteration_and_clear_return strongMap (keys None None) None None
           twoKeys H).
Defined.

Lemma value_patterns_are_unsupported_witness :
  isKeyPattern (default M_any (@None string)) = true /\
  pattEq "scalar" M_any = false /\
  next strongMap (NotStarted true None (Some "scalar")) twoKeys
  = (Completed, Throw UnsupportedValuePattern) /\
  clear strongMap None (Some "scalar") twoKeys
  = (twoKeys, Throw UnsupportedValuePattern).
Proof.
  assert (H1 : isKeyPattern (default M_any (@None string)) = true)
    by reflexivity.
  assert (H2 : pattEq "scalar" M_any = false) by reflexivity.
  split; [exact H1|]. split; [exact H2|].
  exact (value_patterns_are_unsupported strongMap true None "scalar" twoKeys
           H1 H2).
Defined.

Lemma fresh_vat_kind_ids_witness :
  let m' := (obtainStoreKindID scalarSetStore emptyManager).1 in
  storeKindInfoNeedsInitialization emptyManager = true /\
  mVatstore emptyManager !! "storeKindIDTable" = None /\
  (obtainStoreKindID scalarSetStore emptyManager).2 = Ok 3 /\
  nextExportID m' = 5 /\
  mVatstore m' = <["storeKindIDTable" := "1,2,3,4"]> ∅.
Proof.
  intros m'.
  assert (H1 : storeKindInfoNeedsInitialization emptyManager = true)
    by reflexivity.
  assert (H2 : mVatstore emptyManager !! "storeKindIDTable" = None)
    by reflexivity.
  split; [exact H1|]. split; [exact H2|].
  pose proof (fresh_vat_kind_ids scalarSetStore emptyManager H1 H2)
    as (Hr & Hm & Hw & Hs & Hws & Hn & _ & (t & Ht & Hst) & _).
  fold m' in Hr, Hm, Hw, Hs, Hws, Hn, Ht, Hst.
  split; [rewrite Hr, Hs; reflexivity|].
  split; [rewrite Hn; reflexivity|].
  rewrite Hst. unfold JSON_stringifyTable, kindTableCodec, storeKindNames.
  cbn [map]. rewrite !Ht, Hm, Hw, Hs, Hws. reflexivity.
Defined.

Lemma stored_kind_ids_are_kept_witness :
  storeKindInfoNeedsInitialization restartedManager = true /\
  mVatstore restartedManager !! "storeKindIDTable" = Some "5,6,7,8" /\
  JSON_parseTable "5,6,7,8" = Some (tableOf "5,6,7,8") /\
  tableOf "5,6,7,8" scalarSetStore = Some 7 /\
  storeKindID (obtainStoreKindID scalarMapStore restartedManager).1
    scalarSetStore = 7.
Proof.
  assert (H1 : storeKindInfoNeedsInitialization restartedManager = true)
    by reflexivity.
  assert (H2 : mVatstore restartedManager !! "storeKindIDTable"
               = Some "5,6,7,8") by reflexivity.
  assert (H3 : "5,6,7,8" <> "") by discriminate.
  assert (H4 : JSON_parseTable "5,6,7,8" = Some (tableOf "5,6,7,8"))
    by reflexivity.
  assert (H5 : tableOf "5,6,7,8" scalarSetStore = Some 7)
    by (vm_compute; reflexivity).
  repeat (split; [assumption|]).
  pose proof (stored_kind_ids_are_kept scalarMapStore restartedManager
                "5,6,7,8" (tableOf "5,6,7,8") H1 H2 H3 H4)
    as (_ & Hkept & _).
  apply (Hkept scalarSetStore 7 H5). discriminate.
Defined.

Lemma makeCollection_makes_empty_collection_witness :
  let m' := (makeCollection "demo" scalarMapStore None emptyManager).1 in
  let h := Handle strongMap 0 0 in
  makeCollection "demo" scalarMapStore None emptyManager
  = (m', Ok ("o+1/1", h)) /\
  nextCollectionID m' = 2 /\
  mVatstore m' !! prefix strongMap "|nextOrdinal" = Some "1" /\
  mVatstore m' !! prefix strongMap "|label" = Some "demo" /\
  wellFormed strongMap (enter h m') /\
  (has strongMap (KString "a") (enter h m')).2 <> Ok true.
Proof.
  intros m' h.
  assert (H1 : makeCollection "demo" scalarMapStore None emptyManager
               = (m', Ok ("o+1/1", h))) by (vm_compute; reflexivity).
  split; [exact H1|].
  pose proof (makeCollection_makes_empty_collection "demo" scalarMapStore
                None emptyManager m' "o+1/1" h H1)
    as (_ & _ & _ & Hn & _ & Ho & Hl & _ & Hw).
  split; [exact Hn|]. split; [exact Ho|]. split; [exact Hl|].
  destruct Hw as [Hwf Hhas]; [intros K _; apply lookup_empty|].
  split; [exact Hwf|]. apply Hhas. intros slot E. discriminate.
Defined.

End ConcreteLaws.
